(** * js-analysis: the rewrite driver, the pattern engine and the output helper

    A shallow embedding of [lib/rewriteCode.js] and [lib/io.js], together
    with the pattern engine ([lib/patterns.js]) they rely on.

    Syntax trees are the plain JavaScript objects the parser produces: a
    node is an object with a string [type] property; its other properties
    hold scalars, child nodes or arrays of child nodes. *)

From Stdlib Require Import ZArith Ascii String List Lia DecimalString.
From stdpp Require Import base option list strings gmap.

Set Warnings "-register-all".

Local Open Scope Z_scope.
Local Open Scope stdpp_scope.

(* ===================================================================== *)
(** * Part I: definitions                                                 *)
(* ===================================================================== *)

(* --------------------------------------------------------------------- *)
(** ** JavaScript values                                                  *)
(* --------------------------------------------------------------------- *)

(** [VNull] stands for both [null] and [undefined]; property order of an
    object is its insertion order. *)
Inductive value : Type :=
| VNull
| VBool (b : bool)
| VNum (z : Z)
| VStr (s : string)
| VArr (items : list value)
| VObj (fields : list (string * value)).

Inductive error : Type :=
| TypeError
| MissingBinding (key : string)
| UnknownNodeType.

(** A computation returns, throws, or is still running when the step budget
    is used up. *)
Inductive outcome (A : Type) : Type :=
| Done (a : A)
| Throw (e : error)
| Timeout.
Arguments Done {A} a.
Arguments Throw {A} e.
Arguments Timeout {A}.

Fixpoint lookup_field (k : string) (fs : list (string * value)) : option value :=
  match fs with
  | [] => None
  | (k', v) :: rest => if String.eqb k k' then Some v else lookup_field k rest
  end.

(** [set_field k v fs] is the assignment [o[k] = v] on the property list. *)
Fixpoint set_field (k : string) (v : value) (fs : list (string * value))
  : list (string * value) :=
  match fs with
  | [] => [(k, v)]
  | (k', v') :: rest =>
      if String.eqb k k' then (k', v) :: rest else (k', v') :: set_field k v rest
  end.

(** [get o k] is the property read [o.k]; a missing property reads as
    undefined. *)
Definition get (o : value) (k : string) : value :=
  match o with
  | VObj fs => default VNull (lookup_field k fs)
  | _ => VNull
  end.

Definition set (o : value) (k : string) (v : value) : value :=
  match o with
  | VObj fs => VObj (set_field k v fs)
  | _ => o
  end.

(** Reading a property of [null] or [undefined] throws. *)
Definition member (o : value) (k : string) : outcome value :=
  match o with
  | VNull => Throw TypeError
  | _ => Done (get o k)
  end.

(** [has_type o t] is the test [o.type == t] against a string constant. *)
Definition has_type (o : value) (t : string) : bool :=
  match get o "type" with
  | VStr s => String.eqb s t
  | _ => false
  end.

Definition type_of (o : value) : option string :=
  match get o "type" with
  | VStr s => Some s
  | _ => None
  end.

(** estraverse's [isNode]: an object whose [type] is a string. *)
Definition is_node (o : value) : bool :=
  match o with
  | VObj _ => match type_of o with Some _ => true | None => false end
  | _ => false
  end.

Fixpoint value_eqb (a b : value) {struct a} : bool :=
  match a, b with
  | VNull, VNull => true
  | VBool x, VBool y => Bool.eqb x y
  | VNum x, VNum y => Z.eqb x y
  | VStr x, VStr y => String.eqb x y
  | VArr xs, VArr ys =>
      (fix items (xs ys : list value) {struct xs} : bool :=
         match xs, ys with
         | [], [] => true
         | x :: xs', y :: ys' => value_eqb x y && items xs' ys'
         | _, _ => false
         end) xs ys
  | VObj xs, VObj ys =>
      (fix fields (xs ys : list (string * value)) {struct xs} : bool :=
         match xs, ys with
         | [], [] => true
         | (k, x) :: xs', (k', y) :: ys' =>
             String.eqb k k' && value_eqb x y && fields xs' ys'
         | _, _ => false
         end) xs ys
  | _, _ => false
  end.

Fixpoint weight (v : value) : nat :=
  match v with
  | VArr items => S (list_sum (map weight items))
  | VObj fs => S (list_sum (map (fun kv => weight (snd kv)) fs))
  | _ => 1%nat
  end.

(** Number to string conversion, as in [name + i]. *)
Definition string_of_nat (n : nat) : string :=
  NilEmpty.string_of_uint (Nat.to_uint n).

(* --------------------------------------------------------------------- *)
(** ** lib/io.js                                                          *)
(* --------------------------------------------------------------------- *)

Module io.

(** [path.dirname] of the platform library (POSIX flavour): the backwards
    scan for the last separator that follows a non-separator.  [None] is
    the library's [end = -1]. *)
Definition is_slash (c : option ascii) : bool :=
  match c with
  | Some c => Ascii.eqb c "/"
  | None => false
  end.

Fixpoint dirname_scan (path : string) (i : nat) (matchedSlash : bool)
  : option nat :=
  match i with
  | O => None
  | S i' =>
      if is_slash (String.get i path) then
        if matchedSlash then dirname_scan path i' true else Some i
      else dirname_scan path i' false
  end.

Definition hasRoot (path : string) : bool := is_slash (String.get 0 path).

Definition dirname (path : string) : string :=
  if Nat.eqb (String.length path) 0 then "."
  else
    match dirname_scan path (String.length path - 1) true with
    | None => if hasRoot path then "/" else "."
    | Some e =>
        if hasRoot path && Nat.eqb e 1 then "//"
        else String.substring 0 e path
    end.

(** The file system is the set of directories that exist. *)
Definition existsSync (fs : gset string) (dir : string) : bool :=
  bool_decide (dir ∈ fs).

Definition mkdirSync (fs : gset string) (dir : string) : gset string :=
  {[dir]} ∪ fs.

(** [fuel] bounds the depth of the recursion. *)
Fixpoint ensureParentDirExists (fuel : nat) (fs : gset string) (filepath : string)
  : outcome (gset string) :=
  match fuel with
  | O => Timeout
  | S fuel' =>
      let dir := dirname filepath in
      if String.eqb dir "" || String.eqb dir "." then Done fs
      else
        match ensureParentDirExists fuel' fs dir with
        | Done fs' =>
            if negb (existsSync fs' dir) then Done (mkdirSync fs' dir)
            else Done fs'
        | other => other
        end
  end.

End io.


(* --------------------------------------------------------------------- *)
(** ** Syntax trees as the parser builds them                             *)
(* --------------------------------------------------------------------- *)

(** One constructor function per node kind, with the parser's property
    layout. *)
Module ast.

Definition Identifier (name : string) : value :=
  VObj [("type", VStr "Identifier"); ("name", VStr name)].

Definition Literal (v : value) (raw : string) : value :=
  VObj [("type", VStr "Literal"); ("value", v); ("raw", VStr raw)].

Definition UnaryExpression (operator : string) (argument : value) : value :=
  VObj [("type", VStr "UnaryExpression"); ("operator", VStr operator);
        ("argument", argument); ("prefix", VBool true)].

Definition BinaryExpression (operator : string) (left right : value) : value :=
  VObj [("type", VStr "BinaryExpression"); ("operator", VStr operator);
        ("left", left); ("right", right)].

Definition LogicalExpression (operator : string) (left right : value) : value :=
  VObj [("type", VStr "LogicalExpression"); ("operator", VStr operator);
        ("left", left); ("right", right)].

Definition AssignmentExpression (operator : string) (left right : value) : value :=
  VObj [("type", VStr "AssignmentExpression"); ("operator", VStr operator);
        ("left", left); ("right", right)].

Definition ConditionalExpression (test consequent alternate : value) : value :=
  VObj [("type", VStr "ConditionalExpression"); ("test", test);
        ("consequent", consequent); ("alternate", alternate)].

Definition MemberExpression (computed : bool) (object property : value) : value :=
  VObj [("type", VStr "MemberExpression"); ("computed", VBool computed);
        ("object", object); ("property", property)].

Definition CallExpression (callee : value) (arguments : list value) : value :=
  VObj [("type", VStr "CallExpression"); ("callee", callee);
        ("arguments", VArr arguments)].

Definition Property (key val : value) : value :=
  VObj [("type", VStr "Property"); ("key", key); ("computed", VBool false);
        ("value", val); ("kind", VStr "init"); ("method", VBool false);
        ("shorthand", VBool false)].

Definition ObjectExpression (properties : list value) : value :=
  VObj [("type", VStr "ObjectExpression"); ("properties", VArr properties)].

Definition SequenceExpression (expressions : list value) : value :=
  VObj [("type", VStr "SequenceExpression"); ("expressions", VArr expressions)].

Definition ExpressionStatement (expression : value) : value :=
  VObj [("type", VStr "ExpressionStatement"); ("expression", expression)].

Definition BlockStatement (body : list value) : value :=
  VObj [("type", VStr "BlockStatement"); ("body", VArr body)].

Definition IfStatement (test consequent alternate : value) : value :=
  VObj [("type", VStr "IfStatement"); ("test", test);
        ("consequent", consequent); ("alternate", alternate)].

Definition WhileStatement (test body : value) : value :=
  VObj [("type", VStr "WhileStatement"); ("test", test); ("body", body)].

Definition DoWhileStatement (body test : value) : value :=
  VObj [("type", VStr "DoWhileStatement"); ("body", body); ("test", test)].

Definition ForStatement (init test update body : value) : value :=
  VObj [("type", VStr "ForStatement"); ("init", init); ("test", test);
        ("update", update); ("body", body)].

Definition ForInStatement (left right body : value) : value :=
  VObj [("type", VStr "ForInStatement"); ("left", left); ("right", right);
        ("body", body); ("each", VBool false)].

Definition ForOfStatement (left right body : value) : value :=
  VObj [("type", VStr "ForOfStatement"); ("left", left); ("right", right);
        ("body", body)].

Definition ReturnStatement (argument : value) : value :=
  VObj [("type", VStr "ReturnStatement"); ("argument", argument)].

Definition VariableDeclarator (id init : value) : value :=
  VObj [("type", VStr "VariableDeclarator"); ("id", id); ("init", init)].

Definition VariableDeclaration (kind : string) (declarations : list value) : value :=
  VObj [("type", VStr "VariableDeclaration"); ("declarations", VArr declarations);
        ("kind", VStr kind)].

Definition FunctionDeclaration (id : value) (params : list value) (body : value)
  : value :=
  VObj [("type", VStr "FunctionDeclaration"); ("id", id); ("params", VArr params);
        ("body", body); ("generator", VBool false); ("expression", VBool false);
        ("async", VBool false)].

Definition Program (body : list value) : value :=
  VObj [("type", VStr "Program"); ("body", VArr body);
        ("sourceType", VStr "script")].

End ast.

(* --------------------------------------------------------------------- *)
(** ** lib/patterns.js                                                    *)
(* --------------------------------------------------------------------- *)

Module patterns.

(** Modelled from the spec: lib/patterns.js is not among the sources; a
    compiled pattern may contain three kinds of placeholder leaves, each
    with its index, the statement and expression ones with their modifier. *)
Definition GenericPlaceholder (index : nat) : value :=
  VObj [("type", VStr "GenericPlaceholder"); ("index", VNum (Z.of_nat index))].

(** Modelled from the spec: lib/patterns.js is not among the sources. *)
Definition StatementPlaceholder (index : nat) (expectMultiLine : bool) : value :=
  VObj [("type", VStr "StatementPlaceholder"); ("index", VNum (Z.of_nat index));
        ("expectMultiLine", VBool expectMultiLine)].

(** Modelled from the spec: lib/patterns.js is not among the sources. *)
Definition ExpressionPlaceholder (index : nat) (allowDeclarations : bool) : value :=
  VObj [("type", VStr "ExpressionPlaceholder"); ("index", VNum (Z.of_nat index));
        ("allowDeclarations", VBool allowDeclarations)].

(** Modelled from the spec: lib/patterns.js is not among the sources. *)
Definition index_of (p : value) : nat :=
  match get p "index" with
  | VNum z => Z.to_nat z
  | _ => O
  end.

(** Modelled from the spec: lib/patterns.js is not among the sources; the
    key of a placeholder is its family and index, as in [expression2]. *)
Definition key_of (family : string) (p : value) : string :=
  family +:+ string_of_nat (index_of p).

(** Modelled from the spec: lib/patterns.js is not among the sources; a
    modifier of a placeholder. *)
Definition flag (p : value) (name : string) : bool :=
  match get p name with
  | VBool b => b
  | _ => false
  end.

(** Modelled from the spec: lib/patterns.js is not among the sources;
    whether the node's kind is one of a family. *)
Definition kind_in (kinds : list string) (node : value) : bool :=
  match type_of node with
  | Some t => existsb (String.eqb t) kinds
  | None => false
  end.

(** Modelled from the spec: lib/patterns.js is not among the sources; the
    two statement families are those the matcher's description lists
    (conditional, loop forms, block, switch, try, labeled, nested function
    against expression-statement, declaration, return/throw/break/continue). *)
Definition compound_kinds : list string :=
  ["IfStatement"; "WhileStatement"; "DoWhileStatement"; "ForStatement";
   "ForInStatement"; "ForOfStatement"; "BlockStatement"; "SwitchStatement";
   "TryStatement"; "LabeledStatement"; "FunctionDeclaration"].

(** Modelled from the spec: lib/patterns.js is not among the sources; the
    atomic family. *)
Definition atomic_kinds : list string :=
  ["ExpressionStatement"; "VariableDeclaration"; "ReturnStatement";
   "ThrowStatement"; "BreakStatement"; "ContinueStatement"].

(** Modelled from the spec: lib/patterns.js is not among the sources; the
    kinds of node that are expressions. *)
Definition expression_kinds : list string :=
  ["Identifier"; "Literal"; "ThisExpression"; "ArrayExpression";
   "ObjectExpression"; "FunctionExpression"; "ArrowFunctionExpression";
   "ClassExpression"; "TemplateLiteral"; "TaggedTemplateExpression";
   "MemberExpression"; "MetaProperty"; "NewExpression"; "CallExpression";
   "UpdateExpression"; "AwaitExpression"; "UnaryExpression";
   "BinaryExpression"; "LogicalExpression"; "ConditionalExpression";
   "YieldExpression"; "AssignmentExpression"; "SequenceExpression"].

(** Modelled from the spec: lib/patterns.js is not among the sources; the
    declaration form a loop may start with. *)
Definition declaration_kinds : list string := ["VariableDeclaration"].

(** Modelled from the spec: lib/patterns.js is not among the sources; the
    test behind the [.multiLine] modifier. *)
Definition is_multiLine (node : value) : bool := kind_in compound_kinds node.

(** Modelled from the spec: lib/patterns.js is not among the sources; a
    statement is of one of the two families. *)
Definition is_statement (node : value) : bool :=
  kind_in compound_kinds node || kind_in atomic_kinds node.

(** Modelled from the spec: lib/patterns.js is not among the sources. *)
Definition is_expression (node : value) : bool := kind_in expression_kinds node.

(** Modelled from the spec: lib/patterns.js is not among the sources. *)
Definition is_declaration (node : value) : bool := kind_in declaration_kinds node.

(** Modelled from the spec: lib/patterns.js is not among the sources;
    position metadata is left out of structural comparison. *)
Definition metadata_key (k : string) : bool :=
  String.eqb k "loc" || String.eqb k "range".

(** Modelled from the spec: lib/patterns.js is not among the sources; a
    tree without its position metadata. *)
Fixpoint strip (v : value) : value :=
  match v with
  | VArr items => VArr (map strip items)
  | VObj fs =>
      VObj ((fix fields (fs : list (string * value)) : list (string * value) :=
               match fs with
               | [] => []
               | (k, x) :: rest =>
                   if metadata_key k then fields rest
                   else (k, strip x) :: fields rest
               end) fs)
  | _ => v
  end.

(** Modelled from the spec: lib/patterns.js is not among the sources;
    equality of bound values is recursive kind and field equality. *)
Definition node_equal (a b : value) : bool := value_eqb (strip a) (strip b).

(** Modelled from the spec: lib/patterns.js is not among the sources; a
    placeholder key is bound at its first occurrence and re-checked at
    every later one. *)
Definition bind (key : string) (v : value) (env : gmap string value)
  : option (gmap string value) :=
  match env !! key with
  | None => Some (<[key := v]> env)
  | Some bound => if node_equal bound v then Some env else None
  end.

(** Modelled from the spec: lib/patterns.js is not among the sources; the
    synchronized descent over pattern and node of the matcher's description,
    threading the bindings collected so far. *)
Fixpoint match_into (pattern node : value) (env : gmap string value)
  {struct pattern} : option (gmap string value) :=
  match pattern with
  | VObj pfs =>
      if has_type pattern "GenericPlaceholder" then
        if has_type node "Identifier"
        then bind (key_of "placeholder" pattern) (get node "name") env
        else None
      else if has_type pattern "StatementPlaceholder" then
        if is_statement node
           && implb (flag pattern "expectMultiLine") (is_multiLine node)
        then bind (key_of "statement" pattern) node env
        else None
      else if has_type pattern "ExpressionPlaceholder" then
        if is_expression node
           || (flag pattern "allowDeclarations" && is_declaration node)
        then bind (key_of "expression" pattern) node env
        else None
      else
        match node with
        | VObj _ =>
            (fix fields (pfs : list (string * value)) (env : gmap string value)
               : option (gmap string value) :=
               match pfs with
               | [] => Some env
               | (k, p) :: rest =>
                   match match_into p (get node k) env with
                   | Some env' => fields rest env'
                   | None => None
                   end
               end) pfs env
        | _ => None
        end
  | VArr ps =>
      match node with
      | VArr ns =>
          (fix items (ps ns : list value) (env : gmap string value)
             : option (gmap string value) :=
             match ps, ns with
             | [], [] => Some env
             | p :: ps', n :: ns' =>
                 match match_into p n env with
                 | Some env' => items ps' ns' env'
                 | None => None
                 end
             | _, _ => None
             end) ps ns env
      | _ => None
      end
  | _ => if value_eqb pattern node then Some env else None
  end.

(** Modelled from the spec: lib/patterns.js is not among the sources;
    [matches(pattern, node)] starts from no bindings; [None] is no-match. *)
Definition matches (pattern node : value) : option (gmap string value) :=
  match_into pattern node ∅.

(** Modelled from the spec: lib/patterns.js is not among the sources;
    [fill(template, environment)] rebuilds the template with every
    placeholder replaced by its bound value and throws on a missing one. *)
Fixpoint fill (template : value) (env : gmap string value) : outcome value :=
  match template with
  | VObj fs =>
      if has_type template "GenericPlaceholder" then
        match env !! key_of "placeholder" template with
        | Some name => Done (VObj [("type", VStr "Identifier"); ("name", name)])
        | None => Throw (MissingBinding (key_of "placeholder" template))
        end
      else if has_type template "StatementPlaceholder" then
        match env !! key_of "statement" template with
        | Some v => Done v
        | None => Throw (MissingBinding (key_of "statement" template))
        end
      else if has_type template "ExpressionPlaceholder" then
        match env !! key_of "expression" template with
        | Some v => Done v
        | None => Throw (MissingBinding (key_of "expression" template))
        end
      else
        match
          (fix fields (fs : list (string * value))
             : outcome (list (string * value)) :=
             match fs with
             | [] => Done []
             | (k, t) :: rest =>
                 match fill t env with
                 | Done v =>
                     match fields rest with
                     | Done vs => Done ((k, v) :: vs)
                     | Throw e => Throw e
                     | Timeout => Timeout
                     end
                 | Throw e => Throw e
                 | Timeout => Timeout
                 end
             end) fs
        with
        | Done fs' => Done (VObj fs')
        | Throw e => Throw e
        | Timeout => Timeout
        end
  | VArr ts =>
      match
        (fix items (ts : list value) : outcome (list value) :=
           match ts with
           | [] => Done []
           | t :: rest =>
               match fill t env with
               | Done v =>
                   match items rest with
                   | Done vs => Done (v :: vs)
                   | Throw e => Throw e
                   | Timeout => Timeout
                   end
               | Throw e => Throw e
               | Timeout => Timeout
               end
           end) ts
      with
      | Done vs => Done (VArr vs)
      | Throw e => Throw e
      | Timeout => Timeout
      end
  | _ => Done template
  end.

End patterns.

(* --------------------------------------------------------------------- *)
(** ** lib/rewriteCode.js                                                 *)
(* --------------------------------------------------------------------- *)

Module rewriteCode.

Import ast patterns.

(** The rule table.  [patterns.compile] is not among the sources: each
    entry is written as the tree the parser builds for the source text
    shown beside it, with the placeholders of the pattern language in
    place of the identifiers that name them. *)
Definition rewritePatterns : list (value * value) :=
  [ (* !1  =>  false *)
    (UnaryExpression "!" (Literal (VNum 1) "1"), Literal (VBool false) "false");
    (* !0  =>  true *)
    (UnaryExpression "!" (Literal (VNum 0) "0"), Literal (VBool true) "true");
    (* void 0  =>  undefined *)
    (UnaryExpression "void" (Literal (VNum 0) "0"), Identifier "undefined");
    (* expression1 && expression2;  =>  if (expression1) expression2; *)
    (ExpressionStatement
       (LogicalExpression "&&" (ExpressionPlaceholder 1 false)
          (ExpressionPlaceholder 2 false)),
     IfStatement (ExpressionPlaceholder 1 false)
       (ExpressionStatement (ExpressionPlaceholder 2 false)) VNull);
    (* expression1 || expression2;  =>  if (!expression1) expression2; *)
    (ExpressionStatement
       (LogicalExpression "||" (ExpressionPlaceholder 1 false)
          (ExpressionPlaceholder 2 false)),
     IfStatement (UnaryExpression "!" (ExpressionPlaceholder 1 false))
       (ExpressionStatement (ExpressionPlaceholder 2 false)) VNull);
    (* expression1 ? expression2 : expression3;
       =>  if (expression1) expression2; else expression3; *)
    (ExpressionStatement
       (ConditionalExpression (ExpressionPlaceholder 1 false)
          (ExpressionPlaceholder 2 false) (ExpressionPlaceholder 3 false)),
     IfStatement (ExpressionPlaceholder 1 false)
       (ExpressionStatement (ExpressionPlaceholder 2 false))
       (ExpressionStatement (ExpressionPlaceholder 3 false)));
    (* if (expression1) statement1.multiLine;
       =>  if (expression1) { statement1; } *)
    (IfStatement (ExpressionPlaceholder 1 false) (StatementPlaceholder 1 true) VNull,
     IfStatement (ExpressionPlaceholder 1 false)
       (BlockStatement [StatementPlaceholder 1 false]) VNull);
    (* while (expression1) statement1.multiLine;
       =>  while (expression1) { statement1; } *)
    (WhileStatement (ExpressionPlaceholder 1 false) (StatementPlaceholder 1 true),
     WhileStatement (ExpressionPlaceholder 1 false)
       (BlockStatement [StatementPlaceholder 1 false]));
    (* do statement1.multiLine; while (expression1);
       =>  do { statement1; } while (expression1); *)
    (DoWhileStatement (StatementPlaceholder 1 true) (ExpressionPlaceholder 1 false),
     DoWhileStatement (BlockStatement [StatementPlaceholder 1 false])
       (ExpressionPlaceholder 1 false));
    (* for (expression1.orDeclaration; expression2; expression3) statement1.multiLine;
       =>  for (expression1; expression2; expression3) { statement1; } *)
    (ForStatement (ExpressionPlaceholder 1 true) (ExpressionPlaceholder 2 false)
       (ExpressionPlaceholder 3 false) (StatementPlaceholder 1 true),
     ForStatement (ExpressionPlaceholder 1 false) (ExpressionPlaceholder 2 false)
       (ExpressionPlaceholder 3 false) (BlockStatement [StatementPlaceholder 1 false]));
    (* for (expression1.orDeclaration in expression2) statement1.multiLine;
       =>  for (expression1 in expression2) { statement1; } *)
    (ForInStatement (ExpressionPlaceholder 1 true) (ExpressionPlaceholder 2 false)
       (StatementPlaceholder 1 true),
     ForInStatement (ExpressionPlaceholder 1 false) (ExpressionPlaceholder 2 false)
       (BlockStatement [StatementPlaceholder 1 false]));
    (* for (expression1.orDeclaration of expression2) statement1.multiLine;
       =>  for (expression1 of expression2) { statement1; } *)
    (ForOfStatement (ExpressionPlaceholder 1 true) (ExpressionPlaceholder 2 false)
       (StatementPlaceholder 1 true),
     ForOfStatement (ExpressionPlaceholder 1 false) (ExpressionPlaceholder 2 false)
       (BlockStatement [StatementPlaceholder 1 false]));
    (* function placeholder1(placeholder2)
       { return placeholder2 && placeholder2.__esModule
                ? placeholder2 : { default: placeholder2 }; }
       =>  function _interopRequireDefault(obj)
       { return obj && obj.__esModule ? obj : { default: obj }; } *)
    (FunctionDeclaration (GenericPlaceholder 1) [GenericPlaceholder 2]
       (BlockStatement
          [ReturnStatement
             (ConditionalExpression
                (LogicalExpression "&&" (GenericPlaceholder 2)
                   (MemberExpression false (GenericPlaceholder 2)
                      (Identifier "__esModule")))
                (GenericPlaceholder 2)
                (ObjectExpression
                   [Property (Identifier "default") (GenericPlaceholder 2)]))]),
     FunctionDeclaration (Identifier "_interopRequireDefault") [Identifier "obj"]
       (BlockStatement
          [ReturnStatement
             (ConditionalExpression
                (LogicalExpression "&&" (Identifier "obj")
                   (MemberExpression false (Identifier "obj")
                      (Identifier "__esModule")))
                (Identifier "obj")
                (ObjectExpression
                   [Property (Identifier "default") (Identifier "obj")]))]))
  ].

(** A call [renameVariable(variable, newName)]: the variable is the one the
    enclosing scope holds under the declaration's current name. *)
Record renaming : Type := Rename { variable : value; newName : value }.

(** The driver's computations: an outcome together with the renamings
    requested on the way, in order. *)
Definition M (A : Type) : Type := outcome (A * list renaming).

Definition ret {A} (a : A) : M A := Done (a, []).

Definition bindM {A B} (m : M A) (k : A → M B) : M B :=
  match m with
  | Done (a, log) =>
      match k a with
      | Done (b, log') => Done (b, log ++ log')
      | Throw e => Throw e
      | Timeout => Timeout
      end
  | Throw e => Throw e
  | Timeout => Timeout
  end.

Definition lift {A} (o : outcome A) : M A :=
  match o with
  | Done a => ret a
  | Throw e => Throw e
  | Timeout => Timeout
  end.

(** Modelled from the spec: utils.js is not among the sources; renaming
    the binding, and with it every reference to it, is recorded as a
    request: the tree the driver hands back shows the identifiers as they
    were before the requests are carried out. *)
Definition renameVariable (variable newName : value) : M unit :=
  Done (tt, [Rename variable newName]).

Notation "x <- m ;; k" := (bindM m (fun x => k))
  (at level 100, m at next level, right associativity).

Fixpoint mapM {A B} (f : A → M B) (l : list A) : M (list B) :=
  match l with
  | [] => ret []
  | x :: xs => y <- f x ;; ys <- mapM f xs ;; ret (y :: ys)
  end.

(** What the driver imports: the traversal library's table of child
    properties per node kind, the pattern engine, the rule table, and the
    scope analysis of the tree ([scopeManager.acquire(node).upper.set] as
    the set of names bound there, [None] when there is no such scope). *)
Record collaborators : Type := Collaborators {
  VisitorKeys : string → option (list string);
  matches : value → value → option (gmap string value);
  fill : value → gmap string value → outcome value;
  table : list (value * value);
  scopeManager : value → option (gset string)
}.

(** [node.type == "ExpressionStatement" &&
     node.expression.type == "SequenceExpression"] *)
Definition is_sequence_statement (node : value) : outcome bool :=
  if has_type node "ExpressionStatement" then
    match member (get node "expression") "type" with
    | Done (VStr t) => Done (String.eqb t "SequenceExpression")
    | Done _ => Done false
    | Throw e => Throw e
    | Timeout => Timeout
    end
  else Done false.

(** a, b, c => a; b; c; *)
Definition split_sequence (node : value) : outcome value :=
  match get (get node "expression") "expressions" with
  | VArr expressions =>
      Done (VObj [("type", VStr "Program");
                  ("body", VArr (map (fun expression =>
                     VObj [("type", VStr "ExpressionStatement");
                           ("expression", expression)]) expressions))])
  | _ => Throw TypeError
  end.

(** [while (scope.set.has(newName)) newName = result.id.name + i;] *)
Fixpoint find_free_name (fuel : nat) (scope : gset string) (name : string)
  (i : nat) (newName : string) : outcome string :=
  match fuel with
  | O => Timeout
  | S fuel' =>
      if bool_decide (newName ∈ scope)
      then find_free_name fuel' scope name i (name +:+ string_of_nat i)
      else Done newName
  end.

(** The body of the [FunctionDeclaration] branch.  The scope binds strings
    only, so the loop is entered, and [result.id.name + i] evaluated, only
    when the name is a string. *)
Definition disambiguate (c : collaborators) (fuel : nat) (node result : value)
  : M value :=
  match scopeManager c node with
  | None => Throw TypeError
  | Some scope =>
      variable <- lift (member (get node "id") "name") ;;
      name <- lift (member (get result "id") "name") ;;
      newName <- match name with
                 | VStr name =>
                     newName <- lift (find_free_name fuel scope name 1 name) ;;
                     ret (VStr newName)
                 | _ => ret name
                 end ;;
      let result := set result "id" (set (get result "id") "name" newName) in
      _ <- renameVariable variable newName ;;
      ret result
  end.

(** The loop over the rule table; [None] is falling off the end of [enter]
    without a return value. *)
Fixpoint apply_rules (c : collaborators) (fuel : nat) (node : value)
  (rules : list (value * value)) : M (option value) :=
  match rules with
  | [] => ret None
  | (pattern, replacement) :: rest =>
      match matches c pattern node with
      | None => apply_rules c fuel node rest
      | Some placeholders =>
          result <- lift (fill c replacement placeholders) ;;
          if has_type node "FunctionDeclaration"
             && has_type result "FunctionDeclaration"
          then result <- disambiguate c fuel node result ;; ret (Some result)
          else ret (Some result)
      end
  end.

(** [enter]; [None] is no return value: the node stays in place. *)
Definition enter (c : collaborators) (fuel : nat) (node : value)
  : M (option value) :=
  is_sequence <- lift (is_sequence_statement node) ;;
  if is_sequence : bool
  then container <- lift (split_sequence node) ;; ret (Some container)
  else apply_rules c fuel node (table c).

(** The loop of [leave] over [node.body]; [splice(i, 1, ...)] followed by
    [i--] looks at index [i] again. *)
Fixpoint flatten (fuel : nat) (body : list value) (i : nat)
  : outcome (list value) :=
  match fuel with
  | O => Timeout
  | S fuel' =>
      match body !! i with
      | None => Done body
      | Some VNull => Throw TypeError
      | Some statement =>
          if has_type statement "Program" then
            match get statement "body" with
            | VArr inner =>
                flatten fuel' (take i body ++ inner ++ drop (S i) body) i
            | _ => Throw TypeError
            end
          else flatten fuel' body (S i)
      end
  end.

(** [leave]; a body that is neither missing nor an array has no length
    for the loop to run over.  The loop gets a budget it cannot use up. *)
Definition leave (node parent : value) : outcome value :=
  let node :=
    if has_type node "Program" && negb (has_type parent "BlockStatement")
       && negb (has_type parent "Program")
    then set node "type" (VStr "BlockStatement")
    else node in
  if has_type node "BlockStatement" || has_type node "Program" then
    match get node "body" with
    | VArr body =>
        match flatten (S (weight (VArr body))) body 0 with
        | Done body' => Done (set node "body" (VArr body'))
        | Throw e => Throw e
        | Timeout => Timeout
        end
    | VNull => Throw TypeError
    | _ => Done node
    end
  else Done node.

(** [estraverse.replace]: children are the nodes found under the kind's
    visitor keys; whatever is not a node stays as it is. *)
Definition visit_child (visit : value → M value) (child : value) : M value :=
  if is_node child then visit child else ret child.

Fixpoint visit_keys (visit : value → M value) (node : value) (keys : list string)
  : M value :=
  match keys with
  | [] => ret node
  | key :: rest =>
      node' <- match get node key with
               | VArr items =>
                   items' <- mapM (visit_child visit) items ;;
                   ret (set node key (VArr items'))
               | candidate =>
                   if is_node candidate
                   then target <- visit candidate ;; ret (set node key target)
                   else ret node
               end ;;
      visit_keys visit node' rest
  end.

(** One element of the traversal: [enter], the children of what [enter]
    left in place, then [leave].  The parent handed to the hooks of the
    root is the root itself.  [leave] reads only the kind of the parent,
    which the visits of the children do not change, so the children get
    the parent as [enter] left it.  [fuel] bounds the depth of the
    traversal and the turns of the search for a free name. *)
Fixpoint replace (c : collaborators) (fuel : nat) (parent : option value)
  (node : value) : M value :=
  match fuel with
  | O => Timeout
  | S fuel' =>
      target <- enter c fuel' node ;;
      let node := default node target in
      match type_of node ≫= VisitorKeys c with
      | None => Throw UnknownNodeType
      | Some candidates =>
          node' <- visit_keys (replace c fuel' (Some node)) node candidates ;;
          lift (leave node' (default node' parent))
      end
  end.

(** [rewriteCode(ast)]: the tree as the traversal leaves it, with the
    renamings requested. *)
Definition rewriteCode (c : collaborators) (fuel : nat) (ast : value) : M value :=
  replace c fuel None ast.

Fixpoint assoc {A} (k : string) (l : list (string * A)) : option A :=
  match l with
  | [] => None
  | (k', a) :: rest => if String.eqb k k' then Some a else assoc k rest
  end.

(** The traversal library's visitor keys. *)
Definition estraverse_keys (t : string) : option (list string) :=
  assoc t
    [("AssignmentExpression", ["left"; "right"]);
     ("ArrayExpression", ["elements"]);
     ("ArrowFunctionExpression", ["params"; "body"]);
     ("BlockStatement", ["body"]);
     ("BinaryExpression", ["left"; "right"]);
     ("BreakStatement", ["label"]);
     ("CallExpression", ["callee"; "arguments"]);
     ("CatchClause", ["param"; "body"]);
     ("ConditionalExpression", ["test"; "consequent"; "alternate"]);
     ("ContinueStatement", ["label"]);
     ("DebuggerStatement", []);
     ("DoWhileStatement", ["body"; "test"]);
     ("EmptyStatement", []);
     ("ExpressionStatement", ["expression"]);
     ("ForStatement", ["init"; "test"; "update"; "body"]);
     ("ForInStatement", ["left"; "right"; "body"]);
     ("ForOfStatement", ["left"; "right"; "body"]);
     ("FunctionDeclaration", ["id"; "params"; "body"]);
     ("FunctionExpression", ["id"; "params"; "body"]);
     ("Identifier", []);
     ("IfStatement", ["test"; "consequent"; "alternate"]);
     ("LabeledStatement", ["label"; "body"]);
     ("Literal", []);
     ("LogicalExpression", ["left"; "right"]);
     ("MemberExpression", ["object"; "property"]);
     ("NewExpression", ["callee"; "arguments"]);
     ("ObjectExpression", ["properties"]);
     ("Program", ["body"]);
     ("Property", ["key"; "value"]);
     ("ReturnStatement", ["argument"]);
     ("SequenceExpression", ["expressions"]);
     ("SwitchStatement", ["discriminant"; "cases"]);
     ("SwitchCase", ["test"; "consequent"]);
     ("ThisExpression", []);
     ("ThrowStatement", ["argument"]);
     ("TryStatement", ["block"; "handler"; "finalizer"]);
     ("UnaryExpression", ["argument"]);
     ("UpdateExpression", ["argument"]);
     ("VariableDeclaration", ["declarations"]);
     ("VariableDeclarator", ["id"; "init"]);
     ("WhileStatement", ["test"; "body"]);
     ("WithStatement", ["object"; "body"])].

(** The driver as it ships, for a given scope analysis. *)
Definition shipped (scopes : value → option (gset string)) : collaborators :=
  {| VisitorKeys := estraverse_keys;
     matches := patterns.matches;
     fill := patterns.fill;
     table := rewritePatterns;
     scopeManager := scopes |}.

End rewriteCode.

(* --------------------------------------------------------------------- *)
(** ** Vocabulary of the statements about the pattern engine              *)
(* --------------------------------------------------------------------- *)

Module pattern_spec.

Import patterns.

(** The key a pattern node stands for, when it is a placeholder. *)
Definition placeholder_key (p : value) : option string :=
  if has_type p "GenericPlaceholder" then Some (key_of "placeholder" p)
  else if has_type p "StatementPlaceholder" then Some (key_of "statement" p)
  else if has_type p "ExpressionPlaceholder" then Some (key_of "expression" p)
  else None.

(** The loops of [fill] and [match_into] over the properties of an object
    and the elements of an array, under names of their own. *)
Definition fill_fields (env : gmap string value)
  : list (string * value) → outcome (list (string * value)) :=
  fix fields (fs : list (string * value)) : outcome (list (string * value)) :=
    match fs with
    | [] => Done []
    | (k, t) :: rest =>
        match fill t env with
        | Done v =>
            match fields rest with
            | Done vs => Done ((k, v) :: vs)
            | Throw e => Throw e
            | Timeout => Timeout
            end
        | Throw e => Throw e
        | Timeout => Timeout
        end
    end.

Definition fill_items (env : gmap string value)
  : list value → outcome (list value) :=
  fix items (ts : list value) : outcome (list value) :=
    match ts with
    | [] => Done []
    | t :: rest =>
        match fill t env with
        | Done v =>
            match items rest with
            | Done vs => Done (v :: vs)
            | Throw e => Throw e
            | Timeout => Timeout
            end
        | Throw e => Throw e
        | Timeout => Timeout
        end
    end.

Definition match_fields (node : value)
  : list (string * value) → gmap string value → option (gmap string value) :=
  fix fields (pfs : list (string * value)) (env : gmap string value)
    : option (gmap string value) :=
    match pfs with
    | [] => Some env
    | (k, p) :: rest =>
        match match_into p (get node k) env with
        | Some env' => fields rest env'
        | None => None
        end
    end.

Definition match_items
  : list value → list value → gmap string value → option (gmap string value) :=
  fix items (ps ns : list value) (env : gmap string value)
    : option (gmap string value) :=
    match ps, ns with
    | [], [] => Some env
    | p :: ps', n :: ns' =>
        match match_into p n env with
        | Some env' => items ps' ns' env'
        | None => None
        end
    | _, _ => None
    end.

(** [references template key]: a placeholder with that key occurs in the
    template. *)
Inductive references : value → string → Prop :=
| ref_here p key :
    placeholder_key p = Some key → references p key
| ref_field fs k t key :
    placeholder_key (VObj fs) = None → In (k, t) fs → references t key →
    references (VObj fs) key
| ref_item ts t key :
    In t ts → references t key → references (VArr ts) key.

(** What a placeholder binds at a node: the name for a generic
    placeholder, the node itself otherwise. *)
Definition bound_part (p node : value) : value :=
  if has_type p "GenericPlaceholder" then get node "name" else node.

(** [occurrence pattern node key v]: a placeholder with that key occurs in
    the pattern at a position where the node, followed along the same
    path, offers [v] for binding. *)
Inductive occurrence : value → value → string → value → Prop :=
| occ_here p node key :
    placeholder_key p = Some key → occurrence p node key (bound_part p node)
| occ_field pfs k p node key v :
    placeholder_key (VObj pfs) = None → In (k, p) pfs →
    occurrence p (get node k) key v → occurrence (VObj pfs) node key v
| occ_item ps ns i p n key v :
    ps !! i = Some p → ns !! i = Some n → occurrence p n key v →
    occurrence (VArr ps) (VArr ns) key v.

(** A template whose plain nodes carry their kind as a string and, where
    they are blocks or programs, their body as an array. *)
Fixpoint plain_template (t : value) : bool :=
  match t with
  | VArr ts => forallb plain_template ts
  | VObj fs =>
      match placeholder_key t with
      | Some _ => true
      | None =>
          match get t "type" with
          | VStr s =>
              if String.eqb s "BlockStatement" || String.eqb s "Program"
              then match get t "body" with VArr _ => true | _ => false end
              else true
          | VArr _ | VObj _ => false
          | _ => true
          end
          && forallb (λ kv, plain_template (snd kv)) fs
      end
  | _ => true
  end.

(** A pattern without placeholders. *)
Fixpoint ground (t : value) : bool :=
  match t with
  | VArr ts => forallb ground ts
  | VObj fs =>
      match placeholder_key t with
      | Some _ => false
      | None => forallb (λ kv, ground (snd kv)) fs
      end
  | _ => true
  end.

(** [agrees p node]: the node has every property the written-out pattern
    [p] has, with the same value. *)
Fixpoint agrees (p node : value) {struct p} : bool :=
  match p with
  | VObj pfs =>
      match node with
      | VObj _ => forallb (λ kv, agrees (snd kv) (get node (fst kv))) pfs
      | _ => false
      end
  | VArr ps =>
      match node with
      | VArr ns =>
          (fix items (ps ns : list value) : bool :=
             match ps, ns with
             | [], [] => true
             | p :: ps', n :: ns' => agrees p n && items ps' ns'
             | _, _ => false
             end) ps ns
      | _ => false
      end
  | _ => value_eqb p node
  end.

(** What [fill] can come back with: a tree, or the report of a key that
    the template references and the environment lacks. *)
Definition fill_result (env : gmap string value) (t : value) (o : outcome value)
  : Prop :=
  (∃ v, o = Done v) ∨
  (∃ k, o = Throw (MissingBinding k) ∧ references t k ∧ env !! k = None).

(** A match only ever adds bindings. *)
Definition grows (env env' : gmap string value) : Prop :=
  ∀ k b, env !! k = Some b → env' !! k = Some b.

End pattern_spec.

(* --------------------------------------------------------------------- *)
(** ** Trees and patterns of the test suite                               *)
(* --------------------------------------------------------------------- *)

Module test_data.

Import ast patterns.

Definition a_plus_b : value :=
  BinaryExpression "+" (Identifier "a") (Identifier "b").

(* function sum(a, b) { ... } *)
Definition sum_function (body : list value) : value :=
  FunctionDeclaration (Identifier "sum") [Identifier "a"; Identifier "b"]
    (BlockStatement body).

(* var result = a + b; *)
Definition var_result : value :=
  VariableDeclaration "var" [VariableDeclarator (Identifier "result") a_plus_b].

(* if (result) print(result); *)
Definition if_result_print : value :=
  IfStatement (Identifier "result")
    (ExpressionStatement (CallExpression (Identifier "print") [Identifier "result"]))
    VNull.

(* a = a + b; *)
Definition assign : value :=
  ExpressionStatement (AssignmentExpression "=" (Identifier "a") a_plus_b).

(* if (a) a = a + b; *)
Definition if_a_assign : value := IfStatement (Identifier "a") assign VNull.

(* function placeholder1(placeholder2,placeholder3){return (placeholder2+placeholder3)} *)
Definition generic_sum_pattern : value :=
  FunctionDeclaration (GenericPlaceholder 1) [GenericPlaceholder 2; GenericPlaceholder 3]
    (BlockStatement
       [ReturnStatement
          (BinaryExpression "+" (GenericPlaceholder 2) (GenericPlaceholder 3))]).

(* function sum(a,b){statement1;statement1;} *)
Definition twice_pattern : value :=
  sum_function [StatementPlaceholder 1 false; StatementPlaceholder 1 false].

(* if (expression1) a = 2; else if (expression2) a = 3; *)
Definition else_if_template : value :=
  IfStatement (ExpressionPlaceholder 1 false)
    (ExpressionStatement
       (AssignmentExpression "=" (Identifier "a") (Literal (VNum 2) "2")))
    (IfStatement (ExpressionPlaceholder 2 false)
       (ExpressionStatement
          (AssignmentExpression "=" (Identifier "a") (Literal (VNum 3) "3")))
       VNull).

(* print(...) *)
Definition print (arguments : list value) : value :=
  ExpressionStatement (CallExpression (Identifier "print") arguments).

(* y.prop[2] *)
Definition y_prop_2 : value :=
  VObj [("type", VStr "MemberExpression"); ("computed", VBool true);
        ("object", MemberExpression false (Identifier "y") (Identifier "prop"));
        ("property", Literal (VNum 2) "2")].

(* let a *)
Definition let_a : value :=
  VariableDeclaration "let" [VariableDeclarator (Identifier "a") VNull].

(* { expression1: b > 2 } *)
Definition else_if_env : gmap string value :=
  {[ "expression1" :=
       BinaryExpression ">" (Identifier "b") (Literal (VNum 2) "2") ]}.

End test_data.

(* --------------------------------------------------------------------- *)
(** ** Vocabulary of the statements about the driver                      *)
(* --------------------------------------------------------------------- *)

Module driver_spec.

Import rewriteCode.

(** The transient multi-statement container [enter] builds. *)
Definition container (statements : list value) : value :=
  VObj [("type", VStr "Program"); ("body", VArr statements)].

(** [refines o o']: with more steps allowed, [o] can only turn from
    unfinished into finished. *)
Definition refines {A} (o o' : outcome A) : Prop := o = Timeout ∨ o = o'.

(** The child nodes a property value holds. *)
Definition kids (v : value) : list value :=
  match v with
  | VArr items => List.filter is_node items
  | candidate => if is_node candidate then [candidate] else []
  end.

(** The children of a node, as the traversal finds them. *)
Definition children (c : collaborators) (node : value) : list value :=
  match type_of node ≫= VisitorKeys c with
  | Some keys => flat_map (λ key, kids (get node key)) keys
  | None => []
  end.

(** [below c node d]: [d] is a node strictly below [node]. *)
Inductive below (c : collaborators) : value → value → Prop :=
| below_child node d : In d (children c node) → below c node d
| below_step node m d : In m (children c node) → below c m d → below c node d.

Definition block_like (node : value) : bool :=
  has_type node "BlockStatement" || has_type node "Program".

(** Whether a container handed back to this parent may keep its kind: the
    parent then splices it; the root has no parent to answer to. *)
Definition keeps_container (parent : option value) : bool :=
  match parent with
  | Some p => block_like p
  | None => true
  end.

Definition is_array (v : value) : bool :=
  match v with
  | VArr _ => true
  | _ => false
  end.

(** Shape of a parsed tree: wherever a block or a program occurs, its body
    is an array. *)
Fixpoint blocks_hold_arrays (v : value) : bool :=
  match v with
  | VArr items => forallb blocks_hold_arrays items
  | VObj fs =>
      (if block_like v then is_array (get v "body") else true)
      && forallb (λ kv, blocks_hold_arrays (snd kv)) fs
  | _ => true
  end.

(** What a finished visit hands to the parent: a node of that shape with
    no container below it, itself a container only where the parent will
    splice it. *)
Definition settled (c : collaborators) (parent_block_like : bool) (r : value)
  : Prop :=
  blocks_hold_arrays r = true
  ∧ (∀ d, below c r d → has_type d "Program" = false)
  ∧ (has_type r "Program" = true → parent_block_like = true).

(** What the traversal needs of the pattern engine to keep that shape: a
    replacement filled from a match on a tree of that shape has it too. *)
Definition fills_keep_shape (c : collaborators) : Prop :=
  ∀ pattern replacement node env result,
    In (pattern, replacement) (table c) →
    blocks_hold_arrays node = true →
    matches c pattern node = Some env →
    fill c replacement env = Done result →
    blocks_hold_arrays result = true.

(** [expands body out]: [out] is [body] with every container replaced, in
    place and in order, by its own expanded statements. *)
Inductive expands : list value → list value → Prop :=
| expands_nil : expands [] []
| expands_keep s rest out :
    has_type s "Program" = false → expands rest out →
    expands (s :: rest) (s :: out)
| expands_splice s inner rest out :
    has_type s "Program" = true → get s "body" = VArr inner →
    expands (inner ++ rest) out → expands (s :: rest) out.

(** Both names the helper could take are bound in the enclosing scope. *)
Definition both_names_taken (node : value) : option (gset string) :=
  Some {[ "_interopRequireDefault"; "_interopRequireDefault1" ]}.

(* function name(obj) { return obj && obj.__esModule ? obj : { default: obj }; } *)
Definition interop_helper (name : string) : value :=
  ast.FunctionDeclaration (ast.Identifier name) [ast.Identifier "obj"]
    (ast.BlockStatement
       [ast.ReturnStatement
          (ast.ConditionalExpression
             (ast.LogicalExpression "&&" (ast.Identifier "obj")
                (ast.MemberExpression false (ast.Identifier "obj")
                   (ast.Identifier "__esModule")))
             (ast.Identifier "obj")
             (ast.ObjectExpression
                [ast.Property (ast.Identifier "default") (ast.Identifier "obj")]))]).

Definition two_helpers : value :=
  ast.Program [interop_helper "_interopRequireDefault";
               interop_helper "_interopRequireDefault1"].

(* !1, !0, false, true *)
Definition not_one : value := ast.UnaryExpression "!" (ast.Literal (VNum 1) "1").
Definition not_zero : value := ast.UnaryExpression "!" (ast.Literal (VNum 0) "0").
Definition literal_false : value := ast.Literal (VBool false) "false".
Definition literal_true : value := ast.Literal (VBool true) "true".

















(* if (c) a, b;   x, (y, z); *)
Definition nested_sequences : value :=
  ast.Program
    [ast.IfStatement (ast.Identifier "c")
       (ast.ExpressionStatement
          (ast.SequenceExpression [ast.Identifier "a"; ast.Identifier "b"]))
       VNull;
     ast.ExpressionStatement
       (ast.SequenceExpression
          [ast.Identifier "x";
           ast.SequenceExpression [ast.Identifier "y"; ast.Identifier "z"]])].

(* if (c) { a; b; }   x; y; z; *)
Definition nested_sequences_rewritten : value :=
  ast.Program
    [ast.IfStatement (ast.Identifier "c")
       (ast.BlockStatement
          [ast.ExpressionStatement (ast.Identifier "a");
           ast.ExpressionStatement (ast.Identifier "b")])
       VNull;
     ast.ExpressionStatement (ast.Identifier "x");
     ast.ExpressionStatement (ast.Identifier "y");
     ast.ExpressionStatement (ast.Identifier "z")].

(** No scope information: no function declaration is asked about. *)
Definition no_scopes (node : value) : option (gset string) := None.

(* a, b, c; *)
Definition a_b_c : value :=
  ast.ExpressionStatement
    (ast.SequenceExpression
       [ast.Identifier "a"; ast.Identifier "b"; ast.Identifier "c"]).

End driver_spec.

(* --------------------------------------------------------------------- *)
(** ** Vocabulary of the statements about the output helper              *)
(* --------------------------------------------------------------------- *)

Module io_spec.
Import io.

(** The base case of the recursion: [!dir || dir == "."]. *)
Definition is_base (dir : string) : bool :=
  String.eqb dir "" || String.eqb dir ".".

(** [on_the_way filepath dir]: [dir] is one of the directories the
    recursion goes through for [filepath]: its parent directory, the
    parent of that one, and so on, the base case left out. *)
Inductive on_the_way : string → string → Prop :=
| way_parent filepath :
    is_base (dirname filepath) = false →
    on_the_way filepath (dirname filepath)
| way_up filepath dir :
    is_base (dirname filepath) = false →
    on_the_way (dirname filepath) dir →
    on_the_way filepath dir.

(** Whether the path holds a separator at all. *)
Fixpoint has_separator (path : string) : bool :=
  match path with
  | EmptyString => false
  | String c rest => Ascii.eqb c "/" || has_separator rest
  end.

End io_spec.

(* --------------------------------------------------------------------- *)
(** ** lib/io.js: writing a script                                       *)
(* --------------------------------------------------------------------- *)

Module script.
Import io.

(** What [saveScript] gets from its imports: the code generator and the
    formatter, each with the options the call site fixes, and the
    platform's write of a file, which sees the directories that exist and
    changes the contents of the disk.  Each of them may throw. *)
Record imports (disk : Type) : Type := Imports {
  generate : value → outcome string;
  beautify : string → outcome string;
  writeFileSync : gset string → disk → string → string → outcome disk
}.
Arguments generate {disk} _ _.
Arguments beautify {disk} _ _.
Arguments writeFileSync {disk} _ _ _ _ _.

Definition and_then {A B} (o : outcome A) (k : A → outcome B) : outcome B :=
  match o with
  | Done a => k a
  | Throw e => Throw e
  | Timeout => Timeout
  end.

(** [saveScript(ast, filepath)]; the result is the directories that exist
    and the disk after the write. *)
Definition saveScript {disk} (p : imports disk) (fuel : nat) (fs : gset string)
  (contents : disk) (ast : value) (filepath : string)
  : outcome (gset string * disk) :=
  and_then (generate p ast) (λ code,
  and_then (beautify p code) (λ code,
  and_then (ensureParentDirExists fuel fs filepath) (λ fs,
  and_then (writeFileSync p fs contents filepath code) (λ contents,
  Done (fs, contents))))).

End script.

(* --------------------------------------------------------------------- *)
(** ** Vocabulary of the statements about the rule table                 *)
(* --------------------------------------------------------------------- *)

Module table_spec.
Import ast rewriteCode patterns pattern_spec.

(* void 0 *)
Definition void_zero : value := UnaryExpression "void" (Literal (VNum 0) "0").

(* function name(parameter)
   { return parameter && parameter.__esModule ? parameter : { default: parameter }; } *)
Definition helper (name parameter : string) : value :=
  FunctionDeclaration (Identifier name) [Identifier parameter]
    (BlockStatement
       [ReturnStatement
          (ConditionalExpression
             (LogicalExpression "&&" (Identifier parameter)
                (MemberExpression false (Identifier parameter)
                   (Identifier "__esModule")))
             (Identifier parameter)
             (ObjectExpression
                [Property (Identifier "default") (Identifier parameter)]))]).

(** The kinds of node the table has a pattern for, each with the kinds
    that take its place; the container put in place of a sequence
    statement is a program. *)
Definition replaced_kinds : list (string * list string) :=
  [("UnaryExpression", ["Literal"; "Identifier"]);
   ("ExpressionStatement", ["IfStatement"; "Program"]);
   ("IfStatement", ["IfStatement"]);
   ("WhileStatement", ["WhileStatement"]);
   ("DoWhileStatement", ["DoWhileStatement"]);
   ("ForStatement", ["ForStatement"]);
   ("ForInStatement", ["ForInStatement"]);
   ("ForOfStatement", ["ForOfStatement"]);
   ("FunctionDeclaration", ["FunctionDeclaration"])].

(** Whether a rule is written out at its root, with kinds of that list. *)
Definition rule_kinds_listed (rule : value * value) : bool :=
  match placeholder_key rule.1, placeholder_key rule.2,
        type_of rule.1, type_of rule.2 with
  | None, None, Some kind, Some new =>
      match assoc kind replaced_kinds with
      | Some kinds => existsb (String.eqb new) kinds
      | None => false
      end
  | _, _, _, _ => false
  end.

(** The keys of the placeholders of a pattern, in order of occurrence. *)
Fixpoint placeholders (t : value) : list string :=
  match t with
  | VArr ts => flat_map placeholders ts
  | VObj fs =>
      match placeholder_key t with
      | Some key => [key]
      | None => flat_map (λ kv, placeholders (snd kv)) fs
      end
  | _ => []
  end.



End table_spec.

(* --------------------------------------------------------------------- *)
(** ** Vocabulary of the statements about whole trees                    *)
(* --------------------------------------------------------------------- *)

Module rewrite_spec.
Import rewriteCode driver_spec.



(** [at_rest c n]: a node the driver finds nothing to do at.  It is not a
    sequence statement, no rule matches it, the traversal knows its kind,
    and where it is a block or a program its body is an array that holds
    neither a missing statement nor a container. *)
Definition at_rest (c : collaborators) (n : value) : Prop :=
  is_sequence_statement n = Done false
  ∧ Forall (λ rule, matches c rule.1 n = None) (table c)
  ∧ is_Some (type_of n ≫= VisitorKeys c)
  ∧ (block_like n = true →
     ∃ body, get n "body" = VArr body
             ∧ Forall (λ s, s ≠ VNull ∧ has_type s "Program" = false) body).

(** [quiet c root]: every node of the tree is at rest, and none below the
    root is a container. *)
Definition quiet (c : collaborators) (root : value) : Prop :=
  at_rest c root
  ∧ ∀ n, below c root n → at_rest c n ∧ has_type n "Program" = false.

End rewrite_spec.

(* --------------------------------------------------------------------- *)
(** ** What the first rules of the table leave behind                    *)
(* --------------------------------------------------------------------- *)

Module normal_spec.
Import ast rewriteCode patterns.







End normal_spec.

(* ===================================================================== *)
(** * Part II: theorems                                                   *)
(* ===================================================================== *)

(* --------------------------------------------------------------------- *)
(** ** Values                                                             *)
(* --------------------------------------------------------------------- *)

Section value_induction.
Variable P : value → Prop.
Hypothesis HNull : P VNull.
Hypothesis HBool : ∀ b, P (VBool b).
Hypothesis HNum : ∀ z, P (VNum z).
Hypothesis HStr : ∀ s, P (VStr s).
Hypothesis HArr : ∀ items, Forall P items → P (VArr items).
Hypothesis HObj : ∀ fs, Forall (λ kv, P (snd kv)) fs → P (VObj fs).

Fixpoint value_rect' (v : value) : P v :=
  match v with
  | VNull => HNull
  | VBool b => HBool b
  | VNum z => HNum z
  | VStr s => HStr s
  | VArr items =>
      HArr items
        ((fix go (l : list value) : Forall P l :=
            match l with
            | [] => List.Forall_nil _
            | x :: xs => List.Forall_cons _ _ _ (value_rect' x) (go xs)
            end) items)
  | VObj fs =>
      HObj fs
        ((fix go (l : list (string * value)) : Forall (λ kv, P (snd kv)) l :=
            match l with
            | [] => List.Forall_nil _
            | kv :: xs => List.Forall_cons _ _ _ (value_rect' (snd kv)) (go xs)
            end) fs)
  end.
End value_induction.

Lemma value_eqb_eq a b : value_eqb a b = true ↔ a = b.
Proof.
  revert b. induction a as [| | | |items IH|fs IH] using value_rect';
    intros [| | | |items'|fs']; simpl; try (split; congruence).
  - rewrite Bool.eqb_true_iff. split; congruence.
  - rewrite Z.eqb_eq. split; congruence.
  - rewrite String.eqb_eq. split; congruence.
  - revert items'. induction IH as [|x xs Hx _ IHxs]; intros [|y ys];
      try (split; congruence).
    rewrite andb_true_iff, Hx, IHxs. split; [intros [-> [= ->]]|intros [= -> ->]]; auto.
  - revert fs'. induction IH as [|[k x] xs Hx _ IHxs]; intros [|[k' y] ys];
      try (split; congruence).
    rewrite !andb_true_iff, String.eqb_eq. simpl in Hx. rewrite Hx, IHxs.
    split; [intros [[-> ->] [= ->]]|intros [= -> -> ->]]; auto.
Qed.

(* --------------------------------------------------------------------- *)
(** ** lib/io.js: the parent directory chain                              *)
(* --------------------------------------------------------------------- *)

Module io_facts.
Import io.

Lemma dirname_scan_range path i b e :
  dirname_scan path i b = Some e → (1 ≤ e ≤ i)%nat.
Proof.
  revert b. induction i as [|i IH]; intros b; simpl; [discriminate|].
  destruct (is_slash (String.get (S i) path)).
  - destruct b.
    + intros H. apply IH in H. lia.
    + intros [= <-]. lia.
  - intros H. apply IH in H. lia.
Qed.

Lemma hasRoot_substring path e :
  hasRoot path = true → (1 ≤ e)%nat → hasRoot (String.substring 0 e path) = true.
Proof.
  destruct path as [|c s]; [discriminate|].
  destruct e as [|e]; [lia|]. intros H _. exact H.
Qed.

Lemma hasRoot_dirname path : hasRoot path = true → hasRoot (dirname path) = true.
Proof.
  intros H. unfold dirname.
  destruct (Nat.eqb (String.length path) 0) eqn:Hlen.
  { destruct path; [discriminate H | discriminate Hlen]. }
  destruct (dirname_scan path (String.length path - 1) true) as [e|] eqn:Hscan.
  - rewrite H. simpl. destruct (Nat.eqb e 1); [reflexivity|].
    apply hasRoot_substring; [exact H|].
    apply dirname_scan_range in Hscan. lia.
  - rewrite H. reflexivity.
Qed.

Lemma hasRoot_not_base dir :
  hasRoot dir = true → String.eqb dir "" || String.eqb dir "." = false.
Proof.
  destruct dir as [|c s]; [discriminate|].
  unfold hasRoot. simpl. intros H. apply Ascii.eqb_eq in H. subst c.
  destruct s; reflexivity.
Qed.

(** C10: for a path that starts at the file system root the recursion of
    [ensureParentDirExists] never reaches its base case: whatever depth is
    allowed, the call has not returned. *)
Theorem absolute_path_never_returns fuel fs filepath :
  hasRoot filepath = true → ensureParentDirExists fuel fs filepath = Timeout.
Proof.
  revert filepath. induction fuel as [|fuel IH]; intros filepath H; [reflexivity|].
  simpl. apply hasRoot_dirname in H.
  rewrite (hasRoot_not_base _ H), (IH _ H). reflexivity.
Qed.

Lemma absolute_path_never_returns_witness :
  hasRoot "/out/script.js" = true ∧
  ensureParentDirExists 1000 ∅ "/out/script.js" = Timeout.
Proof. split; [reflexivity | apply absolute_path_never_returns; reflexivity]. Defined.

Example relative_path_creates_parents :
  ensureParentDirExists 3 ∅ "out/js/a.js" = Done ({["out/js"]} ∪ ({["out"]} ∪ ∅)).
Proof. reflexivity. Qed.

End io_facts.

(* --------------------------------------------------------------------- *)
(** ** The pattern engine: filling                                        *)
(* --------------------------------------------------------------------- *)

Module pattern_facts.
Import ast patterns pattern_spec test_data.

Lemma has_type_object o t : has_type o t = true → ∃ fs, o = VObj fs.
Proof. destruct o; try discriminate. eauto. Qed.

Lemma placeholder_key_object p key :
  placeholder_key p = Some key → ∃ fs, p = VObj fs.
Proof.
  unfold placeholder_key.
  destruct (has_type p "GenericPlaceholder") eqn:E1; [eauto using has_type_object|].
  destruct (has_type p "StatementPlaceholder") eqn:E2; [eauto using has_type_object|].
  destruct (has_type p "ExpressionPlaceholder") eqn:E3; [eauto using has_type_object|].
  discriminate.
Qed.

Lemma fill_object fs env :
  fill (VObj fs) env =
    if has_type (VObj fs) "GenericPlaceholder" then
      match env !! key_of "placeholder" (VObj fs) with
      | Some name => Done (VObj [("type", VStr "Identifier"); ("name", name)])
      | None => Throw (MissingBinding (key_of "placeholder" (VObj fs)))
      end
    else if has_type (VObj fs) "StatementPlaceholder" then
      match env !! key_of "statement" (VObj fs) with
      | Some v => Done v
      | None => Throw (MissingBinding (key_of "statement" (VObj fs)))
      end
    else if has_type (VObj fs) "ExpressionPlaceholder" then
      match env !! key_of "expression" (VObj fs) with
      | Some v => Done v
      | None => Throw (MissingBinding (key_of "expression" (VObj fs)))
      end
    else
      match fill_fields env fs with
      | Done fs' => Done (VObj fs')
      | Throw e => Throw e
      | Timeout => Timeout
      end.
Proof. reflexivity. Qed.

Lemma fill_array ts env :
  fill (VArr ts) env =
    match fill_items env ts with
    | Done vs => Done (VArr vs)
    | Throw e => Throw e
    | Timeout => Timeout
    end.
Proof. reflexivity. Qed.

Lemma fill_placeholder_missing p env key :
  placeholder_key p = Some key → env !! key = None →
  fill p env = Throw (MissingBinding key).
Proof.
  intros Hk Hnone. destruct (placeholder_key_object _ _ Hk) as [fs ->].
  rewrite fill_object. unfold placeholder_key in Hk.
  destruct (has_type (VObj fs) "GenericPlaceholder").
  { injection Hk as <-. by rewrite Hnone. }
  destruct (has_type (VObj fs) "StatementPlaceholder").
  { injection Hk as <-. by rewrite Hnone. }
  destruct (has_type (VObj fs) "ExpressionPlaceholder"); [|discriminate].
  injection Hk as <-. by rewrite Hnone.
Qed.

Lemma fill_outcome env t : fill_result env t (fill t env).
Proof.
  induction t as [| | | |ts IH|fs IH] using value_rect';
    try (left; eexists; reflexivity).
  - rewrite fill_array.
    assert ((∃ vs, fill_items env ts = Done vs) ∨
            (∃ k, fill_items env ts = Throw (MissingBinding k) ∧
                  references (VArr ts) k ∧ env !! k = None)) as [[vs ->]|(k & -> & ? & ?)].
    { induction IH as [|t ts Ht _ IHts]; [left; by eexists|]. simpl.
      destruct Ht as [[v ->]|(k & -> & Hr & Hn)].
      - destruct IHts as [[vs ->]|(k & -> & Hr & Hn)]; [left; by eexists|].
        right. exists k. split; [done|]. split; [|done].
        inversion Hr; subst.
        + apply placeholder_key_object in H as [? ?]. discriminate.
        + eapply ref_item; [right|]; eassumption.
      - right. exists k. split; [done|]. split; [|done].
        eapply ref_item; [left; reflexivity|done]. }
    + left. by eexists.
    + right. by exists k.
  - rewrite fill_object.
    destruct (has_type (VObj fs) "GenericPlaceholder") eqn:E1.
    { destruct (env !! _) eqn:E; [left; by eexists|].
      right. eexists. split; [done|]. split; [|done].
      apply ref_here. unfold placeholder_key. by rewrite E1. }
    destruct (has_type (VObj fs) "StatementPlaceholder") eqn:E2.
    { destruct (env !! _) eqn:E; [left; by eexists|].
      right. eexists. split; [done|]. split; [|done].
      apply ref_here. unfold placeholder_key. by rewrite E1, E2. }
    destruct (has_type (VObj fs) "ExpressionPlaceholder") eqn:E3.
    { destruct (env !! _) eqn:E; [left; by eexists|].
      right. eexists. split; [done|]. split; [|done].
      apply ref_here. unfold placeholder_key. by rewrite E1, E2, E3. }
    assert (placeholder_key (VObj fs) = None) as Hnp.
    { unfold placeholder_key. by rewrite E1, E2, E3. }
    assert ((∃ vs, fill_fields env fs = Done vs) ∨
            (∃ k, fill_fields env fs = Throw (MissingBinding k) ∧
                  (∃ f t, In (f, t) fs ∧ references t k) ∧ env !! k = None))
      as [[vs ->]|(k & -> & (f & t & Hin & Hr) & ?)].
    { clear E1 E2 E3 Hnp.
      induction IH as [|[f t] fs Ht _ IHfs]; [left; by eexists|]. simpl in *.
      destruct Ht as [[v ->]|(k & -> & Hr & Hn)].
      - destruct IHfs as [[vs ->]|(k & -> & (f' & t' & Hin & Hr) & Hn)];
          [left; by eexists|].
        right. exists k. split; [done|]. split; [|done]. exists f', t'. auto.
      - right. exists k. split; [done|]. split; [|done]. exists f, t. auto. }
    + left. by eexists.
    + right. exists k. split; [done|]. split; [|done]. by eapply ref_field.
Qed.

Lemma fill_fields_throws env fs k t key :
  In (k, t) fs → fill t env = Throw (MissingBinding key) → env !! key = None →
  references t key →
  ∃ missing field t', fill_fields env fs = Throw (MissingBinding missing) ∧
    In (field, t') fs ∧ references t' missing ∧ env !! missing = None.
Proof.
  intros Hin Ht Hn Hr. induction fs as [|[k0 t0] fs IH]; [destruct Hin|]. simpl.
  destruct Hin as [[= -> ->]|Hin].
  - rewrite Ht. exists key, k, t. auto.
  - destruct (fill_outcome env t0) as [[v ->]|(k' & -> & Hr' & Hn')].
    + destruct (IH Hin) as (m & f & t' & -> & ? & ? & ?). exists m, f, t'. auto.
    + exists k', k0, t0. auto.
Qed.

Lemma fill_items_throws env ts t key :
  In t ts → fill t env = Throw (MissingBinding key) → env !! key = None →
  references t key →
  ∃ missing t', fill_items env ts = Throw (MissingBinding missing) ∧
    In t' ts ∧ references t' missing ∧ env !! missing = None.
Proof.
  intros Hin Ht Hn Hr. induction ts as [|t0 ts IH]; [destruct Hin|]. simpl.
  destruct Hin as [->|Hin].
  - rewrite Ht. exists key, t. auto.
  - destruct (fill_outcome env t0) as [[v ->]|(k' & -> & Hr' & Hn')].
    + destruct (IH Hin) as (m & t' & -> & ? & ? & ?). exists m, t'. auto.
    + exists k', t0. auto.
Qed.

(** C7: whenever the template references a placeholder key that the
    environment does not bind, [fill] throws a missing-binding error, and
    the key it reports is one the template references and the environment
    lacks; whatever else the environment supplies makes no difference, and
    no tree is returned. *)
Theorem fill_throws_on_missing_placeholder template env key :
  references template key → env !! key = None →
  ∃ missing, fill template env = Throw (MissingBinding missing)
             ∧ references template missing ∧ env !! missing = None.
Proof.
  intros Hr Hn. induction Hr as [p key Hk|fs k t key Hnp Hin Hr IH|ts t key Hin Hr IH].
  - exists key. split; [by apply fill_placeholder_missing|]. split; [by apply ref_here|done].
  - destruct (IH Hn) as (m & Hm & Hrm & Hnm).
    destruct (fill_fields_throws env fs k t m Hin Hm Hnm Hrm)
      as (m' & f & t' & Hf & Hin' & Hr' & Hn').
    exists m'. split; [|split; [by eapply ref_field|done]].
    rewrite fill_object. unfold placeholder_key in Hnp.
    destruct (has_type (VObj fs) "GenericPlaceholder"); [discriminate|].
    destruct (has_type (VObj fs) "StatementPlaceholder"); [discriminate|].
    destruct (has_type (VObj fs) "ExpressionPlaceholder"); [discriminate|].
    by rewrite Hf.
  - destruct (IH Hn) as (m & Hm & Hrm & Hnm).
    destruct (fill_items_throws env ts t m Hin Hm Hnm Hrm) as (m' & t' & Hf & Hin' & Hr' & Hn').
    exists m'. rewrite fill_array, Hf. split; [done|]. split; [|done].
    by eapply ref_item.
Qed.

Lemma else_if_references : references else_if_template "expression2".
Proof.
  eapply ref_field; [reflexivity| |].
  { right; right; right; left; reflexivity. }
  eapply ref_field; [reflexivity| |].
  { right; left; reflexivity. }
  apply ref_here. reflexivity.
Qed.

Lemma fill_throws_on_missing_placeholder_witness :
  references else_if_template "expression2" ∧
  else_if_env !! "expression2" = None ∧
  ∃ missing, fill else_if_template else_if_env = Throw (MissingBinding missing)
             ∧ references else_if_template missing
             ∧ else_if_env !! missing = None.
Proof.
  split; [exact else_if_references|]. split; [reflexivity|].
  apply (fill_throws_on_missing_placeholder _ _ "expression2");
    [exact else_if_references | reflexivity].
Defined.

(** The test suite's other cases of [fill]. *)
Example fill_without_placeholders :
  fill (sum_function [ReturnStatement a_plus_b]) ∅
  = Done (sum_function [ReturnStatement a_plus_b]).
Proof. vm_compute. reflexivity. Qed.

Example fill_missing_generic_throws :
  fill generic_sum_pattern
    (<["placeholder3" := VStr "b"]> {["placeholder2" := VStr "a"]})
  = Throw (MissingBinding "placeholder1").
Proof. vm_compute. reflexivity. Qed.

Example fill_missing_statement_throws :
  fill (FunctionDeclaration (Identifier "test") []
          (BlockStatement [StatementPlaceholder 1 false; StatementPlaceholder 2 false]))
    {["statement2" := ExpressionStatement
                        (AssignmentExpression "=" (Identifier "b")
                           (Literal (VNum 12) "12"))]}
  = Throw (MissingBinding "statement1").
Proof. vm_compute. reflexivity. Qed.

Example fill_else_if_throws :
  fill else_if_template
    {[ "expression1" := BinaryExpression ">" (Identifier "b") (Literal (VNum 2) "2") ]}
  = Throw (MissingBinding "expression2").
Proof. vm_compute. reflexivity. Qed.

End pattern_facts.

(* --------------------------------------------------------------------- *)
(** ** The pattern engine: matching                                       *)
(* --------------------------------------------------------------------- *)

Module matcher_facts.
Import ast patterns pattern_spec test_data pattern_facts.

Lemma match_into_object pfs node env :
  match_into (VObj pfs) node env =
    if has_type (VObj pfs) "GenericPlaceholder" then
      if has_type node "Identifier"
      then bind (key_of "placeholder" (VObj pfs)) (get node "name") env
      else None
    else if has_type (VObj pfs) "StatementPlaceholder" then
      if is_statement node
         && implb (flag (VObj pfs) "expectMultiLine") (is_multiLine node)
      then bind (key_of "statement" (VObj pfs)) node env
      else None
    else if has_type (VObj pfs) "ExpressionPlaceholder" then
      if is_expression node
         || (flag (VObj pfs) "allowDeclarations" && is_declaration node)
      then bind (key_of "expression" (VObj pfs)) node env
      else None
    else
      match node with
      | VObj _ => match_fields node pfs env
      | _ => None
      end.
Proof. reflexivity. Qed.

Lemma match_into_array ps node env :
  match_into (VArr ps) node env =
    match node with
    | VArr ns => match_items ps ns env
    | _ => None
    end.
Proof. reflexivity. Qed.

Lemma match_into_scalar p node env :
  match p with VArr _ | VObj _ => False | _ => True end →
  match_into p node env = if value_eqb p node then Some env else None.
Proof. destruct p; intros []; reflexivity. Qed.

Lemma node_equal_refl v : node_equal v v = true.
Proof. unfold node_equal. by apply value_eqb_eq. Qed.

Lemma node_equal_strip a b : node_equal a b = true ↔ strip a = strip b.
Proof. apply value_eqb_eq. Qed.

Lemma bind_grows key v env env' k b :
  bind key v env = Some env' → env !! k = Some b → env' !! k = Some b.
Proof.
  unfold bind. destruct (env !! key) as [bound|] eqn:E.
  - destruct (node_equal bound v); [|discriminate]. by intros [= <-].
  - intros [= <-] Hk. rewrite lookup_insert_ne; [done|]. congruence.
Qed.

Lemma bind_binds key v env env' :
  bind key v env = Some env' →
  ∃ bound, env' !! key = Some bound ∧ node_equal bound v = true.
Proof.
  unfold bind. destruct (env !! key) as [bound|] eqn:E.
  - destruct (node_equal bound v) eqn:Heq; [|discriminate].
    intros [= <-]. eauto.
  - intros [= <-]. exists v. rewrite lookup_insert_eq. auto using node_equal_refl.
Qed.

Lemma match_into_grows p :
  ∀ node env env', match_into p node env = Some env' → grows env env'.
Proof.
  induction p as [| | | |ps IH|pfs IH] using value_rect'; intros node env env'.
  1-4: rewrite match_into_scalar by exact I;
       destruct (value_eqb _ node); [|discriminate];
       intros [= <-]; by intros ??.
  - rewrite match_into_array. destruct node as [| | | |ns|]; try discriminate.
    revert ns env. induction IH as [|p ps Hp _ IHps]; intros [|n ns] env;
      simpl; try discriminate.
    + intros [= <-]. by intros ??.
    + destruct (match_into p n env) as [env1|] eqn:E; [|discriminate].
      intros H k b Hk. eapply IHps; [exact H|]. eapply Hp; eauto.
  - rewrite match_into_object.
    destruct (has_type (VObj pfs) "GenericPlaceholder").
    { destruct (has_type node "Identifier"); [|discriminate].
      intros H k b. by eapply bind_grows. }
    destruct (has_type (VObj pfs) "StatementPlaceholder").
    { destruct (_ && _); [|discriminate]. intros H k b. by eapply bind_grows. }
    destruct (has_type (VObj pfs) "ExpressionPlaceholder").
    { destruct (_ || _); [|discriminate]. intros H k b. by eapply bind_grows. }
    destruct node as [| | | | |nfs]; try discriminate.
    revert env. induction IH as [|[f p] pfs Hp _ IHpfs]; intros env; simpl.
    + intros [= <-]. by intros ??.
    + destruct (match_into p _ env) as [env1|] eqn:E; [|discriminate].
      intros H k b Hk. eapply IHpfs; [exact H|]. eapply Hp; eauto.
Qed.

Lemma match_fields_grows node pfs env env' :
  match_fields node pfs env = Some env' → grows env env'.
Proof.
  revert env. induction pfs as [|[f q] pfs IH]; intros env; simpl.
  - intros [= <-]. by intros ??.
  - destruct (match_into q (get node f) env) as [env1|] eqn:E; [|discriminate].
    intros H k b Hk. eapply IH; [exact H|]. eapply match_into_grows; eauto.
Qed.

Lemma match_items_grows ps ns env env' :
  match_items ps ns env = Some env' → grows env env'.
Proof.
  revert ns env. induction ps as [|p ps IH]; intros [|n ns] env; simpl;
    try discriminate.
  - intros [= <-]. by intros ??.
  - destruct (match_into p n env) as [env1|] eqn:E; [|discriminate].
    intros H k b Hk. eapply IH; [exact H|]. eapply match_into_grows; eauto.
Qed.

Lemma match_fields_member node pfs k p env env' :
  match_fields node pfs env = Some env' → In (k, p) pfs →
  ∃ env1 env2, match_into p (get node k) env1 = Some env2 ∧ grows env2 env'.
Proof.
  revert env. induction pfs as [|[f q] pfs IH]; intros env H Hin; [destruct Hin|].
  simpl in H. destruct (match_into q (get node f) env) as [env1|] eqn:E;
    [|discriminate].
  destruct Hin as [[= -> ->]|Hin].
  - exists env, env1. eauto using match_fields_grows.
  - eapply IH; eauto.
Qed.

Lemma match_items_member ps ns i p n env env' :
  match_items ps ns env = Some env' → ps !! i = Some p → ns !! i = Some n →
  ∃ env1 env2, match_into p n env1 = Some env2 ∧ grows env2 env'.
Proof.
  revert ns i env. induction ps as [|q ps IH]; intros [|m ns] i env H Hp Hn;
    try discriminate.
  simpl in H. destruct (match_into q m env) as [env1|] eqn:E; [|discriminate].
  destruct i as [|i]; simpl in Hp, Hn.
  - injection Hp as ->. injection Hn as ->.
    exists env, env1. eauto using match_items_grows.
  - eapply IH; eauto.
Qed.

Lemma match_into_binds p node key v :
  occurrence p node key v →
  ∀ env env', match_into p node env = Some env' →
  ∃ bound, env' !! key = Some bound ∧ node_equal bound v = true.
Proof.
  induction 1 as [p node key Hk|pfs k p node key v Hnp Hin Hocc IH
                 |ps ns i p n key v Hp Hn Hocc IH]; intros env env' Hm.
  - destruct (placeholder_key_object _ _ Hk) as [fs ->].
    rewrite match_into_object in Hm. unfold placeholder_key in Hk.
    unfold bound_part.
    destruct (has_type (VObj fs) "GenericPlaceholder").
    { injection Hk as <-. destruct (has_type node "Identifier"); [|discriminate].
      by eapply bind_binds. }
    destruct (has_type (VObj fs) "StatementPlaceholder").
    { injection Hk as <-. destruct (_ && _); [|discriminate]. by eapply bind_binds. }
    destruct (has_type (VObj fs) "ExpressionPlaceholder"); [|discriminate].
    injection Hk as <-. destruct (_ || _); [|discriminate]. by eapply bind_binds.
  - rewrite match_into_object in Hm. unfold placeholder_key in Hnp.
    destruct (has_type (VObj pfs) "GenericPlaceholder"); [discriminate|].
    destruct (has_type (VObj pfs) "StatementPlaceholder"); [discriminate|].
    destruct (has_type (VObj pfs) "ExpressionPlaceholder"); [discriminate|].
    destruct node as [| | | | |nfs]; try discriminate.
    destruct (match_fields_member _ _ _ _ _ _ Hm Hin) as (env1 & env2 & H12 & Hg).
    destruct (IH _ _ H12) as (bound & Hb & Heq). eauto.
  - rewrite match_into_array in Hm.
    destruct (match_items_member _ _ _ _ _ _ _ Hm Hp Hn) as (env1 & env2 & H12 & Hg).
    destruct (IH _ _ H12) as (bound & Hb & Heq). eauto.
Qed.

Lemma occurrences_agree pattern node env key v1 v2 :
  matches pattern node = Some env →
  occurrence pattern node key v1 → occurrence pattern node key v2 →
  ∃ bound, env !! key = Some bound
           ∧ strip bound = strip v1 ∧ strip bound = strip v2.
Proof.
  intros Hm H1 H2.
  destruct (match_into_binds _ _ _ _ H1 _ _ Hm) as (b1 & Hb1 & He1).
  destruct (match_into_binds _ _ _ _ H2 _ _ Hm) as (b2 & Hb2 & He2).
  assert (b2 = b1) as -> by congruence.
  apply node_equal_strip in He1, He2. eauto.
Qed.

(** C9: when a pattern matches a node, any two occurrences of one
    placeholder key in the pattern stand against structurally equal parts
    of the node (position metadata aside), both equal to the value the
    environment holds under that key; for generic placeholders the two
    names are the same text. *)
Theorem repeated_placeholders_bind_equal_values pattern node env key v1 v2 :
  matches pattern node = Some env →
  occurrence pattern node key v1 → occurrence pattern node key v2 →
  node_equal v1 v2 = true
  ∧ (∃ bound, env !! key = Some bound
              ∧ node_equal bound v1 = true ∧ node_equal bound v2 = true)
  ∧ (∀ name1 name2, v1 = VStr name1 → v2 = VStr name2 → name1 = name2).
Proof.
  intros Hm H1 H2.
  destruct (occurrences_agree _ _ _ _ _ _ Hm H1 H2) as (bound & Hb & E1 & E2).
  assert (node_equal v1 v2 = true) as Heq by (apply node_equal_strip; congruence).
  split; [exact Heq|]. split.
  - exists bound. by rewrite !node_equal_strip.
  - intros name1 name2 -> ->. simpl in *. congruence.
Qed.

(** Any disagreement between two occurrences is a no-match. *)
Lemma inconsistent_placeholders_no_match pattern node key v1 v2 :
  occurrence pattern node key v1 → occurrence pattern node key v2 →
  node_equal v1 v2 = false → matches pattern node = None.
Proof.
  intros H1 H2 Hne. destruct (matches pattern node) as [env|] eqn:Hm; [|done].
  destruct (occurrences_agree _ _ _ _ _ _ Hm H1 H2) as (bound & _ & E1 & E2).
  assert (node_equal v1 v2 = true) by (apply node_equal_strip; congruence).
  congruence.
Qed.

Example accepts_generic_placeholders :
  matches generic_sum_pattern (sum_function [ReturnStatement a_plus_b])
  = Some (<["placeholder3" := VStr "b"]>
            (<["placeholder2" := VStr "a"]> {["placeholder1" := VStr "sum"]})).
Proof. vm_compute. reflexivity. Qed.

Example rejects_generic_placeholders_mixed_up :
  matches generic_sum_pattern
    (sum_function
       [ReturnStatement (BinaryExpression "+" (Identifier "b") (Identifier "a"))])
  = None.
Proof. vm_compute. reflexivity. Qed.

Example accepts_repeated_statement :
  matches twice_pattern (sum_function [var_result; var_result])
  = Some {["statement1" := var_result]}.
Proof. vm_compute. reflexivity. Qed.

Example rejects_statement_placeholders_mixed_up :
  matches twice_pattern (sum_function [var_result; if_result_print]) = None.
Proof. vm_compute. reflexivity. Qed.

(* for (expression1 in expression2) print(expression1); *)
Example accepts_expression_placeholders :
  matches (ForInStatement (ExpressionPlaceholder 1 false)
             (ExpressionPlaceholder 2 false) (print [ExpressionPlaceholder 1 false]))
    (ForInStatement (Identifier "x") y_prop_2 (print [Identifier "x"]))
  = Some (<["expression2" := y_prop_2]> {["expression1" := Identifier "x"]}).
Proof. vm_compute. reflexivity. Qed.

Example rejects_expression_placeholders_mixed_up :
  matches (ForInStatement (ExpressionPlaceholder 1 false)
             (ExpressionPlaceholder 2 false) (print [ExpressionPlaceholder 1 false]))
    (ForInStatement (Identifier "x") y_prop_2 (print [y_prop_2]))
  = None.
Proof. vm_compute. reflexivity. Qed.

(* for (expression1 of expression2) print()  against  for (let a of b) print(); *)
Example plain_expression_rejects_declaration :
  matches (ForOfStatement (ExpressionPlaceholder 1 false)
             (ExpressionPlaceholder 2 false) (print []))
    (ForOfStatement let_a (Identifier "b") (print []))
  = None.
Proof. vm_compute. reflexivity. Qed.

Example orDeclaration_accepts_declaration :
  matches (ForOfStatement (ExpressionPlaceholder 1 true)
             (ExpressionPlaceholder 2 false) (print []))
    (ForOfStatement let_a (Identifier "b") (print []))
  = Some (<["expression2" := Identifier "b"]> {["expression1" := let_a]}).
Proof. vm_compute. reflexivity. Qed.

Lemma twice_pattern_occurrence i s1 s2 s :
  [s1; s2] !! i = Some s →
  occurrence twice_pattern (sum_function [s1; s2]) "statement1" s.
Proof.
  intros Hi.
  eapply occ_field; [reflexivity| |].
  { right; right; right; left; reflexivity. }
  eapply occ_field; [reflexivity| |].
  { right; left; reflexivity. }
  assert (i < 2)%nat as Hlt by (apply lookup_lt_Some in Hi; simpl in Hi; lia).
  eapply (occ_item _ _ i (StatementPlaceholder 1 false)); [|exact Hi|].
  - destruct i as [|[|i]]; [reflexivity|reflexivity|lia].
  - apply (occ_here (StatementPlaceholder 1 false) s "statement1"). reflexivity.
Qed.

Lemma repeated_placeholders_bind_equal_values_witness :
  matches twice_pattern (sum_function [var_result; var_result])
    = Some {["statement1" := var_result]}
  ∧ node_equal var_result var_result = true.
Proof.
  split; [vm_compute; reflexivity|].
  apply (repeated_placeholders_bind_equal_values twice_pattern
           (sum_function [var_result; var_result])
           {["statement1" := var_result]} "statement1" var_result var_result).
  - vm_compute. reflexivity.
  - by apply (twice_pattern_occurrence 0).
  - by apply (twice_pattern_occurrence 1).
Defined.

End matcher_facts.

(* --------------------------------------------------------------------- *)
(** ** The pattern engine: statement placeholder modifiers                *)
(* --------------------------------------------------------------------- *)

Module modifier_facts.
Import ast patterns pattern_spec test_data pattern_facts matcher_facts.

Lemma statement_key i ml :
  key_of "statement" (StatementPlaceholder i ml) = "statement" +:+ string_of_nat i.
Proof. unfold key_of, index_of. simpl. by rewrite Nat2Z.id. Qed.

Lemma matches_statement_placeholder i ml node :
  matches (StatementPlaceholder i ml) node =
    if is_statement node && implb ml (is_multiLine node)
    then Some {[ "statement" +:+ string_of_nat i := node ]}
    else None.
Proof.
  unfold matches, StatementPlaceholder. rewrite match_into_object.
  change (has_type _ "GenericPlaceholder") with false.
  change (has_type _ "StatementPlaceholder") with true.
  change (flag _ "expectMultiLine") with ml. cbv iota.
  destruct (_ && _); [|done].
  unfold bind. rewrite lookup_empty.
  change (VObj _) with (StatementPlaceholder i ml). by rewrite statement_key.
Qed.

(** No kind is in both families. *)
Lemma families_disjoint node :
  kind_in atomic_kinds node = true → kind_in compound_kinds node = false.
Proof.
  unfold kind_in. destruct (type_of node) as [t|]; [|done]. simpl.
  rewrite !orb_true_iff, !String.eqb_eq.
  intros H. repeat (destruct H as [H|H]; [subst t; reflexivity|]). discriminate.
Qed.

(** C8: against a statement, a statement placeholder with the [.multiLine]
    modifier matches exactly when the statement's kind is in the compound
    family: every atomic statement is rejected, every compound one is
    accepted and bound under the placeholder's key; without the modifier
    the placeholder accepts the statement in either case. *)
Theorem multiLine_modifier_enforced i statement :
  is_statement statement = true →
  (is_Some (matches (StatementPlaceholder i true) statement)
     ↔ kind_in compound_kinds statement = true)
  ∧ (kind_in atomic_kinds statement = true →
     matches (StatementPlaceholder i true) statement = None)
  ∧ (kind_in compound_kinds statement = true →
     matches (StatementPlaceholder i true) statement
       = Some {[ "statement" +:+ string_of_nat i := statement ]})
  ∧ matches (StatementPlaceholder i false) statement
      = Some {[ "statement" +:+ string_of_nat i := statement ]}.
Proof.
  intros Hs. rewrite !matches_statement_placeholder, Hs. unfold is_multiLine. simpl.
  repeat split.
  - destruct (kind_in compound_kinds statement); [done|]. intros [? [=]].
  - intros ->. by eexists.
  - intros Ha. by rewrite (families_disjoint _ Ha).
  - by intros ->.
Qed.

Lemma multiLine_modifier_enforced_witness :
  is_statement if_a_assign = true
  ∧ matches (StatementPlaceholder 1 true) if_a_assign
      = Some {[ "statement1" := if_a_assign ]}
  ∧ matches (StatementPlaceholder 1 true) assign = None.
Proof.
  split; [reflexivity|]. split.
  - apply (multiLine_modifier_enforced 1 if_a_assign); reflexivity.
  - apply (multiLine_modifier_enforced 1 assign); reflexivity.
Defined.

(** The test suite's three cases: function sum(a,b){statement1;} and
    function sum(a,b){statement1.multiLine;} *)
Example plain_placeholder_accepts_assignment :
  matches (sum_function [StatementPlaceholder 1 false]) (sum_function [assign])
  = Some {[ "statement1" := assign ]}.
Proof. vm_compute. reflexivity. Qed.

Example multiLine_rejects_assignment :
  matches (sum_function [StatementPlaceholder 1 true]) (sum_function [assign]) = None.
Proof. vm_compute. reflexivity. Qed.

Example multiLine_accepts_conditional :
  matches (sum_function [StatementPlaceholder 1 true]) (sum_function [if_a_assign])
  = Some {[ "statement1" := if_a_assign ]}.
Proof. vm_compute. reflexivity. Qed.

End modifier_facts.

(* --------------------------------------------------------------------- *)
(** ** The driver: entering a node                                       *)
(* --------------------------------------------------------------------- *)

Module driver_facts.
Import ast patterns rewriteCode driver_spec.

Lemma bindM_Done {A B} (m : M A) (k : A → M B) b log :
  bindM m k = Done (b, log) →
  ∃ a l1 l2, m = Done (a, l1) ∧ k a = Done (b, l2) ∧ log = l1 ++ l2.
Proof.
  unfold bindM. destruct m as [[a l1]| |]; try discriminate.
  destruct (k a) as [[b' l2]| |] eqn:E; try discriminate.
  intros [= <- <-]. eauto 6.
Qed.

Lemma lift_Done {A} (o : outcome A) a log :
  lift o = Done (a, log) → o = Done a ∧ log = [].
Proof. destruct o; try discriminate. by intros [= <- <-]. Qed.

Lemma bindM_ret {A B} (a : A) (k : A → M B) : bindM (ret a) k = k a.
Proof. unfold bindM, ret. destruct (k a) as [[b l]| |]; reflexivity. Qed.

Lemma mapM_visit_child_nodes (visit : value → M value) items :
  Forall (λ x, is_node x = true) items →
  mapM (visit_child visit) items = mapM visit items.
Proof.
  induction 1 as [|x xs Hx _ IH]; [reflexivity|]. simpl.
  unfold visit_child at 1. by rewrite Hx, IH.
Qed.

Lemma replace_step c fuel parent node :
  replace c (S fuel) parent node =
    (target <- enter c fuel node ;;
     match type_of (default node target) ≫= VisitorKeys c with
     | None => Throw UnknownNodeType
     | Some candidates =>
         node' <- visit_keys (replace c fuel (Some (default node target)))
                    (default node target) candidates ;;
         lift (leave node' (default node' parent))
     end).
Proof. reflexivity. Qed.

Lemma visit_keys_step visit node key rest :
  visit_keys visit node (key :: rest) =
    (node' <- match get node key with
              | VArr items =>
                  items' <- mapM (visit_child visit) items ;;
                  ret (set node key (VArr items'))
              | candidate =>
                  if is_node candidate
                  then target <- visit candidate ;; ret (set node key target)
                  else ret node
              end ;;
     visit_keys visit node' rest).
Proof. reflexivity. Qed.

(** C3: an expression statement whose expression is a sequence of [n]
    expressions is replaced on entry, whatever the rule table holds, by a
    container of exactly [n] expression statements, one per element and in
    the order of the elements; the traversal then goes on through that
    container, visiting each of the new statements in turn (where [enter]
    and the rule table are applied to it) before [leave] sees the
    container. *)
Theorem sequence_statement_becomes_statements c fuel node expressions :
  has_type node "ExpressionStatement" = true →
  has_type (get node "expression") "SequenceExpression" = true →
  get (get node "expression") "expressions" = VArr expressions →
  enter c fuel node = ret (Some (container (map ExpressionStatement expressions)))
  ∧ length (map ExpressionStatement expressions) = length expressions
  ∧ (∀ i expression, expressions !! i = Some expression →
       map ExpressionStatement expressions !! i
         = Some (ExpressionStatement expression))
  ∧ (VisitorKeys c "Program" = Some ["body"] →
     ∀ parent,
       replace c (S fuel) parent node =
         (body <- mapM (replace c fuel
                          (Some (container (map ExpressionStatement expressions))))
                    (map ExpressionStatement expressions) ;;
          lift (leave (container body) (default (container body) parent)))).
Proof.
  intros Ht Hs He. set (statements := map ExpressionStatement expressions).
  assert (enter c fuel node = ret (Some (container statements))) as Henter.
  { unfold enter, is_sequence_statement, split_sequence. rewrite Ht, He.
    destruct (get node "expression") as [| | | | |fs] eqn:E; try discriminate.
    unfold member. unfold has_type in Hs.
    destruct (get (VObj fs) "type"); try discriminate. simpl. by rewrite Hs. }
  split; [exact Henter|]. split; [apply length_map|]. split.
  { intros i e Hi. unfold statements. by rewrite list_lookup_fmap, Hi. }
  intros Hkeys parent. simpl. rewrite Henter, bindM_ret. simpl.
  rewrite Hkeys. simpl.
  rewrite mapM_visit_child_nodes.
  2:{ unfold statements. apply List.Forall_forall. intros x Hx.
      apply in_map_iff in Hx as (e & <- & _). reflexivity. }
  destruct (mapM _ statements) as [[body l]| |]; try reflexivity.
  unfold bindM, ret, lift, container. simpl.
  destruct (leave _ _) as [r| |]; simpl; try reflexivity.
  by rewrite !app_nil_r.
Qed.

(* a, b, c; *)
Lemma sequence_statement_becomes_statements_witness :
  has_type a_b_c "ExpressionStatement" = true
  ∧ has_type (get a_b_c "expression") "SequenceExpression" = true
  ∧ enter (shipped no_scopes) 0 a_b_c
    = ret (Some (container [ExpressionStatement (Identifier "a");
                            ExpressionStatement (Identifier "b");
                            ExpressionStatement (Identifier "c")])).
Proof.
  split; [reflexivity|]. split; [reflexivity|].
  apply (sequence_statement_becomes_statements (shipped no_scopes) 0 a_b_c
           [Identifier "a"; Identifier "b"; Identifier "c"]); reflexivity.
Defined.

Example sequence_statement_end_to_end :
  rewriteCode (shipped no_scopes) 4 (Program [a_b_c])
  = ret (Program [ExpressionStatement (Identifier "a");
                  ExpressionStatement (Identifier "b");
                  ExpressionStatement (Identifier "c")]).
Proof. vm_compute. reflexivity. Qed.

Lemma apply_rules_no_match c fuel node rules :
  Forall (λ rule, matches c rule.1 node = None) rules →
  apply_rules c fuel node rules = ret None.
Proof.
  induction 1 as [|[p r] rules Hp _ IH]; [reflexivity|]. simpl in *. by rewrite Hp.
Qed.

Lemma apply_rules_first_match c fuel node before pattern replacement after placeholders :
  Forall (λ rule, matches c rule.1 node = None) before →
  matches c pattern node = Some placeholders →
  apply_rules c fuel node (before ++ (pattern, replacement) :: after) =
    (result <- lift (fill c replacement placeholders) ;;
     if has_type node "FunctionDeclaration" && has_type result "FunctionDeclaration"
     then result <- disambiguate c fuel node result ;; ret (Some result)
     else ret (Some result)).
Proof.
  intros Hbefore Hm. induction Hbefore as [|[p r] rules Hp _ IH]; simpl in *.
  - by rewrite Hm.
  - by rewrite Hp.
Qed.

(** C4: at a node that is not a sequence statement, [enter] goes through
    the table in order: when a rule matches and no rule before it does, the
    result is that rule's replacement filled with the bindings of the
    match (with the name of a function declaration settled as the driver
    does), whatever rules come after it; away from function declarations
    the node is replaced by exactly the filled replacement; and when no
    rule matches, [enter] returns nothing and the node stays. *)
Theorem first_matching_rule_wins c fuel node :
  is_sequence_statement node = Done false →
  (∀ before pattern replacement after placeholders,
     table c = before ++ (pattern, replacement) :: after →
     Forall (λ rule, matches c rule.1 node = None) before →
     matches c pattern node = Some placeholders →
     enter c fuel node =
       (result <- lift (fill c replacement placeholders) ;;
        if has_type node "FunctionDeclaration"
           && has_type result "FunctionDeclaration"
        then result <- disambiguate c fuel node result ;; ret (Some result)
        else ret (Some result))
     ∧ (has_type node "FunctionDeclaration" = false →
        ∀ result, fill c replacement placeholders = Done result →
        enter c fuel node = ret (Some result)))
  ∧ (Forall (λ rule, matches c rule.1 node = None) (table c) →
     enter c fuel node = ret None).
Proof.
  intros Hseq.
  assert (enter c fuel node = apply_rules c fuel node (table c)) as Henter.
  { unfold enter. rewrite Hseq. simpl. apply bindM_ret. }
  split.
  - intros before pattern replacement after placeholders Htable Hbefore Hm.
    rewrite Henter, Htable.
    rewrite (apply_rules_first_match _ _ _ _ _ _ _ _ Hbefore Hm).
    split; [reflexivity|]. intros Hnf result ->. by rewrite Hnf.
  - intros Hnone. rewrite Henter. by apply apply_rules_no_match.
Qed.

(* !0 *)
Lemma first_matching_rule_wins_witness :
  is_sequence_statement (UnaryExpression "!" (Literal (VNum 0) "0")) = Done false
  ∧ enter (shipped no_scopes) 0 (UnaryExpression "!" (Literal (VNum 0) "0"))
    = ret (Some (Literal (VBool true) "true")).
Proof.
  split; [reflexivity|].
  refine (proj2 (proj1 (first_matching_rule_wins (shipped no_scopes) 0
                          (UnaryExpression "!" (Literal (VNum 0) "0")) eq_refl)
                   (take 1 rewritePatterns)
                   (UnaryExpression "!" (Literal (VNum 0) "0"))
                   (Literal (VBool true) "true")
                   (drop 2 rewritePatterns) ∅ eq_refl _ _) eq_refl _ _).
  - repeat constructor.
  - vm_compute. reflexivity.
  - vm_compute. reflexivity.
Defined.

End driver_facts.

(* --------------------------------------------------------------------- *)
(** ** The driver: the search for a free name                            *)
(* --------------------------------------------------------------------- *)

Module name_search_facts.
Import ast patterns rewriteCode driver_spec driver_facts.

Lemma find_free_name_unused fuel scope name :
  name ∉ scope → find_free_name (S fuel) scope name 1 name = Done name.
Proof. intros H. simpl. by rewrite bool_decide_eq_false_2. Qed.

Lemma find_free_name_suffix_1 fuel scope name :
  name ∈ scope → name +:+ "1" ∉ scope →
  find_free_name (S (S fuel)) scope name 1 name = Done (name +:+ "1").
Proof.
  intros H H1. simpl. rewrite bool_decide_eq_true_2 by done.
  change (string_of_nat 1) with "1". by rewrite bool_decide_eq_false_2.
Qed.

(** The suffix never moves past 1. *)
Lemma find_free_name_stuck fuel scope name newName :
  newName ∈ scope → name +:+ "1" ∈ scope →
  find_free_name fuel scope name 1 newName = Timeout.
Proof.
  intros H H1. revert newName H.
  induction fuel as [|fuel IH]; intros newName H; [reflexivity|].
  simpl. rewrite bool_decide_eq_true_2 by done. by apply IH.
Qed.

Lemma enter_program_two_helpers fuel :
  enter (shipped both_names_taken) fuel two_helpers = ret None.
Proof. vm_compute. reflexivity. Qed.

Lemma disambiguate_hangs c fuel node result scope name :
  scopeManager c node = Some scope →
  get node "id" ≠ VNull → get result "id" ≠ VNull →
  get (get result "id") "name" = VStr name →
  name ∈ scope → name +:+ "1" ∈ scope →
  disambiguate c fuel node result = Timeout.
Proof.
  intros Hscope Hid Hrid Hname Hin Hin1. unfold disambiguate. rewrite Hscope.
  assert (∀ o k, o ≠ VNull → lift (member o k) = ret (get o k)) as Hmember.
  { intros o k Ho. destruct o; try reflexivity. by destruct Ho. }
  rewrite !Hmember by done. rewrite !bindM_ret, Hname.
  by rewrite (find_free_name_stuck _ _ _ _ Hin Hin1).
Qed.

Lemma table_ends_with_helper_rule :
  rewritePatterns =
    take 12 rewritePatterns ++
    [(FunctionDeclaration (GenericPlaceholder 1) [GenericPlaceholder 2]
        (BlockStatement
           [ReturnStatement
              (ConditionalExpression
                 (LogicalExpression "&&" (GenericPlaceholder 2)
                    (MemberExpression false (GenericPlaceholder 2)
                       (Identifier "__esModule")))
                 (GenericPlaceholder 2)
                 (ObjectExpression
                    [Property (Identifier "default") (GenericPlaceholder 2)]))]),
      interop_helper "_interopRequireDefault")].
Proof. reflexivity. Qed.

Lemma enter_helper_hangs fuel name :
  enter (shipped both_names_taken) fuel (interop_helper name) = Timeout.
Proof.
  assert (is_sequence_statement (interop_helper name) = Done false) as Hseq
    by reflexivity.
  unfold enter. rewrite Hseq. simpl lift. rewrite bindM_ret. cbv iota.
  change (table (shipped both_names_taken)) with rewritePatterns.
  rewrite table_ends_with_helper_rule.
  rewrite (apply_rules_first_match _ _ _ _ _ _ _
             (<["placeholder2" := VStr "obj"]> {["placeholder1" := VStr name]})).
  - change (fill (shipped both_names_taken)) with patterns.fill.
    replace (patterns.fill (interop_helper "_interopRequireDefault") _)
      with (Done (interop_helper "_interopRequireDefault"))
      by (vm_compute; reflexivity).
    simpl lift. rewrite bindM_ret.
    change (has_type (interop_helper name) "FunctionDeclaration") with true.
    change (has_type (interop_helper "_interopRequireDefault") "FunctionDeclaration")
      with true.
    cbv iota beta. simpl andb. cbv iota.
    rewrite (disambiguate_hangs _ _ _ _
               {[ "_interopRequireDefault"; "_interopRequireDefault1" ]}
               "_interopRequireDefault"); done.
  - repeat constructor.
  - vm_compute. reflexivity.
Qed.

(** C1: on a program whose scope binds both the helper's fixed name and
    that name followed by 1, the driver has not returned after any number
    of steps: the search for a free name tries the suffix 1 over and over. *)
Theorem rewrite_hangs_when_both_names_are_taken fuel :
  rewriteCode (shipped both_names_taken) fuel two_helpers = Timeout.
Proof.
  destruct fuel as [|fuel]; [reflexivity|].
  unfold rewriteCode. rewrite replace_step.
  rewrite enter_program_two_helpers, bindM_ret.
  change (type_of _ ≫= _) with (Some ["body"]). cbv iota.
  rewrite visit_keys_step.
  change (get (default two_helpers None) "body")
    with (VArr [interop_helper "_interopRequireDefault";
                interop_helper "_interopRequireDefault1"]).
  cbv iota.
  assert (mapM (visit_child
                  (replace (shipped both_names_taken) fuel
                     (Some (default two_helpers None))))
            [interop_helper "_interopRequireDefault";
             interop_helper "_interopRequireDefault1"] = Timeout) as ->;
    [|reflexivity].
  simpl mapM. unfold visit_child at 1.
  change (is_node (interop_helper "_interopRequireDefault")) with true. cbv iota.
  destruct fuel as [|fuel]; [reflexivity|].
  by rewrite replace_step, enter_helper_hangs.
Qed.

End name_search_facts.

(* --------------------------------------------------------------------- *)
(** ** Properties, shape and reachability                                *)
(* --------------------------------------------------------------------- *)

Module tree_facts.
Import ast patterns rewriteCode driver_spec driver_facts.

Lemma lookup_set_field_eq k v fs : lookup_field k (set_field k v fs) = Some v.
Proof.
  induction fs as [|[k' v'] fs IH]; simpl.
  - by rewrite String.eqb_refl.
  - destruct (String.eqb k k') eqn:E; simpl; by rewrite E.
Qed.

Lemma lookup_set_field_ne k k' v fs :
  k ≠ k' → lookup_field k' (set_field k v fs) = lookup_field k' fs.
Proof.
  intros Hne. induction fs as [|[k0 v0] fs IH]; simpl.
  - apply String.eqb_neq in Hne. rewrite String.eqb_sym. by rewrite Hne.
  - destruct (String.eqb k k0) eqn:E; simpl.
    + apply String.eqb_eq in E. subst k0.
      assert (String.eqb k' k = false) as -> by (apply String.eqb_neq; congruence).
      reflexivity.
    + by rewrite IH.
Qed.

Lemma set_field_same k v fs : lookup_field k fs = Some v → set_field k v fs = fs.
Proof.
  induction fs as [|[k0 v0] fs IH]; simpl; [discriminate|].
  destruct (String.eqb k k0) eqn:E.
  - by intros [= ->].
  - intros H. by rewrite IH.
Qed.

Lemma get_set_eq fs k v : get (set (VObj fs) k v) k = v.
Proof. simpl. by rewrite lookup_set_field_eq. Qed.

Lemma get_set_ne o k k' v : k ≠ k' → get (set o k v) k' = get o k'.
Proof. intros Hne. destruct o; try reflexivity. simpl. by rewrite lookup_set_field_ne. Qed.

Lemma has_type_set_ne o k v t : k ≠ "type" → has_type (set o k v) t = has_type o t.
Proof. intros Hne. unfold has_type. by rewrite get_set_ne. Qed.

Lemma type_of_set_ne o k v : k ≠ "type" → type_of (set o k v) = type_of o.
Proof. intros Hne. unfold type_of. by rewrite get_set_ne. Qed.

Lemma has_type_type_of o t : has_type o t = true ↔ type_of o = Some t.
Proof.
  unfold has_type, type_of. destruct (get o "type"); try (split; discriminate).
  rewrite String.eqb_eq. split; congruence.
Qed.

Lemma has_type_false o t : has_type o t = false ↔ type_of o ≠ Some t.
Proof.
  rewrite <- has_type_type_of. destruct (has_type o t); split; congruence.
Qed.

Lemma is_node_spec o : is_node o = true ↔ ∃ fs t, o = VObj fs ∧ type_of o = Some t.
Proof.
  unfold is_node. destruct o; try (split; [discriminate|intros (? & ? & [=] & _)]).
  destruct (type_of (VObj fields)) as [t|]; split; eauto; try discriminate.
  intros (? & ? & _ & [=]).
Qed.

Lemma type_of_is_node o t : type_of o = Some t → is_node o = true.
Proof.
  intros H. apply is_node_spec. destruct o; try discriminate. eauto.
Qed.

Lemma has_type_is_node o t : has_type o t = true → is_node o = true.
Proof. rewrite has_type_type_of. apply type_of_is_node. Qed.

Lemma is_node_set o k v : is_node o = true → k ≠ "type" → is_node (set o k v) = true.
Proof.
  intros (fs & t & -> & Ht)%is_node_spec Hne.
  apply (type_of_is_node _ t). by rewrite type_of_set_ne.
Qed.

(** A property that holds a node or an array is not the [type] property of
    a node. *)
Lemma node_key_not_type node key :
  is_node node = true →
  is_node (get node key) = true ∨ is_array (get node key) = true →
  key ≠ "type".
Proof.
  intros (fs & t & -> & Ht)%is_node_spec H ->. unfold type_of in Ht.
  destruct (get (VObj fs) "type"); try discriminate. by destruct H.
Qed.

(** *** Shape *)

Lemma blocks_hold_arrays_items items :
  blocks_hold_arrays (VArr items) = true ↔
  Forall (λ x, blocks_hold_arrays x = true) items.
Proof.
  rewrite List.Forall_forall. apply List.forallb_forall.
Qed.

Lemma blocks_hold_arrays_object fs :
  blocks_hold_arrays (VObj fs) = true ↔
  (block_like (VObj fs) = true → is_array (get (VObj fs) "body") = true)
  ∧ Forall (λ kv, blocks_hold_arrays kv.2 = true) fs.
Proof.
  change (blocks_hold_arrays (VObj fs))
    with ((if block_like (VObj fs) then is_array (get (VObj fs) "body") else true)
          && forallb (λ kv, blocks_hold_arrays kv.2) fs).
  rewrite andb_true_iff, List.Forall_forall.
  assert (forallb (λ kv, blocks_hold_arrays kv.2) fs = true ↔
          (∀ x, In x fs → blocks_hold_arrays x.2 = true)) as ->
    by apply List.forallb_forall.
  destruct (block_like (VObj fs)); intuition congruence.
Qed.

Lemma blocks_hold_arrays_lookup fs k v :
  Forall (λ kv, blocks_hold_arrays kv.2 = true) fs →
  lookup_field k fs = Some v → blocks_hold_arrays v = true.
Proof.
  induction 1 as [|[k0 v0] fs H0 _ IH]; simpl; [discriminate|].
  destruct (String.eqb k k0); [by intros [= <-]|exact IH].
Qed.

Lemma blocks_hold_arrays_get o k :
  blocks_hold_arrays o = true → blocks_hold_arrays (get o k) = true.
Proof.
  destruct o as [| | | | |fs]; try reflexivity.
  intros [_ H]%blocks_hold_arrays_object. simpl.
  destruct (lookup_field k fs) as [v|] eqn:E; [|reflexivity].
  eapply blocks_hold_arrays_lookup; eauto.
Qed.

Lemma blocks_hold_arrays_set_field k v fs :
  Forall (λ kv, blocks_hold_arrays kv.2 = true) fs →
  blocks_hold_arrays v = true →
  Forall (λ kv, blocks_hold_arrays kv.2 = true) (set_field k v fs).
Proof.
  intros H Hv. induction H as [|[k0 v0] fs H0 Hfs IH]; simpl.
  - by repeat constructor.
  - destruct (String.eqb k k0); constructor; auto.
Qed.

Lemma blocks_hold_arrays_set o k v :
  blocks_hold_arrays o = true → blocks_hold_arrays v = true →
  (block_like (set o k v) = true → is_array (get (set o k v) "body") = true) →
  blocks_hold_arrays (set o k v) = true.
Proof.
  destruct o as [| | | | |fs]; try done.
  intros [_ H]%blocks_hold_arrays_object Hv Hb.
  apply blocks_hold_arrays_object. split; [exact Hb|].
  by apply blocks_hold_arrays_set_field.
Qed.

Lemma blocks_hold_arrays_kids v :
  blocks_hold_arrays v = true → Forall (λ x, blocks_hold_arrays x = true) (kids v).
Proof.
  intros H. destruct v; simpl; try by constructor.
  - apply blocks_hold_arrays_items in H. apply List.Forall_forall.
    intros x [Hx _]%filter_In. rewrite List.Forall_forall in H. auto.
  - destruct (match type_of (VObj fields) with Some _ => true | None => false end);
      by repeat constructor.
Qed.

Lemma block_like_body o :
  blocks_hold_arrays o = true → block_like o = true →
  ∃ body, get o "body" = VArr body.
Proof.
  intros H Hb. assert (∃ fs, o = VObj fs) as [fs ->].
  { unfold block_like in Hb. apply orb_true_iff in Hb as [Hb|Hb];
      apply has_type_is_node, is_node_spec in Hb as (fs & _ & -> & _); eauto. }
  apply blocks_hold_arrays_object in H as [H _]. specialize (H Hb).
  destruct (get (VObj fs) "body"); try discriminate. eauto.
Qed.

Lemma kids_node v : is_node v = true → kids v = [v].
Proof.
  intros H. destruct (is_node_spec v) as [(fs & t & -> & Ht) _]; [done|].
  unfold kids. by rewrite H.
Qed.

Lemma kids_other v : is_node v = false → is_array v = false → kids v = [].
Proof. intros H Ha. destruct v; try done. unfold kids. by rewrite H. Qed.

(** *** The relation [below] *)


Lemma below_inv c n d :
  below c n d → ∃ m, In m (children c n) ∧ (d = m ∨ below c m d).
Proof. destruct 1; eauto. Qed.

Lemma children_body c r t :
  type_of r = Some t → VisitorKeys c t = Some ["body"] →
  children c r = kids (get r "body").
Proof.
  intros Ht Hk. unfold children. rewrite Ht. simpl. rewrite Hk. simpl.
  by rewrite app_nil_r.
Qed.

Lemma children_elem c node keys x t :
  type_of node = Some t → VisitorKeys c t = Some keys →
  In x (children c node) ↔ ∃ key, In key keys ∧ In x (kids (get node key)).
Proof.
  intros Ht Hk. unfold children. rewrite Ht. simpl. rewrite Hk.
  rewrite in_flat_map. reflexivity.
Qed.

(** *** The monad's list traversal *)

Lemma mapM_Done {A B} (f : A → M B) xs ys log :
  mapM f xs = Done (ys, log) →
  Forall2 (λ x y, ∃ l, f x = Done (y, l)) xs ys.
Proof.
  revert ys log. induction xs as [|x xs IH]; intros ys log; simpl.
  - intros [= <- <-]. constructor.
  - intros (y & l1 & l2 & Hy & H & ->)%bindM_Done.
    apply bindM_Done in H as (ys' & l3 & l4 & Hys & [= <- <-] & ->).
    constructor; eauto.
Qed.

End tree_facts.

(* --------------------------------------------------------------------- *)
(** ** The driver: the loop of leave                                     *)
(* --------------------------------------------------------------------- *)

Module flatten_facts.
Import ast patterns rewriteCode driver_spec driver_facts tree_facts.

Lemma flatten_step fuel body i :
  flatten (S fuel) body i =
    match body !! i with
    | None => Done body
    | Some statement =>
        if value_eqb statement VNull then Throw TypeError
        else if has_type statement "Program" then
          match get statement "body" with
          | VArr inner => flatten fuel (take i body ++ inner ++ drop (S i) body) i
          | _ => Throw TypeError
          end
        else flatten fuel body (S i)
    end.
Proof. simpl. destruct (body !! i) as [[]|]; reflexivity. Qed.

Lemma splice_take (body inner : list value) i statement :
  body !! i = Some statement →
  take i (take i body ++ inner ++ drop (S i) body) = take i body.
Proof.
  intros Hi. apply lookup_lt_Some in Hi.
  rewrite take_app_le by (rewrite length_take; lia).
  rewrite take_take. f_equal. lia.
Qed.

Lemma splice_drop (body inner : list value) i statement :
  body !! i = Some statement →
  drop i (take i body ++ inner ++ drop (S i) body) = inner ++ drop (S i) body.
Proof.
  intros Hi. apply lookup_lt_Some in Hi.
  rewrite drop_app_length'; [done|]. rewrite length_take. lia.
Qed.

(** The loop keeps what it has passed and decides each remaining element. *)
Lemma flatten_invariant (G S : value → Prop) :
  (∀ x, S x → has_type x "Program" = false → G x) →
  (∀ x inner, S x → has_type x "Program" = true → get x "body" = VArr inner →
              Forall S inner) →
  ∀ fuel body i out,
    flatten fuel body i = Done out →
    Forall G (take i body) → Forall S (drop i body) → Forall G out.
Proof.
  intros HG HS. induction fuel as [|fuel IH]; intros body i out; [discriminate|].
  rewrite flatten_step. destruct (body !! i) as [statement|] eqn:Hi.
  2:{ intros [= <-] Hg _. rewrite take_ge in Hg; [done|]. by apply lookup_ge_None. }
  destruct (value_eqb statement VNull); [discriminate|].
  intros H Hg Hs. rewrite (drop_S _ _ _ Hi) in Hs.
  apply Forall_cons in Hs as [Hs Hrest].
  destruct (has_type statement "Program") eqn:Hp.
  - destruct (get statement "body") as [| | | |inner|] eqn:Hb; try discriminate.
    apply IH in H; [done| |].
    + by rewrite (splice_take _ _ _ _ Hi).
    + rewrite (splice_drop _ _ _ _ Hi). apply Forall_app. split; [|done].
      by eapply HS.
  - apply IH in H; [done| |done].
    rewrite (take_S_r _ _ _ Hi). apply Forall_app. split; [done|].
    constructor; [|constructor]. by apply HG.
Qed.

(** Every container is replaced in place by its own statements, the order
    of statements being kept. *)
Lemma flatten_expands fuel body i out :
  flatten fuel body i = Done out →
  ∃ tail, out = take i body ++ tail ∧ expands (drop i body) tail.
Proof.
  revert body i out. induction fuel as [|fuel IH]; intros body i out; [discriminate|].
  rewrite flatten_step. destruct (body !! i) as [statement|] eqn:Hi.
  2:{ intros [= <-]. exists []. apply lookup_ge_None in Hi.
      rewrite take_ge, drop_ge, app_nil_r by done. split; [done|constructor]. }
  destruct (value_eqb statement VNull); [discriminate|].
  rewrite (drop_S _ _ _ Hi).
  destruct (has_type statement "Program") eqn:Hp.
  - destruct (get statement "body") as [| | | |inner|] eqn:Hb; try discriminate.
    intros (tail & -> & Hex)%IH.
    rewrite (splice_take _ _ _ _ Hi), (splice_drop _ _ _ _ Hi) in *.
    exists tail. split; [done|]. by eapply expands_splice.
  - intros (tail & -> & Hex)%IH. exists (statement :: tail).
    rewrite (take_S_r _ _ _ Hi), <- app_assoc. split; [done|].
    by apply expands_keep.
Qed.

Lemma weight_pos v : (1 ≤ weight v)%nat.
Proof. destruct v; simpl; lia. Qed.

Lemma weight_lookup k fs v :
  lookup_field k fs = Some v →
  (weight v ≤ list_sum (map (λ kv, weight kv.2) fs))%nat.
Proof.
  induction fs as [|[k0 v0] fs IH]; simpl; [discriminate|].
  destruct (String.eqb k k0); [intros [= ->]; lia|]. intros H%IH. lia.
Qed.

Lemma weight_body statement inner :
  get statement "body" = VArr inner →
  (list_sum (map weight inner) < weight statement)%nat.
Proof.
  destruct statement as [| | | | |fs]; try discriminate. simpl.
  destruct (lookup_field "body" fs) as [v|] eqn:E; [|discriminate].
  simpl. intros ->. apply weight_lookup in E. simpl in E. lia.
Qed.

(** The budget [leave] hands to the loop is never used up. *)
Lemma flatten_terminates fuel body i :
  (list_sum (map weight (drop i body)) < fuel)%nat →
  flatten fuel body i ≠ Timeout.
Proof.
  revert body i. induction fuel as [|fuel IH]; intros body i Hlt; [lia|].
  rewrite flatten_step. destruct (body !! i) as [statement|] eqn:Hi; [|done].
  destruct (value_eqb statement VNull); [done|].
  rewrite (drop_S _ _ _ Hi) in Hlt. simpl in Hlt.
  destruct (has_type statement "Program").
  - destruct (get statement "body") as [| | | |inner|] eqn:Hb; try done.
    apply IH. rewrite (splice_drop _ _ _ _ Hi), map_app, list_sum_app.
    apply weight_body in Hb. lia.
  - apply IH. pose proof (weight_pos statement). lia.
Qed.

Lemma leave_terminates node parent : leave node parent ≠ Timeout.
Proof.
  unfold leave.
  match goal with |- context [if ?b then set node "type" _ else node] =>
    generalize (if b then set node "type" (VStr "BlockStatement") else node)
  end.
  intros node'. destruct (_ || _); [|done].
  destruct (get node' "body") as [| | | |body|]; try done.
  pose proof (flatten_terminates (S (weight (VArr body))) body 0) as H.
  destruct (flatten _ body 0); try done.
  exfalso. apply H; [|done]. rewrite drop_0. simpl. lia.
Qed.

End flatten_facts.

(* --------------------------------------------------------------------- *)
(** ** The driver: the loop over the visitor keys                        *)
(* --------------------------------------------------------------------- *)

Module visit_facts.
Import ast patterns rewriteCode driver_spec driver_facts tree_facts.

Ltac fold_set :=
  repeat match goal with
  | |- context [VObj (set_field ?k ?v ?fs)] =>
      change (VObj (set_field k v fs)) with (set (VObj fs) k v)
  end.

Section one_level.
Variable visit : value → M value.
Variables Pre Q : value → Prop.
Hypothesis visit_spec :
  ∀ child r l, is_node child = true → Pre child →
    visit child = Done (r, l) → is_node r = true ∧ Q r.

Lemma visit_items items items' l :
  Forall Pre (List.filter is_node items) →
  mapM (visit_child visit) items = Done (items', l) →
  Forall Q (List.filter is_node items').
Proof.
  intros Hpre H%mapM_Done. induction H as [|x y xs ys [l' Hxy] _ IH]; [constructor|].
  unfold visit_child in Hxy. simpl in Hpre.
  destruct (is_node x) eqn:Hx.
  - apply Forall_cons in Hpre as [Hpx Hpre].
    destruct (visit_spec _ _ _ Hx Hpx Hxy) as [Hy HQ].
    simpl. rewrite Hy. constructor; auto.
  - injection Hxy as <- _. simpl. rewrite Hx. auto.
Qed.

(** One key of the loop over the visitor keys. *)
Lemma visit_key node key node1 l :
  is_node node = true → Forall Pre (kids (get node key)) →
  match get node key with
  | VArr items =>
      items' <- mapM (visit_child visit) items ;; ret (set node key (VArr items'))
  | candidate =>
      if is_node candidate
      then target <- visit candidate ;; ret (set node key target)
      else ret node
  end = Done (node1, l) →
  is_node node1 = true ∧ type_of node1 = type_of node
  ∧ Forall Q (kids (get node1 key))
  ∧ (∀ k, k ≠ key → get node1 k = get node k).
Proof.
  intros Hnode Hpre H.
  destruct (is_node_spec node) as [(fs & t & -> & Ht) _]; [done|].
  assert (is_node (get (VObj fs) key) = true ∨ is_array (get (VObj fs) key) = true
          → key ≠ "type") as Hkey by (by apply node_key_not_type).
  destruct (get (VObj fs) key) as [| | | |items|cfs] eqn:Hget; cbv zeta in H;
    try (injection H as <- <-; rewrite Hget; by repeat split; try constructor).
  - apply bindM_Done in H as (items' & l1 & l2 & Hitems & [= <- <-] & ->).
    specialize (Hkey (or_intror eq_refl)). fold_set.
    split; [by apply is_node_set|]. split; [by apply type_of_set_ne|].
    split; [|by intros k Hk; apply get_set_ne].
    rewrite get_set_eq. by eapply visit_items.
  - destruct (is_node (VObj cfs)) eqn:Hc.
    + apply bindM_Done in H as (target & l1 & l2 & Htarget & [= <- <-] & ->).
      specialize (Hkey (or_introl eq_refl)). fold_set.
      split; [by apply is_node_set|]. split; [by apply type_of_set_ne|].
      split; [|by intros k Hk; apply get_set_ne].
      rewrite get_set_eq. rewrite (kids_node _ Hc) in Hpre.
      apply Forall_cons in Hpre as [Hp _].
      destruct (visit_spec _ _ _ Hc Hp Htarget) as [Hy HQ].
      rewrite (kids_node _ Hy). by repeat constructor.
    + injection H as <- <-. rewrite Hget. repeat split; try done.
      rewrite kids_other by done. constructor.
Qed.

Hypothesis Q_Pre : ∀ r, Q r → Pre r.

(** After the loop every child under a visited key is the outcome of a
    visit; the other properties and the node's kind are untouched. *)
Lemma visit_keys_kids keys : ∀ node node' l,
  is_node node = true → (∀ key, Forall Pre (kids (get node key))) →
  visit_keys visit node keys = Done (node', l) →
  is_node node' = true ∧ type_of node' = type_of node
  ∧ (∀ key, In key keys → Forall Q (kids (get node' key)))
  ∧ (∀ key, ¬ In key keys → get node' key = get node key).
Proof.
  induction keys as [|key keys IH]; intros node node' l Hnode Hpre.
  - intros [= <- <-]. repeat split; try done.
  - rewrite visit_keys_step.
    intros (node1 & l1 & l2 & H1 & H2 & ->)%bindM_Done.
    destruct (visit_key _ _ _ _ Hnode (Hpre key) H1) as (Hn1 & Ht1 & HQ1 & Hother1).
    assert (∀ k, Forall Pre (kids (get node1 k))) as Hpre1.
    { intros k. destruct (String.eqb_spec k key) as [->|Hne].
      - eapply Forall_impl; [exact HQ1|exact Q_Pre].
      - by rewrite Hother1. }
    destruct (IH _ _ _ Hn1 Hpre1 H2) as (Hn' & Ht' & HQ' & Hother').
    split; [done|]. split; [congruence|]. split.
    + intros k Hk. destruct (in_dec String.string_dec k keys) as [Hin|Hnin].
      * by apply HQ'.
      * destruct Hk as [<-|Hk]; [|done]. by rewrite Hother'.
    + intros k Hk. rewrite Hother' by (intros ?; apply Hk; by right).
      apply Hother1. intros ->. apply Hk. by left.
Qed.

End one_level.

Lemma visit_items_shape visit items items' l :
  (∀ child r l, is_node child = true → blocks_hold_arrays child = true →
     visit child = Done (r, l) → blocks_hold_arrays r = true) →
  Forall (λ x, blocks_hold_arrays x = true) items →
  mapM (visit_child visit) items = Done (items', l) →
  Forall (λ x, blocks_hold_arrays x = true) items'.
Proof.
  intros Hvisit Hwf H%mapM_Done.
  induction H as [|x y xs ys [l' Hxy] _ IH]; [constructor|].
  apply Forall_cons in Hwf as [Hx Hxs]. constructor; [|by apply IH].
  unfold visit_child in Hxy. destruct (is_node x) eqn:Hnx.
  - by eapply Hvisit.
  - by injection Hxy as <- _.
Qed.

(** The loop keeps the shape of the node when the visits keep the shape of
    the children. *)
Lemma visit_keys_shape visit :
  (∀ child r l, is_node child = true → blocks_hold_arrays child = true →
     visit child = Done (r, l) → blocks_hold_arrays r = true) →
  ∀ keys node node' l,
    is_node node = true → blocks_hold_arrays node = true →
    visit_keys visit node keys = Done (node', l) →
    blocks_hold_arrays node' = true.
Proof.
  intros Hvisit. induction keys as [|key keys IH]; intros node node' l Hnode Hwf.
  { by intros [= <- <-]. }
  rewrite visit_keys_step. intros (node1 & l1 & l2 & H1 & H2 & ->)%bindM_Done.
  assert (is_node node1 = true ∧ blocks_hold_arrays node1 = true) as [Hn1 Hwf1];
    [|by eapply IH].
  clear H2 IH.
  assert (is_node (get node key) = true ∨ is_array (get node key) = true
          → key ≠ "type") as Hkey by (by apply node_key_not_type).
  pose proof (blocks_hold_arrays_get _ key Hwf) as Hwfc.
  assert (∀ v, key ≠ "type" → blocks_hold_arrays v = true →
               (key = "body" → block_like node = true → is_array v = true) →
               blocks_hold_arrays (set node key v) = true) as Hset.
  { intros v Hk Hv Harr. apply blocks_hold_arrays_set; [done|done|].
    unfold block_like. rewrite !has_type_set_ne by done. intros Hb.
    destruct (String.eqb_spec key "body") as [->|Hne].
    - destruct (is_node_spec node) as [(fs & t & -> & Ht) _]; [done|].
      rewrite get_set_eq. by apply Harr.
    - rewrite get_set_ne by done.
      destruct (block_like_body _ Hwf Hb) as [body ->]. reflexivity. }
  destruct (get node key) as [| | | |items|cfs] eqn:Hget; cbv zeta in H1;
    try (by injection H1 as <- <-).
  - apply bindM_Done in H1 as (items' & l3 & l4 & Hitems & [= <- <-] & ->).
    specialize (Hkey (or_intror eq_refl)).
    split; [by apply is_node_set|]. apply Hset; [done| |done].
    apply blocks_hold_arrays_items. apply blocks_hold_arrays_items in Hwfc.
    by eapply visit_items_shape.
  - destruct (is_node (VObj cfs)) eqn:Hc; [|by injection H1 as <- <-].
    apply bindM_Done in H1 as (target & l3 & l4 & Htarget & [= <- <-] & ->).
    specialize (Hkey (or_introl eq_refl)).
    split; [by apply is_node_set|]. apply Hset; [done|by eapply Hvisit|].
    intros -> Hb. destruct (block_like_body _ Hwf Hb) as [body Hbody].
    congruence.
Qed.

End visit_facts.

(* --------------------------------------------------------------------- *)
(** ** The driver: what a finished visit leaves                          *)
(* --------------------------------------------------------------------- *)

Module container_facts.
Import ast patterns rewriteCode driver_spec driver_facts tree_facts flatten_facts
  visit_facts.

Section containers.
Variable c : collaborators.
Hypothesis keys_Program : VisitorKeys c "Program" = Some ["body"].
Hypothesis keys_BlockStatement : VisitorKeys c "BlockStatement" = Some ["body"].

Lemma block_like_keys node t :
  type_of node = Some t → block_like node = true →
  VisitorKeys c t = Some ["body"].
Proof.
  intros Ht [H|H]%orb_true_iff; apply has_type_type_of in H;
    rewrite Ht in H; injection H as ->; done.
Qed.

Lemma leave_settles node p r t candidates :
  type_of node = Some t → VisitorKeys c t = Some candidates →
  blocks_hold_arrays node = true →
  (∀ key, In key candidates →
     Forall (settled c (block_like node)) (kids (get node key))) →
  leave node p = Done r →
  is_node r = true ∧ settled c (block_like p) r.
Proof.
  intros Ht Hkeys Hwf Hkids. unfold leave.
  pose proof (type_of_is_node _ _ Ht) as Hnode.
  destruct (block_like node) eqn:Hbl.
  - (* a block or a container: the body is flattened *)
    rewrite (block_like_keys _ _ Ht Hbl) in Hkeys. injection Hkeys as <-.
    specialize (Hkids "body" (or_introl eq_refl)).
    destruct (block_like_body _ Hwf Hbl) as [body Hbody].
    destruct (is_node_spec node) as [(fs & t' & -> & _) _]; [done|].
    set (node3 := if has_type (VObj fs) "Program"
                       && negb (has_type p "BlockStatement")
                       && negb (has_type p "Program")
                  then set (VObj fs) "type" (VStr "BlockStatement")
                  else VObj fs).
    assert (block_like node3 = true ∧ get node3 "body" = VArr body
            ∧ blocks_hold_arrays node3 = true ∧ is_node node3 = true
            ∧ (has_type node3 "Program" = true → block_like p = true)
            ∧ ∃ fs3, node3 = VObj fs3) as (Hbl3 & Hbody3 & Hwf3 & Hn3 & Hp3 & fs3 & Hfs3).
    { unfold node3. destruct (has_type (VObj fs) "Program") eqn:Hprog; simpl andb.
      - destruct (negb (has_type p "BlockStatement") && negb (has_type p "Program"))
          eqn:Hcoerce.
        + assert (has_type (set (VObj fs) "type" (VStr "BlockStatement"))
                    "BlockStatement" = true) as Hb.
          { unfold has_type. by rewrite get_set_eq. }
          assert (has_type (set (VObj fs) "type" (VStr "BlockStatement"))
                    "Program" = false) as Hnp.
          { unfold has_type. by rewrite get_set_eq. }
          split; [unfold block_like; by rewrite Hb|].
          split; [by rewrite get_set_ne|].
          split; [|split; [by eapply has_type_is_node|split; [congruence|by eexists]]].
          apply blocks_hold_arrays_set; [done|done|].
          intros _. rewrite get_set_ne by done. by rewrite Hbody.
        + repeat split; try done; [|by eexists]. intros _. unfold block_like.
          destruct (has_type p "BlockStatement"), (has_type p "Program"); done.
      - repeat split; try done; try congruence; by eexists. }
    clearbody node3. subst node3. unfold block_like in Hbl3.
    fold (block_like (VObj fs3)) in Hbl3. unfold block_like in Hbl3. rewrite Hbl3, Hbody3.
    destruct (flatten _ body 0) as [body'| |] eqn:Hflat; try discriminate.
    intros [= <-].
    assert (type_of (set (VObj fs3) "body" (VArr body')) = type_of (VObj fs3)) as Htr
      by (by apply type_of_set_ne).
    destruct (is_node_spec (VObj fs3)) as [(fs3' & t3 & _ & Ht3) _]; [done|].
    (* what the loop is given and what it leaves *)
    pose (Given := λ x, blocks_hold_arrays x = true
                    ∧ (is_node x = true → ∀ d, below c x d → has_type d "Program" = false)).
    pose (Kept := λ x, blocks_hold_arrays x = true
                    ∧ (is_node x = true → has_type x "Program" = false
                                          ∧ ∀ d, below c x d → has_type d "Program" = false)).
    assert (Forall Kept body') as HG.
    { apply (flatten_invariant Kept Given) in Hflat; [done| | |constructor|].
      - intros x [Hx Hc] Hnp. split; [done|]. auto.
      - intros x inner [Hx Hc] Hprog Hinner.
        pose proof (has_type_is_node _ _ Hprog) as Hnx.
        pose proof (blocks_hold_arrays_get _ "body" Hx) as Hwi.
        rewrite Hinner in Hwi. apply blocks_hold_arrays_items in Hwi.
        apply List.Forall_forall. intros y Hy. rewrite List.Forall_forall in Hwi.
        split; [by apply Hwi|]. intros Hny.
        assert (In y (children c x)) as Hchild.
        { rewrite (children_body c x "Program"); [|by apply has_type_type_of|done].
          rewrite Hinner. simpl. apply filter_In. auto. }
        intros d Hd. apply (Hc Hnx). by eapply below_step.
      - rewrite drop_0.
        pose proof (blocks_hold_arrays_get _ "body" Hwf) as Hwb.
        rewrite Hbody in Hwb. apply blocks_hold_arrays_items in Hwb.
        apply List.Forall_forall. intros x Hx. rewrite List.Forall_forall in Hwb.
        split; [by apply Hwb|]. intros Hnx.
        rewrite Hbody in Hkids. simpl in Hkids. rewrite List.Forall_forall in Hkids.
        destruct (Hkids x) as (_ & Hclean & _); [apply filter_In; auto|done]. }
    fold_set. split; [by apply is_node_set|]. split; [|split].
    + apply blocks_hold_arrays_set; [done| |by rewrite get_set_eq].
      apply blocks_hold_arrays_items. eapply Forall_impl; [exact HG|]. by intros x [].
    + intros d Hd. apply below_inv in Hd as (m & Hm & Hd).
      rewrite (children_body c _ t3) in Hm.
      2:{ by rewrite Htr. }
      2:{ apply (block_like_keys (VObj fs3)); [done|]. unfold block_like. exact Hbl3. }
      rewrite get_set_eq in Hm. simpl in Hm. apply filter_In in Hm as [Hm Hnm].
      rewrite List.Forall_forall in HG. destruct (HG m Hm) as [_ HGm].
      destruct (HGm Hnm) as [Hnp Hcl]. destruct Hd as [->|Hd]; auto.
    + rewrite has_type_set_ne by done. exact Hp3.
  - (* any other node is handed back as it is *)
    assert (has_type node "Program" = false ∧ has_type node "BlockStatement" = false)
      as [Hnp Hnb].
    { unfold block_like in Hbl. by apply orb_false_iff in Hbl as [-> ->]. }
    rewrite Hnp. simpl. rewrite Hnp, Hnb. simpl. intros [= <-].
    split; [done|]. split; [done|]. split; [|congruence].
    intros d Hd. apply below_inv in Hd as (m & Hm & Hd).
    apply (children_elem c node candidates m t Ht Hkeys) in Hm as (key & Hkey & Hm).
    specialize (Hkids key Hkey). rewrite List.Forall_forall in Hkids.
    destruct (Hkids m Hm) as (_ & Hclean & Hprog).
    destruct Hd as [->|Hd]; [|by apply Hclean].
    destruct (has_type m "Program"); [|done]. by specialize (Hprog eq_refl).
Qed.


Hypothesis fills : fills_keep_shape c.

Lemma disambiguate_shape fuel node result r l :
  blocks_hold_arrays result = true →
  disambiguate c fuel node result = Done (r, l) →
  blocks_hold_arrays r = true.
Proof.
  intros Hwf. unfold disambiguate. destruct (scopeManager c node); [|discriminate].
  intros (variable & l1 & l2 & _ & H & ->)%bindM_Done.
  apply bindM_Done in H as (name & l3 & l4 & [Hmem _]%lift_Done & H & ->).
  apply bindM_Done in H as (newName & l5 & l6 & Hname & H & ->).
  apply bindM_Done in H as ([] & l7 & l8 & _ & [= <- <-] & ->).
  assert (blocks_hold_arrays name = true) as Hn.
  { assert (name = get (get result "id") "name") as ->.
    { unfold member in Hmem. destruct (get result "id"); try discriminate;
        by injection Hmem. }
    by do 2 apply blocks_hold_arrays_get. }
  assert (blocks_hold_arrays newName = true) as Hnew.
  { destruct name as [| | |name| |]; try (by injection Hname as <- _).
    by apply bindM_Done in Hname as (? & ? & ? & _ & [= <- _] & _). }
  assert (∀ o k v, k ≠ "type" → k ≠ "body" →
            blocks_hold_arrays o = true → blocks_hold_arrays v = true →
            blocks_hold_arrays (set o k v) = true) as Hset.
  { intros o k v Hk Hb Ho Hv. apply blocks_hold_arrays_set; [done|done|].
    unfold block_like. rewrite !has_type_set_ne, get_set_ne by done. intros Hbl.
    destruct (block_like_body _ Ho Hbl) as [body ->]. reflexivity. }
  apply Hset; [done|done|done|].
  apply Hset; [done|done| |done]. by apply blocks_hold_arrays_get.
Qed.

Lemma apply_rules_shape fuel node rules target l :
  (∀ rule, In rule rules → In rule (table c)) →
  blocks_hold_arrays node = true →
  apply_rules c fuel node rules = Done (Some target, l) →
  blocks_hold_arrays target = true.
Proof.
  intros Hin Hwf. induction rules as [|[pattern replacement] rules IH]; [discriminate|].
  simpl. destruct (matches c pattern node) as [env|] eqn:Hm.
  2:{ apply IH. intros rule Hr. apply Hin. by right. }
  intros (result & l1 & l2 & [Hfill _]%lift_Done & H & ->)%bindM_Done.
  assert (blocks_hold_arrays result = true) as Hres.
  { eapply fills; eauto. apply Hin. by left. }
  destruct (_ && _).
  - apply bindM_Done in H as (r & l3 & l4 & Hd & [= <- <-] & ->).
    by eapply disambiguate_shape.
  - by injection H as <- <-.
Qed.

Lemma enter_shape fuel node target l :
  blocks_hold_arrays node = true →
  enter c fuel node = Done (Some target, l) →
  blocks_hold_arrays target = true.
Proof.
  intros Hwf. unfold enter.
  intros (is_sequence & l1 & l2 & _ & H & ->)%bindM_Done.
  destruct is_sequence.
  - apply bindM_Done in H as (container & l3 & l4 & [Hs _]%lift_Done & [= <- <-] & ->).
    unfold split_sequence in Hs.
    destruct (get (get node "expression") "expressions") as [| | | |es|] eqn:E;
      try discriminate.
    injection Hs as <-.
    pose proof (blocks_hold_arrays_get _ "expressions"
                  (blocks_hold_arrays_get _ "expression" Hwf)) as Hes.
    rewrite E in Hes. apply blocks_hold_arrays_items in Hes.
    apply blocks_hold_arrays_object. split; [done|].
    repeat constructor. simpl. apply forallb_forall. intros x (e & <- & He)%in_map_iff.
    rewrite List.Forall_forall in Hes. simpl. by rewrite (Hes e He).
  - by eapply apply_rules_shape.
Qed.

(** Every finished visit is settled. *)
Lemma replace_settles fuel : ∀ parent node r l,
  blocks_hold_arrays node = true →
  replace c fuel parent node = Done (r, l) →
  is_node r = true ∧ settled c (keeps_container parent) r.
Proof.
  induction fuel as [|fuel IH]; intros parent node r l Hwf; [discriminate|].
  rewrite replace_step.
  intros (target & l1 & l2 & Henter & H & ->)%bindM_Done.
  set (node1 := default node target) in *.
  assert (blocks_hold_arrays node1 = true) as Hwf1.
  { unfold node1. destruct target as [target|]; [|done]. by eapply enter_shape. }
  destruct (type_of node1) as [t|] eqn:Ht; [|discriminate]. simpl in H.
  destruct (VisitorKeys c t) as [candidates|] eqn:Hkeys; [|discriminate].
  apply bindM_Done in H as (node2 & l3 & l4 & Hvisit & [Hleave _]%lift_Done & ->).
  pose proof (type_of_is_node _ _ Ht) as Hn1.
  assert (∀ child r l, is_node child = true → blocks_hold_arrays child = true →
            replace c fuel (Some node1) child = Done (r, l) →
            is_node r = true ∧ settled c (block_like node1) r) as Hchild.
  { intros child r' l' _ Hc Hr. by apply (IH (Some node1)) in Hr. }
  assert (∀ x, settled c (block_like node1) x → blocks_hold_arrays x = true)
    as Hqp by (by intros ? (? & _)).
  assert (∀ key, Forall (λ x, blocks_hold_arrays x = true) (kids (get node1 key)))
    as Hpre.
  { intros key. by apply blocks_hold_arrays_kids, blocks_hold_arrays_get. }
  destruct (visit_keys_kids _ _ _ Hchild Hqp candidates node1 node2 l3 Hn1 Hpre Hvisit)
    as (Hn2 & Ht2 & Hkids & _).
  assert (blocks_hold_arrays node2 = true) as Hwf2.
  { assert (∀ child r l, is_node child = true → blocks_hold_arrays child = true →
              replace c fuel (Some node1) child = Done (r, l) →
              blocks_hold_arrays r = true) as Hchild'.
    { intros child r' l' Hnc Hc Hr.
      by destruct (Hchild _ _ _ Hnc Hc Hr) as (_ & ? & _). }
    exact (visit_keys_shape _ Hchild' candidates node1 node2 l3 Hn1 Hwf1 Hvisit). }
  assert (block_like node2 = block_like node1) as Hbl.
  { unfold block_like, has_type, type_of in *.
    destruct (get node2 "type"), (get node1 "type"); congruence. }
  rewrite <- Hbl in Hkids.
  destruct (leave_settles node2 (default node2 parent) r t candidates) as [Hr Hs];
    [congruence|done|done|done|done|].
  split; [done|]. destruct Hs as (Hs1 & Hs2 & Hs3). repeat split; try done.
  intros Hp. destruct parent as [q|]; [|done]. by apply Hs3.
Qed.

End containers.
End container_facts.

(* --------------------------------------------------------------------- *)
(** ** The shipped pattern engine keeps the shape of trees               *)
(* --------------------------------------------------------------------- *)

Module shipped_shape_facts.
Import ast rewriteCode patterns pattern_spec driver_spec driver_facts tree_facts
  pattern_facts matcher_facts.

Lemma bind_shape key v env env' :
  blocks_hold_arrays v = true →
  map_Forall (λ _ x, blocks_hold_arrays x = true) env →
  bind key v env = Some env' →
  map_Forall (λ _ x, blocks_hold_arrays x = true) env'.
Proof.
  intros Hv Henv. unfold bind. destruct (env !! key) as [bound|].
  - destruct (node_equal bound v); [|discriminate]. by intros [= <-].
  - intros [= <-]. by apply map_Forall_insert_2.
Qed.

(** The bindings of a match are parts of the matched tree. *)
Lemma match_into_shape p : ∀ node env env',
  blocks_hold_arrays node = true →
  map_Forall (λ _ x, blocks_hold_arrays x = true) env →
  match_into p node env = Some env' →
  map_Forall (λ _ x, blocks_hold_arrays x = true) env'.
Proof.
  induction p as [| | | |ps IH|pfs IH] using value_rect'; intros node env env' Hn He.
  1-4: rewrite match_into_scalar by exact I;
       destruct (value_eqb _ node); [|discriminate]; by intros [= <-].
  - rewrite match_into_array. destruct node as [| | | |ns|]; try discriminate.
    apply blocks_hold_arrays_items in Hn.
    revert ns env Hn He. induction IH as [|p ps Hp _ IHps]; intros [|n ns] env Hn He;
      simpl; try discriminate.
    + by intros [= <-].
    + apply Forall_cons in Hn as [Hn Hns].
      destruct (match_into p n env) as [env1|] eqn:E; [|discriminate].
      apply IHps; [done|]. by eapply Hp.
  - rewrite match_into_object.
    destruct (has_type (VObj pfs) "GenericPlaceholder").
    { destruct (has_type node "Identifier"); [|discriminate].
      apply bind_shape; [|done]. by apply blocks_hold_arrays_get. }
    destruct (has_type (VObj pfs) "StatementPlaceholder").
    { destruct (_ && _); [|discriminate]. by apply bind_shape. }
    destruct (has_type (VObj pfs) "ExpressionPlaceholder").
    { destruct (_ || _); [|discriminate]. by apply bind_shape. }
    destruct node as [| | | | |nfs]; try discriminate.
    revert env He. induction IH as [|[f p] pfs Hp _ IHpfs]; intros env He; simpl.
    + by intros [= <-].
    + destruct (match_into p _ env) as [env1|] eqn:E; [|discriminate].
      apply IHpfs. eapply Hp; [|exact He|exact E].
      by apply (blocks_hold_arrays_get (VObj nfs) f).
Qed.

Lemma fill_fields_lookup env fs fs' k :
  fill_fields env fs = Done fs' →
  match lookup_field k fs with
  | Some t => ∃ v, lookup_field k fs' = Some v ∧ fill t env = Done v
  | None => lookup_field k fs' = None
  end.
Proof.
  revert fs'. induction fs as [|[k0 t0] fs IH]; intros fs'; simpl.
  - by intros [= <-].
  - destruct (fill t0 env) as [v0| |] eqn:E0; try discriminate.
    destruct (fill_fields env fs) as [vs| |] eqn:Es; try discriminate.
    intros [= <-]. simpl. destruct (String.eqb k k0); [eauto|]. by apply IH.
Qed.

(** Filling a plain template with parts of a tree of the expected shape
    gives a tree of that shape. *)
Lemma fill_shape env t : ∀ r,
  map_Forall (λ _ x, blocks_hold_arrays x = true) env →
  plain_template t = true → fill t env = Done r →
  blocks_hold_arrays r = true.
Proof.
  intros r Henv. revert r.
  induction t as [| | | |ts IH|fs IH] using value_rect'; intros r Hplain;
    try (by intros [= <-]).
  - rewrite fill_array.
    destruct (fill_items env ts) as [vs| |] eqn:E; try discriminate.
    intros [= <-]. apply blocks_hold_arrays_items.
    simpl in Hplain. rewrite forallb_forall in Hplain.
    revert vs E. induction IH as [|t ts Ht _ IHts]; intros vs; simpl.
    + intros [= <-]. constructor.
    + destruct (fill t env) as [v| |] eqn:Ev; try discriminate.
      destruct (fill_items env ts) as [vs'| |] eqn:Evs; try discriminate.
      intros [= <-]. constructor.
      * apply Ht; [|done]. apply Hplain. by left.
      * apply IHts; [|done]. intros x Hx. apply Hplain. by right.
  - rewrite fill_object.
    change (plain_template (VObj fs))
      with (match placeholder_key (VObj fs) with
            | Some _ => true
            | None =>
                match get (VObj fs) "type" with
                | VStr s =>
                    if String.eqb s "BlockStatement" || String.eqb s "Program"
                    then match get (VObj fs) "body" with VArr _ => true | _ => false end
                    else true
                | VArr _ | VObj _ => false
                | _ => true
                end
                && forallb (λ kv, plain_template kv.2) fs
            end) in Hplain.
    unfold placeholder_key in Hplain.
    destruct (has_type (VObj fs) "GenericPlaceholder").
    { destruct (env !! _) as [name|] eqn:E; [|discriminate]. intros [= <-].
      apply blocks_hold_arrays_object. split; [done|].
      repeat constructor. simpl. by eapply Henv. }
    destruct (has_type (VObj fs) "StatementPlaceholder").
    { destruct (env !! _) as [v|] eqn:E; [|discriminate]. intros [= <-]. by eapply Henv. }
    destruct (has_type (VObj fs) "ExpressionPlaceholder").
    { destruct (env !! _) as [v|] eqn:E; [|discriminate]. intros [= <-]. by eapply Henv. }
    apply andb_true_iff in Hplain as [Htype Hfields].
    destruct (fill_fields env fs) as [fs'| |] eqn:E; try discriminate.
    intros [= <-]. apply blocks_hold_arrays_object. split.
    + (* the kind and the body are those of the template *)
      pose proof (fill_fields_lookup env fs fs' "type" E) as Hty.
      pose proof (fill_fields_lookup env fs fs' "body" E) as Hbo.
      unfold block_like, has_type. simpl in *.
      destruct (lookup_field "type" fs) as [ty|]; simpl in *.
      2:{ by rewrite Hty. }
      destruct Hty as (ty' & -> & Hfty). simpl.
      destruct ty as [| | |s| |]; try discriminate; injection Hfty as <-; try done.
      intros Hb. rewrite Hb in Htype.
      destruct (lookup_field "body" fs) as [bo|]; simpl in *; [|discriminate].
      destruct Hbo as (bo' & -> & Hfbo). simpl.
      destruct bo as [| | | |ts|]; try discriminate.
      rewrite fill_array in Hfbo. destruct (fill_items env ts); try discriminate.
      by injection Hfbo as <-.
    + rewrite forallb_forall in Hfields. clear Htype.
      revert fs' E. induction IH as [|[k t] fs Ht _ IHfs]; intros fs'; simpl.
      * intros [= <-]. constructor.
      * destruct (fill t env) as [v| |] eqn:Ev; try discriminate.
        destruct (fill_fields env fs) as [vs| |] eqn:Evs; try discriminate.
        intros [= <-]. constructor.
        -- simpl in *. apply Ht; [|done]. apply (Hfields (k, t)). by left.
        -- apply IHfs; [|done]. intros x Hx. apply Hfields. by right.
Qed.

Lemma shipped_fills_keep_shape scopes : fills_keep_shape (shipped scopes).
Proof.
  intros pattern replacement node env result Hin Hnode Hm Hfill. simpl in *.
  apply (fill_shape env replacement); [|
    |exact Hfill].
  - eapply match_into_shape; [exact Hnode| |exact Hm]. apply map_Forall_empty.
  - assert (Forall (λ rule, plain_template rule.2 = true) rewritePatterns) as Hall
      by (repeat constructor).
    rewrite List.Forall_forall in Hall. exact (Hall _ Hin).
Qed.

End shipped_shape_facts.

(* --------------------------------------------------------------------- *)
(** ** The driver: no container remains                                  *)
(* --------------------------------------------------------------------- *)

Module container_theorem.
Import ast rewriteCode patterns driver_spec driver_facts tree_facts flatten_facts
  visit_facts container_facts shipped_shape_facts.

Lemma leave_coerces node parent r :
  has_type node "Program" = true → block_like parent = false →
  leave node parent = Done r → has_type r "BlockStatement" = true.
Proof.
  intros Hp Hb. unfold leave, block_like in *.
  apply orb_false_iff in Hb as [-> ->]. rewrite Hp. cbn [negb andb].
  destruct (is_node_spec node) as [(fs & t & -> & _) _];
    [by eapply has_type_is_node|].
  assert (has_type (set (VObj fs) "type" (VStr "BlockStatement")) "BlockStatement"
          = true) as Hb by (unfold has_type; by rewrite get_set_eq).
  cbv iota. set (node3 := set (VObj fs) "type" (VStr "BlockStatement")) in *.
  clearbody node3. rewrite Hb. cbn [orb].
  destruct (get node3 "body") as [| | | |body|]; try discriminate;
    try (by intros [= <-]).
  destruct (flatten _ body 0); try discriminate. intros [= <-].
  by rewrite has_type_set_ne.
Qed.

Lemma leave_splices node parent r body :
  block_like node = true → get node "body" = VArr body →
  leave node parent = Done r →
  ∃ out, get r "body" = VArr out ∧ expands body out.
Proof.
  intros Hbl Hbody. unfold leave.
  destruct (is_node_spec node) as [(fs & t & -> & _) _].
  { unfold block_like in Hbl. apply orb_true_iff in Hbl as [H|H];
      by eapply has_type_is_node. }
  match goal with |- context [if ?b then set (VObj fs) "type" _ else VObj fs] =>
    set (node3 := if b then set (VObj fs) "type" (VStr "BlockStatement") else VObj fs)
  end.
  assert (block_like node3 = true ∧ get node3 "body" = VArr body ∧ ∃ fs3, node3 = VObj fs3)
    as (Hbl3 & Hbody3 & fs3 & ->).
  { unfold node3. destruct (_ && _ && _); [|eauto].
    split; [|split; [by rewrite get_set_ne|by eexists]].
    unfold block_like, has_type. by rewrite get_set_eq. }
  unfold block_like in Hbl3. rewrite Hbl3, Hbody3.
  destruct (flatten _ body 0) as [out| |] eqn:Hflat; try discriminate.
  intros [= <-]. exists out. fold_set. rewrite get_set_eq. split; [done|].
  apply flatten_expands in Hflat as (tail & -> & Hex). by rewrite drop_0 in Hex.
Qed.

(** C5: when the traversal library knows blocks and programs by their
    body, the pattern engine keeps the shape of trees, and the tree has
    the shape of a parsed one, then after [rewriteCode] has returned no
    node below the root is a container.  [leave] does it in two ways: a
    container handed to a parent that is neither block nor program comes
    back as a block, and the body of a block or program comes back with
    each container replaced in place, in order, by its statements. *)
Theorem no_container_remains c fuel ast result log :
  VisitorKeys c "Program" = Some ["body"] →
  VisitorKeys c "BlockStatement" = Some ["body"] →
  fills_keep_shape c →
  blocks_hold_arrays ast = true →
  rewriteCode c fuel ast = Done (result, log) →
  (∀ d, below c result d → has_type d "Program" = false)
  ∧ (∀ node parent r, leave node parent = Done r →
       (has_type node "Program" = true → block_like parent = false →
        has_type r "BlockStatement" = true)
       ∧ (∀ body, block_like node = true → get node "body" = VArr body →
          ∃ out, get r "body" = VArr out ∧ expands body out)).
Proof.
  intros Hprog Hblock Hfills Hshape Hrun. split.
  - destruct (replace_settles c Hprog Hblock Hfills fuel None ast result log Hshape Hrun)
      as (_ & _ & Hclean & _).
    exact Hclean.
  - intros node parent r Hleave. split.
    + intros Hp Hb. by eapply leave_coerces.
    + intros body Hbl Hbody. by eapply leave_splices.
Qed.

Lemma no_container_remains_witness :
  blocks_hold_arrays nested_sequences = true
  ∧ rewriteCode (shipped no_scopes) 6 nested_sequences
    = Done (nested_sequences_rewritten, [])
  ∧ ∀ d, below (shipped no_scopes) nested_sequences_rewritten d →
         has_type d "Program" = false.
Proof.
  split; [reflexivity|]. split; [vm_compute; reflexivity|].
  apply (no_container_remains (shipped no_scopes) 6 nested_sequences
           nested_sequences_rewritten []).
  - reflexivity.
  - reflexivity.
  - apply shipped_fills_keep_shape.
  - reflexivity.
  - vm_compute. reflexivity.
Defined.

End container_theorem.

(* --------------------------------------------------------------------- *)
(** ** The driver: more steps change nothing                             *)
(* --------------------------------------------------------------------- *)

Module fuel_facts.
Import ast rewriteCode driver_spec driver_facts tree_facts.

Lemma refines_refl {A} (o : outcome A) : refines o o.
Proof. by right. Qed.










End fuel_facts.

(* --------------------------------------------------------------------- *)
(** ** The driver: braces around compound bodies                         *)
(* --------------------------------------------------------------------- *)

Module brace_facts.
Import ast rewriteCode patterns pattern_spec driver_spec driver_facts tree_facts
  pattern_facts matcher_facts modifier_facts fuel_facts.

Lemma match_into_statement_placeholder i ml node env :
  match_into (StatementPlaceholder i ml) node env =
    if is_statement node && implb ml (is_multiLine node)
    then bind ("statement" +:+ string_of_nat i) node env
    else None.
Proof.
  unfold StatementPlaceholder. rewrite match_into_object.
  change (has_type _ "GenericPlaceholder") with false.
  change (has_type _ "StatementPlaceholder") with true.
  change (flag _ "expectMultiLine") with ml. cbv iota.
  change (VObj _) with (StatementPlaceholder i ml). by rewrite statement_key.
Qed.

Lemma expression_key i d :
  key_of "expression" (ExpressionPlaceholder i d) = "expression" +:+ string_of_nat i.
Proof. unfold key_of, index_of. simpl. by rewrite Nat2Z.id. Qed.

Lemma match_into_expression_placeholder i d node env :
  match_into (ExpressionPlaceholder i d) node env =
    if is_expression node || (d && is_declaration node)
    then bind ("expression" +:+ string_of_nat i) node env
    else None.
Proof.
  unfold ExpressionPlaceholder. rewrite match_into_object.
  change (has_type _ "GenericPlaceholder") with false.
  change (has_type _ "StatementPlaceholder") with false.
  change (has_type _ "ExpressionPlaceholder") with true.
  change (flag _ "allowDeclarations") with d. cbv iota.
  change (VObj _) with (ExpressionPlaceholder i d). by rewrite expression_key.
Qed.

(** Evaluation of a match of a written-out pattern against a node whose
    parts are variables: property reads and comparisons of constants are
    computed, placeholders go through their equations. *)
Ltac compute_reads :=
  repeat match goal with
  | |- context [get (VObj ?fs) ?k] =>
      let v := eval cbv in (get (VObj fs) k) in
      change (get (VObj fs) k) with v
  end.

Ltac compute_scalars :=
  repeat match goal with
  | |- context [match_into ?p ?n ?e] =>
      lazymatch p with
      | VStr _ => idtac | VBool _ => idtac | VNum _ => idtac | VNull => idtac
      end;
      rewrite (match_into_scalar p n e I);
      let r := eval cbv in (value_eqb p n) in
      change (value_eqb p n) with r; cbv iota
  end.


Ltac compute_keys :=
  repeat match goal with
  | |- context [?family +:+ string_of_nat ?n] =>
      let k := eval cbv in (family +:+ string_of_nat n) in
      change (family +:+ string_of_nat n) with k
  end.

Ltac use_facts :=
  cbn [orb andb implb negb];
  repeat match goal with
  | H : ?b = true |- context [?b] => rewrite H
  | H : ?b = false |- context [?b] => rewrite H
  end;
  cbn [orb andb implb negb]; cbv iota.

Ltac compute_bind :=
  unfold bind at 1;
  repeat (rewrite lookup_insert_ne by discriminate);
  rewrite lookup_empty; cbv iota.

Ltac compute_placeholders :=
  repeat first
    [ rewrite match_into_expression_placeholder; compute_keys; use_facts;
      try compute_bind
    | rewrite match_into_statement_placeholder; compute_keys; use_facts;
      try compute_bind
    | progress compute_scalars ].












End brace_facts.

(* --------------------------------------------------------------------- *)
(** ** The pattern engine without placeholders                           *)
(* --------------------------------------------------------------------- *)

Module ground_facts.
Import ast rewriteCode patterns pattern_spec driver_spec driver_facts tree_facts
  pattern_facts matcher_facts shipped_shape_facts.

Lemma ground_object fs :
  ground (VObj fs) = true ↔
  placeholder_key (VObj fs) = None ∧ Forall (λ kv, ground kv.2 = true) fs.
Proof.
  change (ground (VObj fs))
    with (match placeholder_key (VObj fs) with
          | Some _ => false
          | None => forallb (λ kv, ground kv.2) fs
          end).
  destruct (placeholder_key (VObj fs)).
  - split; [discriminate|by intros [[=] _]].
  - rewrite List.Forall_forall.
    assert (forallb (λ kv, ground kv.2) fs = true ↔
            (∀ x, In x fs → ground x.2 = true)) as -> by apply List.forallb_forall.
    intuition.
Qed.

Lemma not_placeholder fs :
  placeholder_key (VObj fs) = None →
  has_type (VObj fs) "GenericPlaceholder" = false
  ∧ has_type (VObj fs) "StatementPlaceholder" = false
  ∧ has_type (VObj fs) "ExpressionPlaceholder" = false.
Proof.
  unfold placeholder_key.
  destruct (has_type (VObj fs) "GenericPlaceholder"); [discriminate|].
  destruct (has_type (VObj fs) "StatementPlaceholder"); [discriminate|].
  destruct (has_type (VObj fs) "ExpressionPlaceholder"); [discriminate|done].
Qed.

(** Matching a pattern without placeholders is a comparison. *)
Lemma match_into_ground p :
  ground p = true →
  ∀ node env, match_into p node env = if agrees p node then Some env else None.
Proof.
  induction p as [| | | |ps IH|pfs IH] using value_rect'; intros Hg node env;
    try (by apply match_into_scalar).
  - rewrite match_into_array. destruct node as [| | | |ns|]; try reflexivity.
    simpl in Hg. rewrite forallb_forall in Hg.
    change (agrees (VArr ps) (VArr ns))
      with ((fix items (ps ns : list value) : bool :=
               match ps, ns with
               | [], [] => true
               | p :: ps', n :: ns' => agrees p n && items ps' ns'
               | _, _ => false
               end) ps ns).
    revert ns env. induction IH as [|p ps Hp _ IHps]; intros [|n ns] env;
      try reflexivity.
    simpl. rewrite Hp by (apply Hg; by left).
    destruct (agrees p n); [|reflexivity]. simpl.
    apply IHps. intros x Hx. apply Hg. by right.
  - apply ground_object in Hg as [Hnp Hg].
    rewrite match_into_object.
    destruct (not_placeholder _ Hnp) as (-> & -> & ->). clear Hnp.
    destruct node as [| | | | |nfs]; try reflexivity.
    change (agrees (VObj pfs) (VObj nfs))
      with (forallb (λ kv, agrees kv.2 (get (VObj nfs) kv.1)) pfs).
    revert env. induction IH as [|[k p] pfs Hp _ IHpfs]; intros env; [reflexivity|].
    apply Forall_cons in Hg as [Hgp Hg]. simpl in *.
    rewrite (Hp Hgp). destruct (agrees p _); [|reflexivity]. simpl. by apply IHpfs.
Qed.

Lemma matches_ground p node :
  ground p = true →
  patterns.matches p node = if agrees p node then Some ∅ else None.
Proof. intros Hg. by apply match_into_ground. Qed.

(** Filling a template without placeholders is a copy. *)
Lemma fill_ground env t : ground t = true → patterns.fill t env = Done t.
Proof.
  induction t as [| | | |ts IH|fs IH] using value_rect'; intros Hg; try reflexivity.
  - rewrite fill_array. simpl in Hg. rewrite forallb_forall in Hg.
    assert (fill_items env ts = Done ts) as ->; [|done].
    induction IH as [|t ts Ht _ IHts]; [reflexivity|]. simpl.
    rewrite Ht by (apply Hg; by left). fold (fill_items env ts).
    rewrite IHts; [done|]. intros x Hx. apply Hg. by right.
  - apply ground_object in Hg as [Hnp Hg]. rewrite fill_object.
    destruct (not_placeholder _ Hnp) as (-> & -> & ->). clear Hnp.
    assert (fill_fields env fs = Done fs) as ->; [|done].
    induction IH as [|[k t] fs Ht _ IHfs]; [reflexivity|].
    apply Forall_cons in Hg as [Hgt Hg]. simpl in *.
    rewrite (Ht Hgt). fold (fill_fields env fs). by rewrite IHfs.
Qed.

(** Filling keeps the kind a plain template node is written with. *)
Lemma fill_keeps_kind env fs r s :
  placeholder_key (VObj fs) = None → get (VObj fs) "type" = VStr s →
  patterns.fill (VObj fs) env = Done r → get r "type" = VStr s.
Proof.
  intros Hnp Hs. rewrite fill_object.
  destruct (not_placeholder _ Hnp) as (-> & -> & ->).
  destruct (fill_fields env fs) as [fs'| |] eqn:E; try discriminate.
  intros [= <-]. pose proof (fill_fields_lookup env fs fs' "type" E) as H.
  simpl in *. destruct (lookup_field "type" fs) as [ty|]; [|discriminate].
  simpl in Hs. subst ty. destruct H as (v & -> & [= <-]). reflexivity.
Qed.


Lemma agrees_kind pfs s node :
  lookup_field "type" pfs = Some (VStr s) →
  agrees (VObj pfs) node = true → type_of node = Some s.
Proof.
  intros Hs. destruct node as [| | | | |fs]; try discriminate.
  change (agrees (VObj pfs) (VObj fs))
    with (forallb (λ kv, agrees kv.2 (get (VObj fs) kv.1)) pfs).
  rewrite forallb_forall. intros H.
  assert (In ("type", VStr s) pfs) as Hin.
  { clear H. induction pfs as [|[k p] pfs IH]; [discriminate|].
    change (lookup_field "type" ((k, p) :: pfs))
      with (if String.eqb "type" k then Some p else lookup_field "type" pfs) in Hs.
    destruct (String.eqb "type" k) eqn:E.
    - apply String.eqb_eq in E as <-. injection Hs as ->. by left.
    - right. by apply IH. }
  specialize (H _ Hin). cbn [fst snd agrees] in H.
  apply value_eqb_eq in H. unfold type_of. by rewrite <- H.
Qed.

End ground_facts.

(* --------------------------------------------------------------------- *)
(** ** The driver: what the shipped table puts in place                  *)
(* --------------------------------------------------------------------- *)

Module negation_facts.
Import ast rewriteCode patterns pattern_spec driver_spec driver_facts tree_facts
  pattern_facts matcher_facts shipped_shape_facts ground_facts.

(** What [enter] returns from the table comes from a rule that matched. *)
Lemma apply_rules_outcome c fuel node rules target l :
  apply_rules c fuel node rules = Done (target, l) →
  match target with
  | None => Forall (λ rule, rewriteCode.matches c rule.1 node = None) rules
  | Some t =>
      ∃ pattern replacement env result,
        In (pattern, replacement) rules
        ∧ rewriteCode.matches c pattern node = Some env
        ∧ rewriteCode.fill c replacement env = Done result
        ∧ (t = result
           ∨ (has_type result "FunctionDeclaration" = true
              ∧ ∃ l', disambiguate c fuel node result = Done (t, l')))
  end.
Proof.
  induction rules as [|[pattern replacement] rules IH]; simpl.
  - intros [= <- <-]. constructor.
  - destruct (rewriteCode.matches c pattern node) as [env|] eqn:Hm.
    + intros (result & l1 & l2 & [Hfill _]%lift_Done & H & ->)%bindM_Done.
      destruct (has_type node "FunctionDeclaration"); simpl in H.
      * destruct (has_type result "FunctionDeclaration") eqn:Hf.
        -- apply bindM_Done in H as (r & l3 & l4 & Hd & [= <- <-] & ->).
           exists pattern, replacement, env, result. eauto 10.
        -- injection H as <- <-. exists pattern, replacement, env, result. eauto 10.
      * injection H as <- <-. exists pattern, replacement, env, result. eauto 10.
    + intros H. specialize (IH H). destruct target as [t|].
      * destruct IH as (p & r & env & result & Hin & ?). exists p, r, env, result.
        split; [by right|done].
      * by constructor.
Qed.

Lemma disambiguate_kind c fuel node result t l :
  disambiguate c fuel node result = Done (t, l) → type_of t = type_of result.
Proof.
  unfold disambiguate. destruct (scopeManager c node); [|discriminate].
  intros (variable & l1 & l2 & _ & H & ->)%bindM_Done.
  apply bindM_Done in H as (name & l3 & l4 & _ & H & ->).
  apply bindM_Done in H as (newName & l5 & l6 & _ & H & ->).
  apply bindM_Done in H as ([] & l7 & l8 & _ & [= <- <-] & ->).
  by apply type_of_set_ne.
Qed.

Lemma kind_in_type_of kinds node :
  kind_in kinds node = true ↔ ∃ s, type_of node = Some s ∧ In s kinds.
Proof.
  unfold kind_in. destruct (type_of node) as [t|].
  - rewrite existsb_exists. split.
    + intros (s & Hin & <-%String.eqb_eq). eauto.
    + intros (s & [= ->] & Hin). exists s. by rewrite String.eqb_refl.
  - split; [discriminate|]. by intros (s & [=] & _).
Qed.








(** Whatever the parent and the scopes, a visit to a node of a kind without
    children that [leave] does not touch hands the node back. *)
Lemma replace_leaf c fuel parent node target :
  enter c fuel node = ret (Some target) →
  type_of target ≫= VisitorKeys c = Some [] →
  block_like target = false →
  replace c (S fuel) parent node = ret target.
Proof.
  intros Henter Hkeys Hbl. rewrite replace_step, Henter, bindM_ret.
  simpl default. rewrite Hkeys. simpl visit_keys. rewrite bindM_ret.
  unfold leave. unfold block_like in Hbl.
  apply orb_false_iff in Hbl as [Hb Hp]. rewrite Hp. cbn [andb]. cbv iota zeta.
  by rewrite Hb, Hp.
Qed.

Lemma not_sequence_statement node s :
  type_of node = Some s → s ≠ "ExpressionStatement" →
  is_sequence_statement node = Done false.
Proof.
  intros Hs Hne. unfold is_sequence_statement.
  assert (has_type node "ExpressionStatement" = false) as ->; [|done].
  apply has_type_false. congruence.
Qed.



End negation_facts.

(* --------------------------------------------------------------------- *)
(** ** The driver: negated bits                                          *)
(* --------------------------------------------------------------------- *)

Module negation_theorem.
Import ast rewriteCode patterns pattern_spec driver_spec driver_facts tree_facts
  flatten_facts visit_facts container_facts ground_facts negation_facts.





Section shipped.
Variable scopes : value → option (gset string).


End shipped.


Lemma matches_ground_agrees p node env :
  ground p = true → patterns.matches p node = Some env → agrees p node = true.
Proof.
  intros Hg. rewrite (matches_ground _ _ Hg). by destruct (agrees p node).
Qed.


(* x = !0 || !1; *)
Example negated_bits_end_to_end :
  rewriteCode (shipped no_scopes) 6
    (Program [ExpressionStatement
                (AssignmentExpression "=" (Identifier "x")
                   (LogicalExpression "||" not_zero not_one))])
  = ret (Program [ExpressionStatement
                    (AssignmentExpression "=" (Identifier "x")
                       (LogicalExpression "||" literal_true literal_false))]).
Proof. vm_compute. reflexivity. Qed.

End negation_theorem.

(* --------------------------------------------------------------------- *)
(** ** lib/io.js: paths below the working directory                      *)
(* --------------------------------------------------------------------- *)

Module io_relative_facts.
Import io io_spec io_facts.

Lemma length_substring_0 e s :
  (e ≤ String.length s)%nat → String.length (String.substring 0 e s) = e.
Proof.
  revert s. induction e as [|e IH]; intros [|c s] H; simpl in *;
    try lia; try reflexivity.
  rewrite IH; lia.
Qed.

Lemma substring_0_prefix e s :
  (e ≤ String.length s)%nat → String.prefix (String.substring 0 e s) s = true.
Proof.
  revert s. induction e as [|e IH]; intros [|c s] H; simpl in *;
    try lia; try reflexivity.
  destruct (ascii_dec c c); [|done]. apply IH. lia.
Qed.

Lemma hasRoot_substring_false path e :
  hasRoot path = false → hasRoot (String.substring 0 e path) = false.
Proof.
  destruct path as [|c s]; destruct e; try done.
Qed.

(** [dirname] of a path that does not start at the root: the base case, or
    a shorter path that does not start at the root either. *)
Lemma dirname_relative path :
  hasRoot path = false →
  dirname path = "." ∨
  (is_base (dirname path) = false ∧ hasRoot (dirname path) = false
   ∧ (String.length (dirname path) < String.length path)%nat
   ∧ String.prefix (dirname path) path = true).
Proof.
  intros H. unfold dirname.
  destruct (Nat.eqb (String.length path) 0) eqn:Hlen; [by left|].
  apply Nat.eqb_neq in Hlen.
  destruct (dirname_scan path (String.length path - 1) true) as [e|] eqn:Hscan.
  - rewrite H. simpl. apply dirname_scan_range in Hscan.
    destruct (decide (String.substring 0 e path = ".")) as [->|Hne]; [by left|].
    right. split; [|split; [|split]].
    + unfold is_base. apply orb_false_iff. split.
      * apply String.eqb_neq. intros Heq.
        pose proof (length_substring_0 e path ltac:(lia)) as Hl.
        rewrite Heq in Hl. simpl in Hl. lia.
      * by apply String.eqb_neq.
    + by apply hasRoot_substring_false.
    + rewrite length_substring_0; lia.
    + apply substring_0_prefix. lia.
  - rewrite H. by left.
Qed.

Lemma ensure_step fuel fs filepath :
  ensureParentDirExists (S fuel) fs filepath =
    if is_base (dirname filepath) then Done fs
    else
      match ensureParentDirExists fuel fs (dirname filepath) with
      | Done fs' =>
          if negb (existsSync fs' (dirname filepath))
          then Done (mkdirSync fs' (dirname filepath))
          else Done fs'
      | other => other
      end.
Proof. reflexivity. Qed.




Lemma ensure_Done fuel fs filepath fs' :
  ensureParentDirExists (S fuel) fs filepath = Done fs' →
  (is_base (dirname filepath) = true ∧ fs' = fs)
  ∨ (is_base (dirname filepath) = false
     ∧ ∃ fs1, ensureParentDirExists fuel fs (dirname filepath) = Done fs1
              ∧ ((dirname filepath ∈ fs1 ∧ fs' = fs1)
                 ∨ ((dirname filepath ∉ fs1) ∧ fs' = {[dirname filepath]} ∪ fs1))).
Proof.
  rewrite ensure_step. destruct (is_base (dirname filepath)).
  - intros [= <-]. by left.
  - intros H. right. split; [done|].
    destruct (ensureParentDirExists fuel fs (dirname filepath)) as [fs1| |];
      try discriminate.
    exists fs1. split; [done|]. unfold existsSync, mkdirSync in H.
    destruct (decide (dirname filepath ∈ fs1)) as [Hin|Hout].
    + rewrite bool_decide_eq_true_2 in H by done. simpl in H.
      injection H as <-. by left.
    + rewrite bool_decide_eq_false_2 in H by done. simpl in H.
      injection H as <-. by right.
Qed.

Lemma ensure_parents fuel fs filepath fs' dir :
  ensureParentDirExists fuel fs filepath = Done fs' →
  on_the_way filepath dir → dir ∈ fs'.
Proof.
  revert filepath fs'. induction fuel as [|fuel IH]; intros filepath fs' H Hway;
    [discriminate|].
  apply ensure_Done in H as [[Hbase _]|(Hbase & fs1 & H1 & Hcase)].
  { inversion Hway; congruence. }
  assert (fs1 ⊆ fs') as Hsub by (destruct Hcase as [[_ ->]|[_ ->]]; set_solver).
  inversion Hway as [p _|p d _ Hup]; subst.
  - destruct Hcase as [[Hin ->]|[_ ->]]; set_solver.
  - apply Hsub. by apply (IH (dirname filepath)).
Qed.




Lemma prefix_trans a b c :
  String.prefix a b = true → String.prefix b c = true → String.prefix a c = true.
Proof.
  revert b c. induction a as [|x a IH]; intros [|y b] [|z c]; simpl; try done.
  destruct (ascii_dec x y) as [->|]; [|done].
  destruct (ascii_dec y z) as [->|]; [|done].
  destruct (ascii_dec z z); [|done]. apply IH.
Qed.

(** The call returns only for paths that do not start at the root. *)
Lemma returns_only_relative fuel fs filepath fs' :
  ensureParentDirExists fuel fs filepath = Done fs' → hasRoot filepath = false.
Proof.
  revert filepath fs'. induction fuel as [|fuel IH]; intros filepath fs' H;
    [discriminate|].
  destruct (hasRoot filepath) eqn:Hroot; [|done].
  apply hasRoot_dirname in Hroot.
  apply ensure_Done in H as [[Hbase _]|(_ & fs1 & H1 & _)].
  - unfold is_base in Hbase. by rewrite (hasRoot_not_base _ Hroot) in Hbase.
  - apply IH in H1. congruence.
Qed.

Lemma on_the_way_prefix filepath dir :
  hasRoot filepath = false → on_the_way filepath dir →
  String.prefix dir filepath = true
  ∧ (String.length dir < String.length filepath)%nat.
Proof.
  intros Hrel Hway. induction Hway as [p Hbase|p d Hbase Hway IH].
  - destruct (dirname_relative p Hrel) as [E|(_ & _ & Hshort & Hpre)]; [|done].
    by rewrite E in Hbase.
  - destruct (dirname_relative p Hrel) as [E|(_ & Hrel' & Hshort & Hpre)].
    { by rewrite E in Hbase. }
    destruct (IH Hrel') as [Hpre' Hshort']. split; [|lia].
    by apply (prefix_trans _ (dirname p)).
Qed.

Lemma ensure_keeps fuel fs filepath fs' :
  ensureParentDirExists fuel fs filepath = Done fs' → fs ⊆ fs'.
Proof.
  revert filepath fs'. induction fuel as [|fuel IH]; intros filepath fs' H;
    [discriminate|].
  apply ensure_Done in H as [[Hbase ->]|(Hbase & fs1 & H1 & Hcase)]; [done|].
  pose proof (IH _ _ H1) as Hsub.
  destruct Hcase as [[Hin ->]|[Hout ->]]; [done|].
  etrans; [exact Hsub|apply union_subseteq_r].
Qed.

Lemma ensure_new fuel fs filepath fs' dir :
  ensureParentDirExists fuel fs filepath = Done fs' →
  dir ∈ fs' → dir ∉ fs → on_the_way filepath dir.
Proof.
  revert filepath fs'. induction fuel as [|fuel IH]; intros filepath fs' H Hd Hnd;
    [discriminate|].
  apply ensure_Done in H as [[Hbase ->]|(Hbase & fs1 & H1 & Hcase)]; [done|].
  destruct Hcase as [[Hin ->]|[Hout ->]].
  - apply way_up; [done|]. by apply (IH _ _ H1).
  - apply elem_of_union in Hd as [Hd|Hd].
    + apply elem_of_singleton in Hd as ->. by apply way_parent.
    + apply way_up; [done|]. by apply (IH _ _ H1).
Qed.

(** X3: whenever the call returns, every directory that existed still exists,
    and whatever exists now and did not before is one of the directories on
    the way to the file: a proper prefix of the path. *)
Theorem creates_only_parents fuel fs filepath fs' :
  ensureParentDirExists fuel fs filepath = Done fs' →
  fs ⊆ fs'
  ∧ ∀ dir, dir ∈ fs' → dir ∉ fs →
      on_the_way filepath dir
      ∧ String.prefix dir filepath = true
      ∧ (String.length dir < String.length filepath)%nat.
Proof.
  intros H. split; [by apply (ensure_keeps _ _ _ _ H)|].
  intros dir Hd Hnd. pose proof (ensure_new _ _ _ _ _ H Hd Hnd) as Hway.
  split; [done|]. apply on_the_way_prefix; [|done].
  by apply (returns_only_relative _ _ _ _ H).
Qed.

(* out/js/a.js, where lib exists *)
Lemma creates_only_parents_witness :
  ensureParentDirExists 3 {["lib"]} "out/js/a.js"
    = Done ({["out/js"]} ∪ ({["out"]} ∪ {["lib"]}))
  ∧ ({["lib"]} : gset string) ⊆ {["out/js"]} ∪ ({["out"]} ∪ {["lib"]}).
Proof.
  split; [reflexivity|].
  apply (creates_only_parents 3 {["lib"]} "out/js/a.js"). reflexivity.
Defined.

(** Where every directory on the way exists already the file system is
    left as it is. *)
Lemma ensure_nothing_to_do fuel fs0 fs filepath x :
  ensureParentDirExists fuel fs0 filepath = Done x →
  (∀ dir, on_the_way filepath dir → dir ∈ fs) →
  ensureParentDirExists fuel fs filepath = Done fs.
Proof.
  revert filepath x. induction fuel as [|fuel IH]; intros filepath x H Hall;
    [discriminate|].
  rewrite ensure_step.
  apply ensure_Done in H as [[Hbase _]|(Hbase & fs1 & H1 & _)];
    rewrite Hbase; [done|].
  rewrite (IH _ _ H1) by (intros dir Hd; apply Hall; by apply way_up).
  unfold existsSync. rewrite bool_decide_eq_true_2; [done|].
  apply Hall. by apply way_parent.
Qed.

(** X4: calling it once more changes nothing: on the file system the call
    has left, the same call creates no directory. *)
Theorem ensure_twice fuel fs filepath fs' :
  ensureParentDirExists fuel fs filepath = Done fs' →
  ensureParentDirExists fuel fs' filepath = Done fs'.
Proof.
  intros H. apply (ensure_nothing_to_do _ fs _ _ fs'); [done|].
  intros dir Hd. by apply (ensure_parents _ _ _ _ _ H).
Qed.

(* out/js/a.js *)
Lemma ensure_twice_witness :
  ensureParentDirExists 3 ∅ "out/js/a.js" = Done ({["out/js"]} ∪ ({["out"]} ∪ ∅))
  ∧ ensureParentDirExists 3 ({["out/js"]} ∪ ({["out"]} ∪ ∅)) "out/js/a.js"
    = Done ({["out/js"]} ∪ ({["out"]} ∪ ∅)).
Proof.
  split; [reflexivity|]. apply (ensure_twice 3 ∅). reflexivity.
Defined.

Lemma no_separator_scan path i b :
  (∀ j, is_slash (String.get j path) = false) → dirname_scan path i b = None.
Proof.
  intros H. revert b. induction i as [|i IH]; intros b; [done|].
  simpl. by rewrite H.
Qed.

Lemma has_separator_get path :
  has_separator path = false → ∀ j, is_slash (String.get j path) = false.
Proof.
  induction path as [|c s IH]; intros H j; [by destruct j|].
  simpl in H. apply orb_false_iff in H as [Hc Hs].
  destruct j as [|j]; simpl; [done|]. by apply IH.
Qed.

(** X5: a path without a separator, the empty path among them, names a file
    of the working directory: nothing is looked up and nothing created. *)
Theorem bare_file_name_creates_nothing fuel fs filepath :
  has_separator filepath = false →
  ensureParentDirExists (S fuel) fs filepath = Done fs.
Proof.
  intros H. pose proof (has_separator_get _ H) as Hget.
  rewrite ensure_step.
  assert (dirname filepath = ".") as ->; [|done].
  unfold dirname. destruct (Nat.eqb _ 0); [done|].
  rewrite no_separator_scan by done. unfold hasRoot. by rewrite Hget.
Qed.

(* script.js *)
Lemma bare_file_name_creates_nothing_witness :
  has_separator "script.js" = false
  ∧ ensureParentDirExists 1 {["lib"]} "script.js" = Done {["lib"]}.
Proof.
  split; [reflexivity|]. by apply bare_file_name_creates_nothing.
Defined.

End io_relative_facts.

(* --------------------------------------------------------------------- *)
(** ** lib/io.js: writing a script                                       *)
(* --------------------------------------------------------------------- *)

Module script_facts.
Import io io_spec script io_facts io_relative_facts.

Lemma ensure_never_throws fuel fs : ∀ filepath e,
  ensureParentDirExists fuel fs filepath ≠ Throw e.
Proof.
  induction fuel as [|fuel IH]; intros filepath e; [discriminate|].
  rewrite ensure_step. destruct (is_base _); [discriminate|].
  destruct (ensureParentDirExists fuel fs (dirname filepath)) eqn:E;
    [destruct (negb _); discriminate| |discriminate].
  by apply IH in E.
Qed.

(** X6: handed a path that starts at the root, [saveScript] generates and
    formats the code and then never returns: the file is not written,
    whatever the step budget. *)
Theorem saveScript_never_writes_absolute {disk} (p : imports disk) fuel fs contents
    ast filepath code formatted :
  hasRoot filepath = true →
  generate p ast = Done code → beautify p code = Done formatted →
  saveScript p fuel fs contents ast filepath = Timeout.
Proof.
  intros Hroot Hgen Hfmt. unfold saveScript. rewrite Hgen. simpl.
  rewrite Hfmt. simpl.
  destruct (ensureParentDirExists fuel fs filepath) as [fs'|e|] eqn:E;
    [|by apply ensure_never_throws in E|reflexivity].
  apply returns_only_relative in E. congruence.
Qed.

(* /out/script.js *)
Lemma saveScript_never_writes_absolute_witness :
  hasRoot "/out/script.js" = true
  ∧ saveScript
      {| generate := λ _, Done "x";
         beautify := λ code, Done code;
         writeFileSync := λ _ (contents : list (string * string)) filepath code,
                            Done ((filepath, code) :: contents) |}
      1000 ∅ [] VNull "/out/script.js" = Timeout.
Proof.
  split; [reflexivity|].
  by apply (saveScript_never_writes_absolute _ 1000 ∅ [] VNull "/out/script.js"
              "x" "x").
Defined.



End script_facts.

(* --------------------------------------------------------------------- *)
(** ** The driver: steps of a visit                                      *)
(* --------------------------------------------------------------------- *)

Module monad_facts.
Import rewriteCode driver_spec driver_facts tree_facts.

Lemma bindM_assoc {A B C} (m : M A) (f : A → M B) (g : B → M C) :
  bindM (bindM m f) g = bindM m (λ x, bindM (f x) g).
Proof.
  unfold bindM. destruct m as [[a l1]| |]; try reflexivity.
  destruct (f a) as [[b l2]| |]; try reflexivity.
  destruct (g b) as [[c l3]| |]; try reflexivity.
  by rewrite app_assoc.
Qed.

Lemma bindM_ext {A B} (m : M A) (f g : A → M B) :
  (∀ a, f a = g a) → bindM m f = bindM m g.
Proof. intros H. unfold bindM. destruct m as [[a l]| |]; by rewrite ?H. Qed.

(** A property that holds a node: the node is visited and put back. *)
Lemma visit_key_node visit node key rest :
  is_node (get node key) = true →
  visit_keys visit node (key :: rest) =
    (target <- visit (get node key) ;; visit_keys visit (set node key target) rest).
Proof.
  intros Hn. rewrite visit_keys_step.
  destruct (get node key) as [| | | | |fs] eqn:E; try discriminate Hn.
  cbv iota beta zeta. rewrite Hn, bindM_assoc. apply bindM_ext. intros a. by rewrite bindM_ret.
Qed.

(** A property that holds neither a node nor an array is passed over. *)
Lemma visit_key_skip visit node key rest :
  is_node (get node key) = false → is_array (get node key) = false →
  visit_keys visit node (key :: rest) = visit_keys visit node rest.
Proof.
  intros Hn Ha. rewrite visit_keys_step.
  destruct (get node key) eqn:E; try discriminate Ha; cbv iota beta zeta;
    rewrite ?Hn; by rewrite bindM_ret.
Qed.

(** [leave] hands back as it is a node that is neither a block nor a
    program. *)
Lemma leave_other node parent : block_like node = false → leave node parent = Done node.
Proof.
  unfold block_like, leave. intros [Hb Hp]%orb_false_iff.
  rewrite Hp. cbn [andb]. cbv iota zeta. by rewrite Hb, Hp.
Qed.

End monad_facts.

(* --------------------------------------------------------------------- *)
(** ** The rule table: expressions and expression statements             *)
(* --------------------------------------------------------------------- *)

Module rule_facts.
Import ast rewriteCode patterns pattern_spec driver_spec table_spec driver_facts
  tree_facts pattern_facts matcher_facts modifier_facts fuel_facts brace_facts
  ground_facts negation_facts monad_facts.

Ltac compute_types :=
  repeat match goal with
  | |- context [has_type (VObj ?fs) ?t] =>
      let r := eval cbv in (has_type (VObj fs) t) in
      change (has_type (VObj fs) t) with r
  end.

(** One more level of a written-out pattern. *)
Ltac compute_object :=
  cbv beta delta [LogicalExpression ConditionalExpression ExpressionStatement
                  IfStatement UnaryExpression];
  match goal with
  | |- context [match_into (VObj (("type", VStr ?s) :: ?pfs)) ?n ?e] =>
      rewrite (match_into_object (("type", VStr s) :: pfs) n e)
  end;
  compute_types; cbv iota; unfold match_fields;
  compute_reads; compute_scalars.

Lemma expression_is_node a : is_expression a = true → is_node a = true.
Proof.
  intros (s & Hs & _)%kind_in_type_of. by apply (type_of_is_node _ s).
Qed.

Lemma agrees_void_zero_kind node :
  agrees void_zero node = true → type_of node = Some "UnaryExpression".
Proof. apply (agrees_kind _ "UnaryExpression"). reflexivity. Qed.

Lemma enter_void_zero scopes fuel node :
  agrees void_zero node = true →
  enter (shipped scopes) fuel node = ret (Some (Identifier "undefined")).
Proof.
  intros H. pose proof (agrees_void_zero_kind _ H) as Hk.
  assert (agrees not_one node = false ∧ agrees not_zero node = false) as [H1 H0].
  { destruct node as [| | | | |fs]; try discriminate.
    unfold void_zero, not_one, not_zero, UnaryExpression, Literal in *.
    cbn [agrees forallb fst snd] in *.
    apply andb_true_iff in H as [_ H]. apply andb_true_iff in H as [H _].
    apply value_eqb_eq in H. rewrite <- H.
    split; (apply andb_false_iff; right; apply andb_false_iff; left; reflexivity). }
  unfold enter. rewrite (not_sequence_statement _ _ Hk) by discriminate.
  simpl lift. rewrite bindM_ret. cbv iota.
  change (table (shipped scopes))
    with (take 2 rewritePatterns ++ (void_zero, Identifier "undefined")
            :: drop 3 rewritePatterns).
  rewrite (apply_rules_first_match _ _ _ _ _ _ _ ∅).
  - change (rewriteCode.fill (shipped scopes)) with patterns.fill.
    rewrite fill_ground by reflexivity. simpl lift. rewrite bindM_ret.
    assert (has_type node "FunctionDeclaration" = false) as ->; [|done].
    apply has_type_false. congruence.
  - change (rewriteCode.matches (shipped scopes)) with patterns.matches.
    repeat constructor; simpl; rewrite matches_ground by reflexivity.
    + fold not_one. by rewrite H1.
    + fold not_zero. by rewrite H0.
  - change (rewriteCode.matches (shipped scopes)) with patterns.matches.
    rewrite matches_ground by reflexivity. by rewrite H.
Qed.

(** X8: wherever it stands, a node the pattern [void 0] matches is replaced by
    the identifier [undefined]; nothing below it is visited. *)
Theorem void_zero_becomes_undefined scopes fuel parent node bindings :
  patterns.matches void_zero node = Some bindings →
  replace (shipped scopes) (S fuel) parent node = ret (Identifier "undefined").
Proof.
  intros H. apply negation_theorem.matches_ground_agrees in H; [|reflexivity].
  apply (replace_leaf _ _ _ _ (Identifier "undefined"));
    [by apply enter_void_zero|reflexivity|reflexivity].
Qed.

Lemma void_zero_becomes_undefined_witness :
  patterns.matches void_zero void_zero = Some ∅
  ∧ replace (shipped no_scopes) 1 None void_zero = ret (Identifier "undefined").
Proof.
  split; [reflexivity|].
  by apply (void_zero_becomes_undefined no_scopes 0 None void_zero ∅).
Defined.

Lemma visit_if_without_else visit test consequent :
  is_node test = true → is_node consequent = true →
  visit_keys visit (IfStatement test consequent VNull)
    ["test"; "consequent"; "alternate"]
  = (test' <- visit test ;;
     consequent' <- visit consequent ;;
     ret (IfStatement test' consequent' VNull)).
Proof.
  intros Ht Hc. rewrite visit_key_node by exact Ht.
  change (get (IfStatement test consequent VNull) "test") with test.
  apply bindM_ext. intros test'.
  change (set (IfStatement test consequent VNull) "test" test')
    with (IfStatement test' consequent VNull).
  rewrite visit_key_node by exact Hc.
  change (get (IfStatement test' consequent VNull) "consequent") with consequent.
  apply bindM_ext. intros consequent'.
  change (set (IfStatement test' consequent VNull) "consequent" consequent')
    with (IfStatement test' consequent' VNull).
  by rewrite visit_key_skip.
Qed.

Lemma visit_if_else visit test consequent alternate :
  is_node test = true → is_node consequent = true → is_node alternate = true →
  visit_keys visit (IfStatement test consequent alternate)
    ["test"; "consequent"; "alternate"]
  = (test' <- visit test ;;
     consequent' <- visit consequent ;;
     alternate' <- visit alternate ;;
     ret (IfStatement test' consequent' alternate')).
Proof.
  intros Ht Hc Ha. rewrite visit_key_node by exact Ht.
  change (get (IfStatement test consequent alternate) "test") with test.
  apply bindM_ext. intros test'.
  change (set (IfStatement test consequent alternate) "test" test')
    with (IfStatement test' consequent alternate).
  rewrite visit_key_node by exact Hc.
  change (get (IfStatement test' consequent alternate) "consequent") with consequent.
  apply bindM_ext. intros consequent'.
  change (set (IfStatement test' consequent alternate) "consequent" consequent')
    with (IfStatement test' consequent' alternate).
  rewrite visit_key_node by exact Ha.
  change (get (IfStatement test' consequent' alternate) "alternate") with alternate.
  apply bindM_ext. intros alternate'. reflexivity.
Qed.

Lemma leave_conditional test consequent alternate parent :
  lift (leave (IfStatement test consequent alternate) parent)
  = ret (IfStatement test consequent alternate).
Proof. by rewrite leave_other. Qed.

Lemma and_rule_matches a b :
  is_expression a = true → is_expression b = true →
  patterns.matches (nth 3 rewritePatterns (VNull, VNull)).1
    (ExpressionStatement (LogicalExpression "&&" a b))
  = Some (<["expression2" := b]> {["expression1" := a]}).
Proof.
  intros Ha Hb. cbn [nth rewritePatterns fst]. unfold patterns.matches.
  compute_object. compute_object. compute_placeholders. reflexivity.
Qed.

Lemma or_rule_matches a b :
  is_expression a = true → is_expression b = true →
  patterns.matches (nth 4 rewritePatterns (VNull, VNull)).1
    (ExpressionStatement (LogicalExpression "||" a b))
  = Some (<["expression2" := b]> {["expression1" := a]}).
Proof.
  intros Ha Hb. cbn [nth rewritePatterns fst]. unfold patterns.matches.
  compute_object. compute_object. compute_placeholders. reflexivity.
Qed.

Lemma conditional_rule_matches a b c :
  is_expression a = true → is_expression b = true → is_expression c = true →
  patterns.matches (nth 5 rewritePatterns (VNull, VNull)).1
    (ExpressionStatement (ConditionalExpression a b c))
  = Some (<["expression3" := c]> (<["expression2" := b]> {["expression1" := a]})).
Proof.
  intros Ha Hb Hc. cbn [nth rewritePatterns fst]. unfold patterns.matches.
  compute_object. compute_object. compute_placeholders. reflexivity.
Qed.

(** [enter] at an expression statement that is not a sequence. *)
Lemma enter_expression_statement scopes fuel expression before pattern replacement
    after bindings result :
  has_type expression "SequenceExpression" = false →
  is_node expression = true →
  rewritePatterns = before ++ (pattern, replacement) :: after →
  Forall (λ rule, patterns.matches rule.1 (ExpressionStatement expression) = None)
    before →
  patterns.matches pattern (ExpressionStatement expression) = Some bindings →
  patterns.fill replacement bindings = Done result →
  enter (shipped scopes) fuel (ExpressionStatement expression) = ret (Some result).
Proof.
  intros Hseq Hnode Htable Hbefore Hm Hfill. unfold enter.
  assert (is_sequence_statement (ExpressionStatement expression) = Done false) as ->.
  { unfold is_sequence_statement.
    change (has_type (ExpressionStatement expression) "ExpressionStatement") with true.
    change (get (ExpressionStatement expression) "expression") with expression.
    cbv iota. destruct expression as [| | | | |fs]; try discriminate Hnode.
    unfold member. unfold has_type in Hseq.
    destruct (get (VObj fs) "type"); try reflexivity. by rewrite Hseq. }
  simpl lift. rewrite bindM_ret. cbv iota.
  change (table (shipped scopes)) with rewritePatterns. rewrite Htable.
  rewrite (apply_rules_first_match _ _ _ _ _ _ _ bindings); [|exact Hbefore|exact Hm].
  change (rewriteCode.fill (shipped scopes)) with patterns.fill.
  rewrite Hfill. simpl lift. rewrite bindM_ret. reflexivity.
Qed.

(** A visit to a conditional that [enter] has put in place: its parts are
    visited in turn and put back; a conditional is not touched on the way
    out. *)
Lemma replace_by_if_without_else c fuel parent node test consequent :
  enter c fuel node = ret (Some (IfStatement test consequent VNull)) →
  VisitorKeys c "IfStatement" = Some ["test"; "consequent"; "alternate"] →
  is_node test = true → is_node consequent = true →
  replace c (S fuel) parent node =
    (test' <- replace c fuel (Some (IfStatement test consequent VNull)) test ;;
     consequent' <-
       replace c fuel (Some (IfStatement test consequent VNull)) consequent ;;
     ret (IfStatement test' consequent' VNull)).
Proof.
  intros Henter Hkeys Ht Hc. rewrite replace_step, Henter, bindM_ret.
  simpl default.
  change (type_of (IfStatement test consequent VNull)) with (Some "IfStatement").
  simpl mbind. rewrite Hkeys. cbv iota.
  rewrite visit_if_without_else by done.
  rewrite !bindM_assoc. apply bindM_ext. intros test'.
  rewrite !bindM_assoc. apply bindM_ext. intros consequent'.
  rewrite bindM_ret. by rewrite leave_conditional.
Qed.

Lemma replace_by_if_else c fuel parent node test consequent alternate :
  enter c fuel node = ret (Some (IfStatement test consequent alternate)) →
  VisitorKeys c "IfStatement" = Some ["test"; "consequent"; "alternate"] →
  is_node test = true → is_node consequent = true → is_node alternate = true →
  replace c (S fuel) parent node =
    (test' <- replace c fuel (Some (IfStatement test consequent alternate)) test ;;
     consequent' <-
       replace c fuel (Some (IfStatement test consequent alternate)) consequent ;;
     alternate' <-
       replace c fuel (Some (IfStatement test consequent alternate)) alternate ;;
     ret (IfStatement test' consequent' alternate')).
Proof.
  intros Henter Hkeys Ht Hc Ha. rewrite replace_step, Henter, bindM_ret.
  simpl default.
  change (type_of (IfStatement test consequent alternate)) with (Some "IfStatement").
  simpl mbind. rewrite Hkeys. cbv iota.
  rewrite visit_if_else by done.
  rewrite !bindM_assoc. apply bindM_ext. intros test'.
  rewrite !bindM_assoc. apply bindM_ext. intros consequent'.
  rewrite !bindM_assoc. apply bindM_ext. intros alternate'.
  rewrite bindM_ret. by rewrite leave_conditional.
Qed.

(** X9: an expression statement [a && b;] is replaced by the conditional
    [if (a) b;]; the visit goes on through the test [a] and the new
    statement [b;], which are rewritten in turn. *)
Theorem and_statement_becomes_conditional scopes fuel parent a b :
  is_expression a = true → is_expression b = true →
  enter (shipped scopes) fuel (ExpressionStatement (LogicalExpression "&&" a b))
    = ret (Some (IfStatement a (ExpressionStatement b) VNull))
  ∧ replace (shipped scopes) (S fuel) parent
      (ExpressionStatement (LogicalExpression "&&" a b))
    = (test <- replace (shipped scopes) fuel
                 (Some (IfStatement a (ExpressionStatement b) VNull)) a ;;
       consequent <- replace (shipped scopes) fuel
                       (Some (IfStatement a (ExpressionStatement b) VNull))
                       (ExpressionStatement b) ;;
       ret (IfStatement test consequent VNull)).
Proof.
  intros Ha Hb.
  assert (enter (shipped scopes) fuel
            (ExpressionStatement (LogicalExpression "&&" a b))
          = ret (Some (IfStatement a (ExpressionStatement b) VNull))) as Henter.
  { apply (enter_expression_statement _ _ _ (take 3 rewritePatterns)
             (nth 3 rewritePatterns (VNull, VNull)).1
             (nth 3 rewritePatterns (VNull, VNull)).2
             (drop 4 rewritePatterns)
             (<["expression2" := b]> {["expression1" := a]}));
      [reflexivity|reflexivity|reflexivity|repeat constructor
      |by apply and_rule_matches|vm_compute; reflexivity]. }
  split; [exact Henter|].
  apply replace_by_if_without_else; [exact Henter|reflexivity| |reflexivity].
  by apply expression_is_node.
Qed.

(* a && f(); *)
Lemma and_statement_becomes_conditional_witness :
  is_expression (Identifier "a") = true
  ∧ is_expression (CallExpression (Identifier "f") []) = true
  ∧ enter (shipped no_scopes) 0
      (ExpressionStatement
         (LogicalExpression "&&" (Identifier "a")
            (CallExpression (Identifier "f") [])))
    = ret (Some (IfStatement (Identifier "a")
                   (ExpressionStatement (CallExpression (Identifier "f") []))
                   VNull)).
Proof.
  split; [reflexivity|]. split; [reflexivity|].
  apply (and_statement_becomes_conditional no_scopes 0 None); reflexivity.
Defined.

(** X10: an expression statement [a || b;] is replaced by the conditional
    [if (!a) b;]; the visit goes on through the new test [!a], where the
    rules for [!1] and [!0] get their turn, and the new statement [b;]. *)
Theorem or_statement_becomes_conditional scopes fuel parent a b :
  is_expression a = true → is_expression b = true →
  enter (shipped scopes) fuel (ExpressionStatement (LogicalExpression "||" a b))
    = ret (Some (IfStatement (UnaryExpression "!" a) (ExpressionStatement b) VNull))
  ∧ replace (shipped scopes) (S fuel) parent
      (ExpressionStatement (LogicalExpression "||" a b))
    = (test <- replace (shipped scopes) fuel
                 (Some (IfStatement (UnaryExpression "!" a)
                          (ExpressionStatement b) VNull))
                 (UnaryExpression "!" a) ;;
       consequent <- replace (shipped scopes) fuel
                       (Some (IfStatement (UnaryExpression "!" a)
                                (ExpressionStatement b) VNull))
                       (ExpressionStatement b) ;;
       ret (IfStatement test consequent VNull)).
Proof.
  intros Ha Hb.
  assert (enter (shipped scopes) fuel
            (ExpressionStatement (LogicalExpression "||" a b))
          = ret (Some (IfStatement (UnaryExpression "!" a)
                         (ExpressionStatement b) VNull))) as Henter.
  { apply (enter_expression_statement _ _ _ (take 4 rewritePatterns)
             (nth 4 rewritePatterns (VNull, VNull)).1
             (nth 4 rewritePatterns (VNull, VNull)).2
             (drop 5 rewritePatterns)
             (<["expression2" := b]> {["expression1" := a]}));
      [reflexivity|reflexivity|reflexivity|repeat constructor
      |by apply or_rule_matches|vm_compute; reflexivity]. }
  split; [exact Henter|].
  by apply replace_by_if_without_else.
Qed.

(* x || f();   and   1 || f(); *)
Lemma or_statement_becomes_conditional_witness :
  is_expression (Identifier "x") = true
  ∧ is_expression (CallExpression (Identifier "f") []) = true
  ∧ enter (shipped no_scopes) 0
      (ExpressionStatement
         (LogicalExpression "||" (Identifier "x")
            (CallExpression (Identifier "f") [])))
    = ret (Some (IfStatement (UnaryExpression "!" (Identifier "x"))
                   (ExpressionStatement (CallExpression (Identifier "f") []))
                   VNull)).
Proof.
  split; [reflexivity|]. split; [reflexivity|].
  apply (or_statement_becomes_conditional no_scopes 0 None); reflexivity.
Defined.

Example or_with_a_bit_end_to_end :
  rewriteCode (shipped no_scopes) 5
    (Program [ExpressionStatement
                (LogicalExpression "||" (Literal (VNum 1) "1")
                   (CallExpression (Identifier "f") []))])
  = ret (Program [IfStatement literal_false
                    (ExpressionStatement (CallExpression (Identifier "f") []))
                    VNull]).
Proof. vm_compute. reflexivity. Qed.

(** X11: an expression statement [a ? b : c;] is replaced by the conditional
    [if (a) b; else c;]; the visit goes on through the test and the two
    new statements. *)
Theorem conditional_statement_becomes_conditional scopes fuel parent a b c :
  is_expression a = true → is_expression b = true → is_expression c = true →
  enter (shipped scopes) fuel (ExpressionStatement (ConditionalExpression a b c))
    = ret (Some (IfStatement a (ExpressionStatement b) (ExpressionStatement c)))
  ∧ replace (shipped scopes) (S fuel) parent
      (ExpressionStatement (ConditionalExpression a b c))
    = (test <- replace (shipped scopes) fuel
                 (Some (IfStatement a (ExpressionStatement b)
                          (ExpressionStatement c))) a ;;
       consequent <- replace (shipped scopes) fuel
                       (Some (IfStatement a (ExpressionStatement b)
                                (ExpressionStatement c)))
                       (ExpressionStatement b) ;;
       alternate <- replace (shipped scopes) fuel
                      (Some (IfStatement a (ExpressionStatement b)
                               (ExpressionStatement c)))
                      (ExpressionStatement c) ;;
       ret (IfStatement test consequent alternate)).
Proof.
  intros Ha Hb Hc.
  assert (enter (shipped scopes) fuel
            (ExpressionStatement (ConditionalExpression a b c))
          = ret (Some (IfStatement a (ExpressionStatement b)
                         (ExpressionStatement c)))) as Henter.
  { apply (enter_expression_statement _ _ _ (take 5 rewritePatterns)
             (nth 5 rewritePatterns (VNull, VNull)).1
             (nth 5 rewritePatterns (VNull, VNull)).2
             (drop 6 rewritePatterns)
             (<["expression3" := c]>
                (<["expression2" := b]> {["expression1" := a]})));
      [reflexivity|reflexivity|reflexivity|repeat constructor
      |by apply conditional_rule_matches|vm_compute; reflexivity]. }
  split; [exact Henter|].
  apply replace_by_if_else; [exact Henter|reflexivity| |reflexivity|reflexivity].
  by apply expression_is_node.
Qed.

(* a ? f() : g(); *)
Lemma conditional_statement_becomes_conditional_witness :
  is_expression (Identifier "a") = true
  ∧ is_expression (CallExpression (Identifier "f") []) = true
  ∧ is_expression (CallExpression (Identifier "g") []) = true
  ∧ enter (shipped no_scopes) 0
      (ExpressionStatement
         (ConditionalExpression (Identifier "a")
            (CallExpression (Identifier "f") [])
            (CallExpression (Identifier "g") [])))
    = ret (Some (IfStatement (Identifier "a")
                   (ExpressionStatement (CallExpression (Identifier "f") []))
                   (ExpressionStatement (CallExpression (Identifier "g") [])))).
Proof.
  split; [reflexivity|]. split; [reflexivity|]. split; [reflexivity|].
  apply (conditional_statement_becomes_conditional no_scopes 0 None); reflexivity.
Defined.

End rule_facts.

(* --------------------------------------------------------------------- *)
(** ** The rule table: the module-interop helper                         *)
(* --------------------------------------------------------------------- *)

Module helper_facts.
Import ast rewriteCode patterns pattern_spec driver_spec table_spec
  driver_facts tree_facts pattern_facts matcher_facts modifier_facts fuel_facts
  brace_facts ground_facts negation_facts name_search_facts monad_facts rule_facts.

Lemma generic_key i :
  key_of "placeholder" (GenericPlaceholder i) = "placeholder" +:+ string_of_nat i.
Proof. unfold key_of, index_of. simpl. by rewrite Nat2Z.id. Qed.

Lemma match_into_generic_placeholder i node env :
  match_into (GenericPlaceholder i) node env =
    if has_type node "Identifier"
    then bind ("placeholder" +:+ string_of_nat i) (get node "name") env
    else None.
Proof.
  unfold GenericPlaceholder. rewrite match_into_object.
  change (has_type _ "GenericPlaceholder") with true. cbv iota.
  change (VObj _) with (GenericPlaceholder i). by rewrite generic_key.
Qed.

Lemma bind_fresh key v env :
  env !! key = None → bind key v env = Some (<[key := v]> env).
Proof. intros H. unfold bind. by rewrite H. Qed.

Lemma bind_same key v env : env !! key = Some v → bind key v env = Some env.
Proof. intros H. unfold bind. by rewrite H, node_equal_refl. Qed.

Ltac compute_level :=
  cbv beta delta [LogicalExpression ConditionalExpression ExpressionStatement
                  IfStatement UnaryExpression FunctionDeclaration BlockStatement
                  ReturnStatement MemberExpression ObjectExpression Property
                  Identifier];
  match goal with
  | |- context [match_into (VObj (("type", VStr ?s) :: ?pfs)) ?n ?e] =>
      rewrite (match_into_object (("type", VStr s) :: pfs) n e)
  end;
  compute_types; cbv iota; unfold match_fields;
  compute_reads; compute_scalars.

Ltac compute_generic :=
  rewrite match_into_generic_placeholder; compute_types; cbv iota;
  compute_reads; compute_keys;
  first [ rewrite bind_same by reflexivity
        | rewrite bind_fresh by reflexivity ]; cbv iota.

Ltac compute_array :=
  rewrite match_into_array; unfold match_items; cbv iota.

Lemma helper_rule_matches name parameter :
  patterns.matches (nth 12 rewritePatterns (VNull, VNull)).1 (helper name parameter)
  = Some (<["placeholder2" := VStr parameter]> {["placeholder1" := VStr name]}).
Proof.
  cbn [nth rewritePatterns fst]. unfold patterns.matches, helper.
  repeat first [compute_generic | compute_array | compute_level
               | progress compute_scalars].
  reflexivity.
Qed.

Lemma helper_other_rules name parameter :
  Forall (λ rule, patterns.matches rule.1 (helper name parameter) = None)
    (take 12 rewritePatterns).
Proof. repeat constructor. Qed.

Lemma enter_helper scopes fuel name parameter :
  enter (shipped scopes) fuel (helper name parameter) =
    (result <- disambiguate (shipped scopes) fuel (helper name parameter)
                 (helper "_interopRequireDefault" "obj") ;;
     ret (Some result)).
Proof.
  assert (is_sequence_statement (helper name parameter) = Done false) as Hseq
    by reflexivity.
  unfold enter. rewrite Hseq. simpl lift. rewrite bindM_ret. cbv iota.
  change (table (shipped scopes)) with rewritePatterns.
  rewrite table_ends_with_helper_rule.
  rewrite (apply_rules_first_match _ _ _ _ _ _ _
             (<["placeholder2" := VStr parameter]> {["placeholder1" := VStr name]})).
  - change (rewriteCode.fill (shipped scopes)) with patterns.fill.
    rewrite fill_ground by reflexivity.
    simpl lift. rewrite bindM_ret.
    change (has_type (helper name parameter) "FunctionDeclaration") with true.
    change (has_type (interop_helper "_interopRequireDefault") "FunctionDeclaration")
      with true.
    reflexivity.
  - apply helper_other_rules.
  - apply helper_rule_matches.
Qed.

(** X12: a declaration of the shape of the module-interop helper, whatever its
    name and the name of its parameter, is replaced by the helper under its
    fixed name, with the parameter [obj]: when the enclosing scope has no
    binding of that name the helper gets it; when it has one, and none of
    the name followed by 1, the helper gets the name followed by 1.  Either
    way one renaming is requested, of the variable the declaration bound,
    to the name chosen. *)
Theorem helper_gets_the_fixed_name scopes fuel name parameter scope :
  scopes (helper name parameter) = Some scope →
  ("_interopRequireDefault" ∉ scope →
   enter (shipped scopes) (S fuel) (helper name parameter)
   = Done (Some (helper "_interopRequireDefault" "obj"),
           [Rename (VStr name) (VStr "_interopRequireDefault")]))
  ∧ ("_interopRequireDefault" ∈ scope → "_interopRequireDefault1" ∉ scope →
     enter (shipped scopes) (S (S fuel)) (helper name parameter)
     = Done (Some (helper "_interopRequireDefault1" "obj"),
             [Rename (VStr name) (VStr "_interopRequireDefault1")])).
Proof.
  intros Hscope. split.
  - intros Hfree. rewrite enter_helper. unfold disambiguate.
    change (scopeManager (shipped scopes)) with scopes. rewrite Hscope.
    change (lift (member (get (helper name parameter) "id") "name"))
      with (ret (VStr name)).
    rewrite bindM_ret.
    change (lift (member (get (helper "_interopRequireDefault" "obj") "id") "name"))
      with (ret (VStr "_interopRequireDefault")).
    rewrite bindM_ret. cbv iota.
    rewrite (find_free_name_unused _ _ _ Hfree). reflexivity.
  - intros Htaken Hfree. rewrite enter_helper. unfold disambiguate.
    change (scopeManager (shipped scopes)) with scopes. rewrite Hscope.
    change (lift (member (get (helper name parameter) "id") "name"))
      with (ret (VStr name)).
    rewrite bindM_ret.
    change (lift (member (get (helper "_interopRequireDefault" "obj") "id") "name"))
      with (ret (VStr "_interopRequireDefault")).
    rewrite bindM_ret. cbv iota.
    rewrite (find_free_name_suffix_1 _ _ _ Htaken Hfree). reflexivity.
Qed.

(* function _interop(e) { return e && e.__esModule ? e : { default: e }; }
   in a scope that binds _interop only *)
Lemma helper_gets_the_fixed_name_witness :
  enter (shipped (λ _, Some {["_interop"]})) 1 (helper "_interop" "e")
  = Done (Some (helper "_interopRequireDefault" "obj"),
          [Rename (VStr "_interop") (VStr "_interopRequireDefault")]).
Proof.
  refine (proj1 (helper_gets_the_fixed_name (λ _, Some {["_interop"]}) 0
                   "_interop" "e" {["_interop"]} eq_refl) _).
  by vm_compute.
Defined.

End helper_facts.

(* --------------------------------------------------------------------- *)
(** ** The driver: sequence statements outside blocks                    *)
(* --------------------------------------------------------------------- *)

Module sequence_facts.
Import ast rewriteCode patterns driver_spec driver_facts tree_facts flatten_facts
  monad_facts.

(** The visit to a sequence statement: the statements made of its
    elements are visited under the container, which [leave] then sees. *)
Lemma replace_sequence c fuel parent node expressions :
  has_type node "ExpressionStatement" = true →
  has_type (get node "expression") "SequenceExpression" = true →
  get (get node "expression") "expressions" = VArr expressions →
  VisitorKeys c "Program" = Some ["body"] →
  replace c (S fuel) parent node =
    (statements <- mapM (replace c fuel
                           (Some (container (map ExpressionStatement expressions))))
                     (map ExpressionStatement expressions) ;;
     lift (leave (container statements) (default (container statements) parent))).
Proof.
  intros Ht Hs He Hkeys.
  assert (enter c fuel node
          = ret (Some (container (map ExpressionStatement expressions)))) as Henter.
  { unfold enter, is_sequence_statement, split_sequence. rewrite Ht, He.
    destruct (get node "expression") as [| | | | |fs] eqn:E; try discriminate.
    unfold member. unfold has_type in Hs.
    destruct (get (VObj fs) "type"); try discriminate. simpl. by rewrite Hs. }
  rewrite replace_step, Henter, bindM_ret. simpl default.
  change (type_of (container _)) with (Some "Program"). simpl mbind.
  rewrite Hkeys. cbv iota.
  rewrite visit_keys_step.
  change (get (container (map ExpressionStatement expressions)) "body")
    with (VArr (map ExpressionStatement expressions)). cbv iota.
  rewrite mapM_visit_child_nodes.
  2:{ apply List.Forall_forall. intros x Hx.
      apply in_map_iff in Hx as (e & <- & _). reflexivity. }
  rewrite !bindM_assoc. apply bindM_ext. intros statements.
  rewrite bindM_ret. simpl visit_keys. by rewrite bindM_ret.
Qed.

(** What [leave] makes of a container: a block where the parent is
    neither a block nor a program, the container itself where it is, with
    the containers among its statements spliced in either way. *)
Lemma leave_container statements parent r :
  leave (container statements) parent = Done r →
  ∃ out, expands statements out
         ∧ r = if block_like parent then container out else BlockStatement out.
Proof.
  unfold leave, block_like.
  change (has_type (container statements) "Program") with true.
  destruct (has_type parent "BlockStatement") eqn:Hb;
    [|destruct (has_type parent "Program") eqn:Hp]; cbn [andb negb orb]; cbv iota zeta.
  - change (has_type (container statements) "BlockStatement") with false.
    change (has_type (container statements) "Program") with true. cbn [orb].
    change (get (container statements) "body") with (VArr statements). cbv iota.
    destruct (flatten _ statements 0) as [out| |] eqn:Hflat; try discriminate.
    intros [= <-]. exists out. split; [|reflexivity].
    apply flatten_expands in Hflat as (tail & -> & Hex). by rewrite drop_0 in Hex.
  - change (has_type (container statements) "BlockStatement") with false.
    change (has_type (container statements) "Program") with true. cbn [orb].
    change (get (container statements) "body") with (VArr statements). cbv iota.
    destruct (flatten _ statements 0) as [out| |] eqn:Hflat; try discriminate.
    intros [= <-]. exists out. split; [|reflexivity].
    apply flatten_expands in Hflat as (tail & -> & Hex). by rewrite drop_0 in Hex.
  - change (set (container statements) "type" (VStr "BlockStatement"))
      with (BlockStatement statements).
    change (has_type (BlockStatement statements) "BlockStatement") with true.
    cbn [orb].
    change (get (BlockStatement statements) "body") with (VArr statements). cbv iota.
    destruct (flatten _ statements 0) as [out| |] eqn:Hflat; try discriminate.
    intros [= <-]. exists out. split; [|reflexivity].
    apply flatten_expands in Hflat as (tail & -> & Hex). by rewrite drop_0 in Hex.
Qed.

(** X13: a sequence statement [a, b;] below a parent that is neither a block
    nor a program, such as the bare body of a conditional or of a loop,
    comes back as a block [{ a; b; }]: the block holds, in order, the
    statements the visits of [a;] and [b;] have left, with the containers
    among them spliced in.  Below a block or a program, and at the root, it
    comes back as the container of those statements. *)
Theorem sequence_statement_becomes_block c fuel parent node expressions r l :
  has_type node "ExpressionStatement" = true →
  has_type (get node "expression") "SequenceExpression" = true →
  get (get node "expression") "expressions" = VArr expressions →
  VisitorKeys c "Program" = Some ["body"] →
  replace c (S fuel) parent node = Done (r, l) →
  ∃ statements out,
    mapM (replace c fuel (Some (container (map ExpressionStatement expressions))))
      (map ExpressionStatement expressions) = Done (statements, l)
    ∧ expands statements out
    ∧ r = if keeps_container parent then container out else BlockStatement out.
Proof.
  intros Ht Hs He Hkeys Hrun.
  rewrite (replace_sequence _ _ _ _ expressions) in Hrun by done.
  apply bindM_Done in Hrun as (statements & l1 & l2 & Hvisits & Hleave & ->).
  apply lift_Done in Hleave as [Hleave ->].
  apply leave_container in Hleave as (out & Hex & ->).
  exists statements, out. rewrite app_nil_r. split; [done|]. split; [done|].
  by destruct parent.
Qed.

(* a, b;  as the body of  if (c) a, b; *)
Lemma sequence_statement_becomes_block_witness :
  ∃ statements out,
    mapM (replace (shipped no_scopes) 2
            (Some (container (map ExpressionStatement
                                [Identifier "a"; Identifier "b"]))))
      (map ExpressionStatement [Identifier "a"; Identifier "b"])
    = Done (statements, [])
    ∧ expands statements out
    ∧ BlockStatement [ExpressionStatement (Identifier "a");
                      ExpressionStatement (Identifier "b")]
      = if keeps_container (Some (IfStatement (Identifier "c") VNull VNull))
        then container out else BlockStatement out.
Proof.
  apply (sequence_statement_becomes_block (shipped no_scopes) 2
           (Some (IfStatement (Identifier "c") VNull VNull))
           (ExpressionStatement
              (SequenceExpression [Identifier "a"; Identifier "b"]))
           [Identifier "a"; Identifier "b"]); reflexivity.
Defined.

End sequence_facts.

(* --------------------------------------------------------------------- *)
(** ** The rule table: kinds and placeholders                            *)
(* --------------------------------------------------------------------- *)

Module table_facts.
Import ast rewriteCode patterns pattern_spec driver_spec table_spec driver_facts
  tree_facts pattern_facts matcher_facts ground_facts negation_facts monad_facts.

Lemma lookup_field_In k fs v : lookup_field k fs = Some v → In (k, v) fs.
Proof.
  induction fs as [|[k' v'] fs IH]; simpl; [discriminate|].
  destruct (String.eqb k k') eqn:E.
  - apply String.eqb_eq in E as ->. intros [= ->]. by left.
  - intros H. right. by apply IH.
Qed.

Lemma type_of_field fs s : type_of (VObj fs) = Some s → In ("type", VStr s) fs.
Proof.
  unfold type_of, get. destruct (lookup_field "type" fs) as [v|] eqn:E;
    [|discriminate].
  simpl. destruct v; try discriminate. intros [= ->]. by apply lookup_field_In.
Qed.

(** A written-out pattern matches nodes of its own kind only. *)
Lemma matches_kind p node env s :
  placeholder_key p = None → type_of p = Some s →
  patterns.matches p node = Some env → type_of node = Some s.
Proof.
  intros Hnp Hs. unfold patterns.matches.
  destruct p as [| | | | |pfs]; try discriminate Hs.
  rewrite match_into_object.
  destruct (not_placeholder _ Hnp) as (-> & -> & ->).
  destruct node as [| | | | |nfs]; try discriminate. intros Hm.
  destruct (match_fields_member _ _ _ _ _ _ Hm (type_of_field _ _ Hs))
    as (env1 & env2 & H12 & _).
  rewrite match_into_scalar in H12 by exact I.
  destruct (value_eqb _ _) eqn:E; [|discriminate].
  apply value_eqb_eq in E. unfold type_of. by rewrite <- E.
Qed.

Lemma fill_kind t env r s :
  placeholder_key t = None → type_of t = Some s →
  patterns.fill t env = Done r → type_of r = Some s.
Proof.
  intros Hnp Hs Hfill. destruct t as [| | | | |fs]; try discriminate Hs.
  unfold type_of in *. destruct (get (VObj fs) "type") eqn:E; try discriminate.
  injection Hs as ->. by rewrite (fill_keeps_kind _ _ _ _ Hnp E Hfill).
Qed.

Lemma table_kinds_listed : forallb rule_kinds_listed rewritePatterns = true.
Proof. reflexivity. Qed.

Lemma enter_kinds scopes fuel node result l :
  enter (shipped scopes) fuel node = Done (Some result, l) →
  ∃ kind kinds new,
    type_of node = Some kind ∧ assoc kind replaced_kinds = Some kinds
    ∧ type_of result = Some new ∧ In new kinds.
Proof.
  unfold enter. intros (is_sequence & l1 & l2 & Hseq & H & ->)%bindM_Done.
  apply lift_Done in Hseq as [Hseq _].
  destruct is_sequence.
  - apply bindM_Done in H as (container & l3 & l4 & [Hs _]%lift_Done & Hret & ->).
    unfold ret in Hret. injection Hret as <- <-.
    unfold split_sequence in Hs.
    destruct (get (get node "expression") "expressions"); try discriminate.
    injection Hs as <-.
    exists "ExpressionStatement", ["IfStatement"; "Program"], "Program".
    split; [|split; [reflexivity|split; [reflexivity|by right; left]]].
    unfold is_sequence_statement in Hseq.
    destruct (has_type node "ExpressionStatement") eqn:E; [|discriminate].
    by apply has_type_type_of.
  - apply apply_rules_outcome in H
      as (pattern & replacement & env & result' & Hin & Hm & Hfill & Ht).
    pose proof table_kinds_listed as Hlisted.
    rewrite List.forallb_forall in Hlisted. specialize (Hlisted _ Hin).
    unfold rule_kinds_listed in Hlisted. cbn [fst snd] in Hlisted.
    destruct (placeholder_key pattern) eqn:Hpp; [discriminate|].
    destruct (placeholder_key replacement) eqn:Hpr; [discriminate|].
    destruct (type_of pattern) as [kind|] eqn:Hkp; [|discriminate].
    destruct (type_of replacement) as [new|] eqn:Hkr; [|discriminate].
    destruct (assoc kind replaced_kinds) as [kinds|] eqn:Hkinds; [|discriminate].
    exists kind, kinds, new.
    split; [by apply (matches_kind pattern _ env)|]. split; [done|].
    pose proof (fill_kind _ _ _ _ Hpr Hkr Hfill) as Hres.
    split.
    + destruct Ht as [->|(_ & l' & Hd)]; [done|].
      apply disambiguate_kind in Hd. congruence.
    + apply existsb_exists in Hlisted as (x & Hx & Heq).
      apply String.eqb_eq in Heq. by subst x.
Qed.

(** X14: [enter] replaces nodes of nine kinds only, and the kind of what it
    puts in place goes with the kind of the node: an identifier or a
    literal for a unary expression, a conditional or a container for an
    expression statement, a statement of the same kind for a conditional,
    a loop and a function declaration. *)
Theorem replacement_kind_goes_with_node_kind scopes fuel node result l :
  enter (shipped scopes) fuel node = Done (Some result, l) →
  ∃ kind kinds new,
    type_of node = Some kind ∧ assoc kind replaced_kinds = Some kinds
    ∧ type_of result = Some new ∧ In new kinds.
Proof. apply enter_kinds. Qed.

(* !0 *)
Lemma replacement_kind_goes_with_node_kind_witness :
  ∃ kind kinds new,
    type_of not_zero = Some kind ∧ assoc kind replaced_kinds = Some kinds
    ∧ type_of literal_true = Some new ∧ In new kinds.
Proof.
  apply (replacement_kind_goes_with_node_kind no_scopes 0 not_zero literal_true []).
  reflexivity.
Defined.

(** The loop over the visitor keys writes to the properties it visits and
    to no other. *)
Lemma visit_keys_frame visit keys : ∀ node node' l,
  visit_keys visit node keys = Done (node', l) →
  ∀ k, ¬ In k keys → get node' k = get node k.
Proof.
  induction keys as [|key keys IH]; intros node node' l H k Hk.
  - by injection H as <- _.
  - rewrite visit_keys_step in H.
    apply bindM_Done in H as (node1 & l1 & l2 & H1 & H2 & _).
    rewrite (IH _ _ _ H2) by (intros Hin; apply Hk; by right).
    assert (key ≠ k) as Hne by (intros ->; apply Hk; by left).
    destruct (get node key) as [| | | |items|fs] eqn:E; cbv iota beta zeta in H1;
      try (by injection H1 as <- _).
    + apply bindM_Done in H1 as (items' & ? & ? & _ & [= <- _] & _).
      by apply get_set_ne.
    + destruct (is_node (VObj fs)); [|by injection H1 as <- _].
      apply bindM_Done in H1 as (target & ? & ? & _ & [= <- _] & _).
      by apply get_set_ne.
Qed.















Lemma flatten_throws fuel : ∀ body i e,
  flatten fuel body i = Throw e → e = TypeError.
Proof.
  induction fuel as [|fuel IH]; intros body i e; [discriminate|].
  rewrite flatten_facts.flatten_step.
  destruct (body !! i) as [statement|]; [|discriminate].
  destruct (value_eqb statement VNull); [by intros [= <-]|].
  destruct (has_type statement "Program"); [|apply IH].
  destruct (get statement "body"); try (by intros [= <-]). apply IH.
Qed.

Lemma leave_throws node parent e : leave node parent = Throw e → e = TypeError.
Proof.
  unfold leave.
  match goal with |- context [if ?b then set node "type" _ else node] =>
    set (node3 := if b then set node "type" (VStr "BlockStatement") else node)
  end.
  clearbody node3. destruct (_ || _); [|discriminate].
  destruct (get node3 "body") as [| | | |body|]; try discriminate;
    try (by intros [= <-]).
  destruct (flatten _ body 0) eqn:E; try discriminate.
  intros [= <-]. by apply flatten_throws in E.
Qed.





End table_facts.

(* --------------------------------------------------------------------- *)
(** ** The driver: what a visit leaves alone                             *)
(* --------------------------------------------------------------------- *)

Module frame_facts.
Import ast rewriteCode patterns driver_spec driver_facts tree_facts flatten_facts
  monad_facts table_facts.

(** X21: [leave] always comes to an end: the loop over the body, which
    looks at the same index again after each splice, stops, since every
    splice takes a container out of the body for good; the call returns a
    node or throws a type error. *)
Theorem leave_always_ends node parent :
  (∃ r, leave node parent = Done r) ∨ leave node parent = Throw TypeError.
Proof.
  destruct (leave node parent) as [r|e|] eqn:E.
  - left. by exists r.
  - right. by rewrite (leave_throws _ _ _ E).
  - by apply leave_terminates in E.
Qed.

(** The visits of the children leave the kind of the node alone. *)
Lemma visit_keys_kind visit keys : ∀ node node' l t,
  type_of node = Some t →
  visit_keys visit node keys = Done (node', l) → type_of node' = Some t.
Proof.
  induction keys as [|key keys IH]; intros node node' l t Ht H.
  - by injection H as <- _.
  - rewrite visit_keys_step in H.
    apply bindM_Done in H as (node1 & l1 & l2 & H1 & H2 & _).
    apply (IH node1 _ _ t) in H2; [done|].
    destruct (String.eqb_spec key "type") as [->|Hne].
    + assert (node1 = node) as ->; [|done].
      unfold type_of in Ht. destruct (get node "type") eqn:E; try discriminate Ht.
      rewrite ?E in H1. simpl in H1. by injection H1 as <- _.
    + destruct (get node key) as [| | | |items|fs]; cbv iota beta zeta in H1;
        try (by injection H1 as <- _).
      * apply bindM_Done in H1 as (items' & ? & ? & _ & [= <- _] & _).
        by rewrite type_of_set_ne.
      * destruct (is_node (VObj fs)); [|by injection H1 as <- _].
        apply bindM_Done in H1 as (target & ? & ? & _ & [= <- _] & _).
        by rewrite type_of_set_ne.
Qed.

(** [leave] writes to the kind and to the body, and to nothing else. *)
Lemma leave_frame node parent r :
  leave node parent = Done r →
  ∀ k, k ≠ "type" → k ≠ "body" → get r k = get node k.
Proof.
  unfold leave. intros H k Ht Hb.
  match type of H with context [if ?b then set node "type" _ else node] =>
    set (node3 := if b then set node "type" (VStr "BlockStatement") else node) in H
  end.
  assert (get node3 k = get node k) as <-.
  { unfold node3. destruct (_ && _ && _); [|done]. by apply get_set_ne. }
  clearbody node3. destruct (_ || _); [|by injection H as <-].
  destruct (get node3 "body") as [| | | |body|]; try discriminate H;
    try (by injection H as <-).
  destruct (flatten _ body 0); try discriminate H. injection H as <-.
  by apply get_set_ne.
Qed.

(** X22: when [enter] leaves a node in place, the visit writes to the
    properties that hold its children, to the body and, for a container,
    to the kind, and to nothing else: operators, names, values and
    positions come back as they were; a node that is neither a block nor a
    program comes back with everything but its children as it was. *)
Theorem visit_keeps_own_properties c fuel parent node keys r l l0 :
  enter c fuel node = Done (None, l0) →
  type_of node ≫= VisitorKeys c = Some keys →
  replace c (S fuel) parent node = Done (r, l) →
  (∀ k, ¬ In k keys → k ≠ "type" → k ≠ "body" → get r k = get node k)
  ∧ (block_like node = false → ∀ k, ¬ In k keys → get r k = get node k).
Proof.
  intros Henter Hkeys. rewrite replace_step, Henter.
  intros (target & l1 & l2 & [= <- <-] & H & _)%bindM_Done.
  simpl default in H. rewrite Hkeys in H.
  apply bindM_Done in H as (node' & l3 & l4 & Hvisit & [Hleave _]%lift_Done & _).
  pose proof (visit_keys_frame _ _ _ _ _ Hvisit) as Hframe.
  split.
  - intros k Hk Ht Hb. rewrite (leave_frame _ _ _ Hleave) by done. by apply Hframe.
  - intros Hbl k Hk.
    destruct (type_of node) as [t|] eqn:Ht; [|discriminate].
    pose proof (visit_keys_kind _ _ _ _ _ _ Ht Hvisit) as Ht'.
    assert (block_like node' = false) as Hbl'.
    { unfold block_like, has_type in *. unfold type_of in Ht, Ht'.
      destruct (get node "type"); try discriminate Ht.
      destruct (get node' "type"); try discriminate Ht'. congruence. }
    rewrite (leave_other _ _ Hbl') in Hleave. injection Hleave as <-.
    by apply Hframe.
Qed.

(* a + !0 *)
Lemma visit_keeps_own_properties_witness :
  replace (shipped no_scopes) 3 None (BinaryExpression "+" (Identifier "a") not_zero)
  = Done (BinaryExpression "+" (Identifier "a") literal_true, [])
  ∧ get (BinaryExpression "+" (Identifier "a") literal_true) "operator"
    = get (BinaryExpression "+" (Identifier "a") not_zero) "operator".
Proof.
  assert (replace (shipped no_scopes) 3 None
            (BinaryExpression "+" (Identifier "a") not_zero)
          = Done (BinaryExpression "+" (Identifier "a") literal_true, [])) as Hrun
    by (vm_compute; reflexivity).
  split; [exact Hrun|].
  refine (proj2 (visit_keeps_own_properties (shipped no_scopes) 2 None
                   (BinaryExpression "+" (Identifier "a") not_zero)
                   ["left"; "right"]
                   (BinaryExpression "+" (Identifier "a") literal_true) [] []
                   eq_refl eq_refl Hrun) eq_refl "operator" _).
  intros [H|[H|[]]]; discriminate.
Defined.

End frame_facts.

(* --------------------------------------------------------------------- *)
(** ** The driver: trees with nothing to do                              *)
(* --------------------------------------------------------------------- *)

Module rest_facts.
Import ast rewriteCode patterns driver_spec rewrite_spec driver_facts tree_facts
  flatten_facts monad_facts.

Lemma mapM_unchanged (visit : value → M value) items :
  (∀ x, In x items → is_node x = true → visit x = ret x) →
  mapM (visit_child visit) items = ret items.
Proof.
  induction items as [|x items IH]; intros H; [reflexivity|].
  simpl. rewrite IH by (intros y Hy; apply H; by right).
  unfold visit_child at 1. destruct (is_node x) eqn:E.
  - rewrite (H x) by (done || by left). by rewrite !bindM_ret.
  - by rewrite !bindM_ret.
Qed.

(** Writing to a property the value it holds changes nothing. *)
Lemma set_get_same node key v : get node key = v → v ≠ VNull → set node key v = node.
Proof.
  destruct node as [| | | | |fs]; try done. simpl.
  destruct (lookup_field key fs) as [w|] eqn:E; simpl; [|congruence].
  intros -> _. by rewrite set_field_same.
Qed.

Lemma visit_keys_unchanged visit keys node :
  (∀ key child, In key keys → In child (kids (get node key)) →
     visit child = ret child) →
  visit_keys visit node keys = ret node.
Proof.
  induction keys as [|key keys IH]; intros H; [reflexivity|].
  rewrite visit_keys_step.
  assert (match get node key with
          | VArr items =>
              items' <- mapM (visit_child visit) items ;;
              ret (set node key (VArr items'))
          | candidate =>
              if is_node candidate
              then target <- visit candidate ;; ret (set node key target)
              else ret node
          end = ret node) as ->.
  { specialize (H key). destruct (get node key) as [| | | |items|fs] eqn:E;
      cbv iota beta zeta; try reflexivity.
    - rewrite mapM_unchanged.
      + rewrite bindM_ret. by rewrite set_get_same.
      + intros x Hx Hnode. apply H; [by left|]. simpl.
        apply filter_In. by split.
    - destruct (is_node (VObj fs)) eqn:Hnode; [|reflexivity].
      rewrite H; [|by left|by rewrite kids_node; [left|]].
      rewrite bindM_ret. by rewrite set_get_same. }
  rewrite bindM_ret. apply IH. intros k child Hk. apply H. by right.
Qed.

Lemma length_le_weights (body : list value) :
  (length body ≤ list_sum (map weight body))%nat.
Proof.
  induction body as [|s body IH]; simpl; [lia|]. pose proof (weight_pos s). lia.
Qed.

(** The loop of [leave] leaves alone a body without containers. *)
Lemma flatten_unchanged fuel body : ∀ i,
  Forall (λ s, s ≠ VNull ∧ has_type s "Program" = false) body →
  (length body - i < fuel)%nat →
  flatten fuel body i = Done body.
Proof.
  induction fuel as [|fuel IH]; intros i Hbody Hfuel; [lia|].
  rewrite flatten_step. destruct (body !! i) as [s|] eqn:E; [|reflexivity].
  pose proof (lookup_lt_Some _ _ _ E) as Hlt.
  rewrite List.Forall_forall in Hbody.
  destruct (Hbody s) as [Hnull Hprog].
  { apply list_elem_of_In. by eapply list_elem_of_lookup_2. }
  destruct (value_eqb s VNull) eqn:Heq.
  { apply value_eqb_eq in Heq. done. }
  rewrite Hprog. apply IH; [by apply List.Forall_forall|lia].
Qed.

Lemma leave_unchanged node parent :
  (has_type node "Program" = true → block_like parent = true) →
  (block_like node = true →
   ∃ body, get node "body" = VArr body
           ∧ Forall (λ s, s ≠ VNull ∧ has_type s "Program" = false) body) →
  leave node parent = Done node.
Proof.
  intros Hparent Hbody. unfold leave.
  assert ((has_type node "Program" && negb (has_type parent "BlockStatement")
           && negb (has_type parent "Program")) = false) as ->.
  { destruct (has_type node "Program"); [|done].
    specialize (Hparent eq_refl). unfold block_like in Hparent.
    by destruct (has_type parent "BlockStatement"), (has_type parent "Program"). }
  cbv iota zeta. fold (block_like node).
  destruct (block_like node); [|done].
  destruct (Hbody eq_refl) as (body & Hget & Hall). rewrite Hget.
  rewrite flatten_unchanged; [|done|].
  - by rewrite set_get_same.
  - pose proof (length_le_weights body). simpl. lia.
Qed.

(** X17: [leave] hands back as it is every node but two: a container that
    stands where neither a block nor a program holds it, and a block or a
    program with a container, or nothing at all, among its statements. *)
Theorem leave_changes_containers_only node parent :
  (has_type node "Program" = true → block_like parent = true) →
  (block_like node = true →
   ∃ body, get node "body" = VArr body
           ∧ Forall (λ s, s ≠ VNull ∧ has_type s "Program" = false) body) →
  leave node parent = Done node.
Proof. apply leave_unchanged. Qed.

(* { a; { b; } }  as the body of a loop *)
Lemma leave_changes_containers_only_witness :
  leave (BlockStatement [ExpressionStatement (Identifier "a");
                         BlockStatement [ExpressionStatement (Identifier "b")]])
    (WhileStatement (Identifier "c") VNull)
  = Done (BlockStatement [ExpressionStatement (Identifier "a");
                          BlockStatement [ExpressionStatement (Identifier "b")]]).
Proof.
  apply leave_changes_containers_only; [discriminate|].
  intros _. eexists. split; [reflexivity|]. repeat constructor; discriminate.
Defined.

Lemma weight_get node key :
  get node key = VNull ∨ (weight (get node key) < weight node)%nat.
Proof.
  destruct node as [| | | | |fs]; try (by left). simpl.
  destruct (lookup_field key fs) as [v|] eqn:E; [|by left].
  right. pose proof (weight_lookup _ _ _ E) as Hle. simpl. lia.
Qed.

Lemma weight_kids node key child :
  In child (kids (get node key)) → (weight child < weight node)%nat.
Proof.
  destruct (weight_get node key) as [->|Hlt]; [intros []|].
  destruct (get node key) as [| | | |items|vfs]; try (intros []; fail).
  - simpl. intros [Hin _]%filter_In. simpl in Hlt.
    assert (weight child ≤ list_sum (map weight items))%nat; [|lia].
    clear -Hin. induction items as [|x items IH]; [destruct Hin|].
    simpl. destruct Hin as [->|Hin]; [lia|]. specialize (IH Hin). lia.
  - unfold kids. destruct (is_node (VObj vfs)); [|intros []].
    by intros [<-|[]].
Qed.

Lemma replace_quiet c fuel : ∀ parent node,
  at_rest c node →
  (∀ n, below c node n → at_rest c n ∧ has_type n "Program" = false) →
  (has_type node "Program" = true → parent = None) →
  (weight node ≤ fuel)%nat →
  replace c fuel parent node = ret node.
Proof.
  induction fuel as [|fuel IH]; intros parent node Hrest Hbelow Hroot Hfuel.
  { pose proof (weight_pos node). lia. }
  destruct Hrest as (Hseq & Hrules & [keys Hkeys] & Hbody).
  rewrite replace_step.
  assert (enter c fuel node = ret None) as ->.
  { unfold enter. rewrite Hseq. simpl lift. rewrite bindM_ret.
    by apply apply_rules_no_match. }
  rewrite bindM_ret. simpl default. rewrite Hkeys.
  rewrite visit_keys_unchanged.
  - rewrite bindM_ret. rewrite leave_unchanged; [done| |done].
    intros Hp. rewrite (Hroot Hp). simpl. unfold block_like. rewrite Hp.
    by rewrite orb_true_r.
  - intros key child Hkey Hchild.
    assert (In child (children c node)) as Hin.
    { unfold children. rewrite Hkeys. apply in_flat_map. eauto. }
    destruct (Hbelow child (below_child _ _ _ Hin)) as [Hrest' Hprog].
    apply IH; [done| | |].
    + intros n Hn. apply Hbelow. by eapply below_step.
    + intros Hp. congruence.
    + pose proof (weight_kids _ _ _ Hchild). lia.
Qed.

(** X18: a tree in which the driver finds nothing to do comes back as it is,
    and no renaming is requested: the weight of the tree is enough of a
    step budget. *)
Theorem quiet_tree_comes_back fuel c ast :
  quiet c ast → (weight ast ≤ fuel)%nat → rewriteCode c fuel ast = ret ast.
Proof.
  intros [Hrest Hbelow] Hfuel. by apply replace_quiet.
Qed.

Ltac at_rest_here :=
  split; [reflexivity|];
  split; [repeat constructor|];
  split; [by eexists|];
  first [ discriminate
        | intros _; eexists; split; [reflexivity|];
          repeat constructor; discriminate ].

Ltac walk_below H :=
  let m := fresh "m" in
  let Hm := fresh "Hm" in
  apply below_inv in H as (m & Hm & H);
  vm_compute in Hm;
  repeat (destruct Hm as [Hm|Hm]; [subst m|]); [..|destruct Hm];
  (destruct H as [->|H]; [split; [at_rest_here|reflexivity]|walk_below H]).

(* f(x); *)
Lemma quiet_tree_comes_back_witness :
  quiet (shipped no_scopes)
    (Program [ExpressionStatement
                (CallExpression (Identifier "f") [Identifier "x"])])
  ∧ rewriteCode (shipped no_scopes) 30
      (Program [ExpressionStatement
                  (CallExpression (Identifier "f") [Identifier "x"])])
    = ret (Program [ExpressionStatement
                      (CallExpression (Identifier "f") [Identifier "x"])]).
Proof.
  assert (quiet (shipped no_scopes)
            (Program [ExpressionStatement
                        (CallExpression (Identifier "f") [Identifier "x"])]))
    as Hquiet.
  { split; [at_rest_here|]. intros n Hn. walk_below Hn. }
  split; [exact Hquiet|].
  apply quiet_tree_comes_back; [exact Hquiet|vm_compute; lia].
Defined.

End rest_facts.

(* --------------------------------------------------------------------- *)
(** ** The driver: the renamings requested                               *)
(* --------------------------------------------------------------------- *)

Module renaming_facts.
Import ast rewriteCode patterns pattern_spec driver_spec table_spec rewrite_spec
  driver_facts tree_facts pattern_facts matcher_facts ground_facts negation_facts
  monad_facts table_facts.











End renaming_facts.

(* --------------------------------------------------------------------- *)
(** ** The driver: no sequence statement remains                         *)
(* --------------------------------------------------------------------- *)

Module sequence_free_facts.
Import ast rewriteCode patterns pattern_spec driver_spec table_spec rewrite_spec
  driver_facts tree_facts flatten_facts visit_facts container_facts ground_facts
  negation_facts monad_facts table_facts.




Section shipped.
Variable scopes : value → option (gset string).


End shipped.



End sequence_free_facts.

(* --------------------------------------------------------------------- *)
(** ** The driver: the first six rules have nothing left to do           *)
(* --------------------------------------------------------------------- *)

Module normal_facts.
Import ast rewriteCode patterns pattern_spec driver_spec table_spec rewrite_spec
  normal_spec driver_facts tree_facts flatten_facts visit_facts container_facts
  pattern_facts matcher_facts modifier_facts brace_facts ground_facts negation_facts
  monad_facts rule_facts table_facts frame_facts.


Lemma has_type_VObj d t : has_type d t = true → ∃ fs, d = VObj fs.
Proof. destruct d; try discriminate. eauto. Qed.














Section shipped.
Variable scopes : value → option (gset string).













End shipped.



End normal_facts.
